(** * AntigravityManager: provider grouping, error localisation and the
      upstream dispatcher, embedded from the TypeScript sources.

    Conventions of the embedding.
    - A JavaScript string is a [string] of 8-bit characters: ASCII text,
      with anything outside ASCII carried as UTF-8 bytes, which are never
      white space.
    - A JavaScript [number] that holds a quota percentage is an IEEE 754
      binary64 value: sums, products and quotients round to the nearest
      double, ties to even, as the operators of the language do.
    - A plain object used as a dictionary is an association list in
      [Object.entries] order.
    - A function that can [throw] returns a [Completion]. *)

From Stdlib Require Import Bool List String Ascii NArith ZArith QArith Qround Lia Permutation.
From Stdlib Require Import DecimalString Sorted SpecFloat Qpower Lqa.
Import ListNotations.

#[local] Set Warnings "-register-all".

Open Scope string_scope.
Open Scope Z_scope.
Open Scope list_scope.

(* ================================================================== *)
(** * JavaScript string primitives *)
(* ================================================================== *)

Module Js.

(** [s.startsWith(p)] *)
Definition startsWith (s p : string) : bool := String.prefix p s.

(** [s.split(sep)] for a one-character separator: the segments between the
    occurrences of [sep]; always at least one segment. *)
Fixpoint split (sep : ascii) (s : string) : list string :=
  match s with
  | EmptyString => [EmptyString]
  | String c r =>
      if Ascii.eqb c sep then EmptyString :: split sep r
      else match split sep r with
           | h :: t => String c h :: t
           | [] => [String c EmptyString]
           end
  end.

(** White space removed by [String.prototype.trim] (its ASCII part): TAB,
    LF, VT, FF, CR and SPACE. *)
Definition isWhiteSpace (c : ascii) : bool :=
  let n := N_of_ascii c in
  (N.eqb n 9 || N.eqb n 10 || N.eqb n 11 || N.eqb n 12 || N.eqb n 13 || N.eqb n 32)%bool.

Fixpoint trimStart (s : string) : string :=
  match s with
  | EmptyString => EmptyString
  | String c r => if isWhiteSpace c then trimStart r else s
  end.

(** [trimEnd]: a character is kept when it is not white space or when
    something is kept after it. *)
Fixpoint trimEnd (s : string) : string :=
  match s with
  | EmptyString => EmptyString
  | String c r =>
      match trimEnd r with
      | EmptyString => if isWhiteSpace c then EmptyString else String c EmptyString
      | r' => String c r'
      end
  end.

Definition trim (s : string) : string := trimEnd (trimStart s).

(** [s.slice(n)] *)
Fixpoint slice_from (n : nat) (s : string) : string :=
  match n, s with
  | O, _ => s
  | S n', String _ r => slice_from n' r
  | S _, EmptyString => EmptyString
  end.

(** [s.slice(0, n)], with the bound as a binary number. *)
Fixpoint slice_to (n : N) (s : string) : string :=
  match s with
  | EmptyString => EmptyString
  | String c r => if N.eqb n 0 then EmptyString else String c (slice_to (N.pred n) r)
  end.

(** [s.length] as a binary number. *)
Fixpoint length (s : string) : N :=
  match s with
  | EmptyString => 0%N
  | String _ r => N.succ (length r)
  end.

(** The one-character string of the double quote. *)
Definition quote : string := String (ascii_of_N 34) EmptyString.

(** Truthiness of a string: [Boolean(s)]. *)
Definition truthy (s : string) : bool := negb (String.eqb s "").

(** [s.includes(p)] *)
Fixpoint includes (s p : string) : bool :=
  (startsWith s p ||
   match s with
   | EmptyString => false
   | String _ r => includes r p
   end)%bool.

(** Own-property lookup in an object given by its entries; a later entry
    for a key overrides an earlier one. *)
Fixpoint lookup {A : Type} (o : list (string * A)) (k : string) : option A :=
  match o with
  | [] => None
  | (k', v) :: r =>
      match lookup r k with
      | Some v' => Some v'
      | None => if String.eqb k' k then Some v else None
      end
  end.

(** [Math.round]: the nearest integer, ties towards plus infinity. *)
Definition Math_round (x : Q) : Z := Qfloor (x + (1 # 2)).

End Js.

(* ================================================================== *)
(** * Numbers *)
(* ================================================================== *)

Module JsNumber.

(** A [number] is a binary64 value in the representation of the standard
    library's specification of IEEE 754 arithmetic: a signed zero, a
    signed infinity, NaN, or a sign, a mantissa and an exponent that stand
    for [(-1)^s * m * 2^e].  The operations below return the canonical
    representation of their result. *)
Definition number : Type := spec_float.

Definition prec : Z := 53.
Definition emax : Z := 1024.

(** [x + y], [x * y], [x / y] and [x < y], [x <= y] *)
Definition add : number -> number -> number := SFadd prec emax.
Definition mul : number -> number -> number := SFmul prec emax.
Definition div : number -> number -> number := SFdiv prec emax.
Definition ltb : number -> number -> bool := SFltb.
Definition leb : number -> number -> bool := SFleb.

Definition isNaN (x : number) : bool :=
  match x with
  | S754_nan => true
  | _ => false
  end.

(** The number of an integer literal or of a count: the double nearest to
    it, which is the integer itself below [2^53]. *)
Definition ofZ (z : Z) : number := binary_normalize prec emax z 0 false.
Definition ofNat (n : nat) : number := ofZ (Z.of_nat n).

(** The literal [0]. *)
Definition zero : number := S754_zero false.

(** The number of a decimal literal [m / 10^digits], such as [27.9]: the
    double nearest to it. *)
Definition ofDecimal (m : Z) (digits : nat) : number :=
  div (ofZ m) (ofZ (10 ^ Z.of_nat digits)).

(** The rational a finite number stands for. *)
Definition exact (s : bool) (m : positive) (e : Z) : Q :=
  (inject_Z (cond_Zopp s (Zpos m)) * 2 ^ e)%Q.

Definition valueOf (x : number) : option Q :=
  match x with
  | S754_zero _ => Some 0%Q
  | S754_finite s m e => Some (exact s m e)
  | _ => None
  end.

(** [Math.round(x)]: NaN, the infinities and the zeros are returned as
    they are; a number that rounds to zero gives the zero of its sign;
    otherwise the nearest integer, the upper one at a tie. *)
Definition Math_round (x : number) : number :=
  match x with
  | S754_finite s m e =>
      let k := Js.Math_round (exact s m e) in
      if k =? 0 then S754_zero s else ofZ k
  | _ => x
  end.

End JsNumber.

(* ================================================================== *)
(** * src/utils/provider-grouping.ts *)
(* ================================================================== *)

Module ProviderGrouping.

Record ProviderInfo := { name : string; company : string; color : string }.

Definition PROVIDER_REGISTRY : list (string * ProviderInfo) :=
  [ ("claude-", {| name := "Claude"; company := "Anthropic"; color := "#D97757" |});
    ("gemini-", {| name := "Gemini"; company := "Google"; color := "#4285F4" |});
    ("others",  {| name := "Other";  company := "Various"; color := "#6B7280" |}) ].

Definition ProviderKey := string.

Definition Object_keys {A : Type} (o : list (string * A)) : list string := map fst o.

(** The [for (const prefix of ...)] loop of [detectProvider]. *)
Fixpoint detectProvider_loop (prefixes : list string) (modelName : string) : ProviderKey :=
  match prefixes with
  | [] => "others"
  | prefix :: rest =>
      if (negb (String.eqb prefix "others") && Js.startsWith modelName prefix)%bool
      then prefix
      else detectProvider_loop rest modelName
  end.

Definition detectProvider (modelName : string) : ProviderKey :=
  detectProvider_loop (Object_keys PROVIDER_REGISTRY) modelName.

Definition getProviderInfo (modelName : string) : option ProviderInfo :=
  Js.lookup PROVIDER_REGISTRY (detectProvider modelName).

Record ModelInfo := { info_percentage : JsNumber.number; info_resetTime : string }.

Record ModelQuota := { id : string; percentage : JsNumber.number; resetTime : string }.

(** [visibilitySettings[id] !== false] *)
Definition isVisible (visibilitySettings : list (string * bool)) (m : string) : bool :=
  match Js.lookup visibilitySettings m with
  | Some false => false
  | _ => true
  end.

(** [ms.reduce((sum, m) => sum + m.percentage, 0)] *)
Definition sumPercentage (ms : list ModelQuota) : JsNumber.number :=
  fold_left (fun sum m => JsNumber.add sum (percentage m)) ms JsNumber.zero.

(** [Math.round(x * 10) / 10] *)
Definition round1 (x : JsNumber.number) : JsNumber.number :=
  JsNumber.div (JsNumber.Math_round (JsNumber.mul x (JsNumber.ofZ 10))) (JsNumber.ofZ 10).

Section Stats.

(** [new Date(time).getTime()], [None] for [NaN]; and
    [new Date(ms).toISOString()].  Both belong to the runtime. *)
Variable Date_getTime : string -> option Z.
Variable Date_toISOString : Z -> string.

Record ProviderStats := {
  providerKey : ProviderKey;
  providerInfo : option ProviderInfo;
  models : list ModelQuota;
  visibleModels : list ModelQuota;
  avgPercentage : JsNumber.number;
  earliestReset : option string
}.

(** [.filter(Boolean).map(time => new Date(time).getTime()).filter(t => !Number.isNaN(t))] *)
Fixpoint resetTimesOf (ms : list ModelQuota) : list Z :=
  match ms with
  | [] => []
  | m :: r =>
      if Js.truthy (resetTime m)
      then match Date_getTime (resetTime m) with
           | Some t => t :: resetTimesOf r
           | None => resetTimesOf r
           end
      else resetTimesOf r
  end.

(** [Math.min(...ts)] on a non-empty list. *)
Definition Math_min (t : Z) (ts : list Z) : Z := fold_left Z.min ts t.

Definition calculateProviderStats (key : ProviderKey) (ms : list ModelQuota)
    (visibilitySettings : list (string * bool)) : ProviderStats :=
  let visible := filter (fun m => isVisible visibilitySettings (id m)) ms in
  if (List.length visible =? 0)%nat then
    {| providerKey := key;
       providerInfo := Js.lookup PROVIDER_REGISTRY key;
       models := ms;
       visibleModels := [];
       avgPercentage := JsNumber.zero;
       earliestReset := None |}
  else
    let avg :=
      JsNumber.div (sumPercentage visible) (JsNumber.ofNat (List.length visible)) in
    let resetTimes := resetTimesOf visible in
    let earliest :=
      match resetTimes with
      | t :: ts => Some (Date_toISOString (Math_min t ts))
      | [] => None
      end in
    {| providerKey := key;
       providerInfo := Js.lookup PROVIDER_REGISTRY key;
       models := ms;
       visibleModels := visible;
       avgPercentage := round1 avg;
       earliestReset := earliest |}.

Inductive HealthStatus := healthy | degraded | limited | critical.

Record AccountStats := {
  providers : list ProviderStats;
  totalModels : nat;
  visibleModelCount : nat;
  overallPercentage : JsNumber.number;
  healthStatus : HealthStatus
}.

(** [if (!grouped[key]) grouped[key] = []; grouped[key].push(q)] on an
    object whose entries keep insertion order. *)
Fixpoint grouped_push (grouped : list (ProviderKey * list ModelQuota))
    (key : ProviderKey) (q : ModelQuota) : list (ProviderKey * list ModelQuota) :=
  match grouped with
  | [] => [(key, [q])]
  | (k, ms) :: rest =>
      if String.eqb k key then (k, ms ++ [q]) :: rest
      else (k, ms) :: grouped_push rest key q
  end.

(** The [ModelQuota] pushed for an entry [[modelName, info]]. *)
Definition toQuota (e : string * ModelInfo) : ModelQuota :=
  {| id := fst e;
     percentage := info_percentage (snd e);
     resetTime := info_resetTime (snd e) |}.

(** The first loop of [groupModelsByProvider], over [Object.entries(models)]. *)
Definition groupEntries (entries : list (string * ModelInfo))
  : list (ProviderKey * list ModelQuota) :=
  fold_left
    (fun grouped e => grouped_push grouped (detectProvider (fst e)) (toQuota e))
    entries [].

(** [providerOrder.indexOf(k)] *)
Fixpoint indexOf (l : list string) (k : string) : Z :=
  match l with
  | [] => -1
  | x :: r =>
      if String.eqb x k then 0
      else let i := indexOf r k in if i <? 0 then -1 else i + 1
  end.

Definition compareProviders (a b : ProviderStats) : Z :=
  let providerOrder := Object_keys PROVIDER_REGISTRY in
  indexOf providerOrder (providerKey a) - indexOf providerOrder (providerKey b).

(** [Array.prototype.sort] is stable: an insertion sort that keeps the
    order of elements the comparator does not separate. *)
Fixpoint sort_insert (cmp : ProviderStats -> ProviderStats -> Z)
    (p : ProviderStats) (l : list ProviderStats) : list ProviderStats :=
  match l with
  | [] => [p]
  | q :: r => if cmp p q <=? 0 then p :: l else q :: sort_insert cmp p r
  end.

Definition Array_sort (cmp : ProviderStats -> ProviderStats -> Z)
    (l : list ProviderStats) : list ProviderStats :=
  fold_right (sort_insert cmp) [] l.

(** The mean the function thresholds and then rounds. *)
Definition overallMean (allVisibleModels : list ModelQuota) : JsNumber.number :=
  if (0 <? List.length allVisibleModels)%nat
  then JsNumber.div (sumPercentage allVisibleModels)
         (JsNumber.ofNat (List.length allVisibleModels))
  else JsNumber.zero.

Definition healthOf (overall : JsNumber.number) : HealthStatus :=
  if JsNumber.ltb overall (JsNumber.ofZ 10) then critical
  else if JsNumber.ltb overall (JsNumber.ofZ 25) then limited
  else if JsNumber.ltb overall (JsNumber.ofZ 50) then degraded
  else healthy.

Definition groupModelsByProvider (entries : list (string * ModelInfo))
    (visibilitySettings : list (string * bool)) : AccountStats :=
  let grouped := groupEntries entries in
  let providers0 :=
    map (fun g => calculateProviderStats (fst g) (snd g) visibilitySettings) grouped in
  let providers := Array_sort compareProviders providers0 in
  let allVisibleModels := flat_map visibleModels providers in
  let total := fold_left (fun sum p => (sum + List.length (models p))%nat) providers 0%nat in
  let overall := overallMean allVisibleModels in
  {| providers := providers;
     totalModels := total;
     visibleModelCount := List.length allVisibleModels;
     overallPercentage := round1 overall;
     healthStatus := healthOf overall |}.

End Stats.

End ProviderGrouping.

(* ================================================================== *)
(** * src/components/CloudAccountList.tsx: [globalQuota] *)
(* ================================================================== *)

Module CloudAccountList.

Import ProviderGrouping.

(** What [globalQuota] reads of an account: [account.quota?.models],
    [None] when the quota or its model map is missing. *)
Record CloudAccount := { quota_models : option (list (string * ModelInfo)) }.

(** The two accumulators of the [useMemo] callback. *)
Record Totals := { totalPercentage : JsNumber.number; modelCount : nat }.

(** The inner [forEach] over [Object.entries(account.quota.models)]. *)
Definition addModel (visibilitySettings : list (string * bool))
    (acc : Totals) (e : string * ModelInfo) : Totals :=
  if isVisible visibilitySettings (fst e)
  then {| totalPercentage := JsNumber.add (totalPercentage acc) (info_percentage (snd e));
          modelCount := S (modelCount acc) |}
  else acc.

(** The outer [accounts.forEach]. *)
Definition addAccount (visibilitySettings : list (string * bool))
    (acc : Totals) (account : CloudAccount) : Totals :=
  match quota_models account with
  | None => acc
  | Some ms => fold_left (addModel visibilitySettings) ms acc
  end.

(** [accounts] is [None] while the query has no data; [model_visibility] is
    [config?.model_visibility].  The result [None] is [null]. *)
Definition globalQuota (accounts : option (list CloudAccount))
    (model_visibility : option (list (string * bool))) : option JsNumber.number :=
  match accounts with
  | None => None
  | Some [] => None
  | Some accs =>
      let visibilitySettings :=
        match model_visibility with Some v => v | None => [] end in
      let totals :=
        fold_left (addAccount visibilitySettings) accs
          {| totalPercentage := JsNumber.zero; modelCount := 0 |} in
      if (modelCount totals =? 0)%nat then None
      else Some (round1 (JsNumber.div (totalPercentage totals)
                           (JsNumber.ofNat (modelCount totals))))
  end.

End CloudAccountList.

(* ================================================================== *)
(** * src/utils/errorMessages.ts *)
(* ================================================================== *)

Module ErrorMessages.

Definition KEYCHAIN_ERROR_CODE := "ERR_KEYCHAIN_UNAVAILABLE".
Definition KEYCHAIN_HINT_TRANSLOCATION := "HINT_APP_TRANSLOCATION".
Definition KEYCHAIN_HINT_KEYCHAIN_DENIED := "HINT_KEYCHAIN_DENIED".
Definition KEYCHAIN_HINT_SIGN_NOTARIZE := "HINT_SIGN_NOTARIZE".
Definition DATA_MIGRATION_ERROR_CODE := "ERR_DATA_MIGRATION_FAILED".
Definition DATA_MIGRATION_HINT_RELOGIN := "HINT_RELOGIN".
Definition DATA_MIGRATION_HINT_CLEAR_DATA := "HINT_CLEAR_DATA".

Definition KEYCHAIN_HINT_I18N_MAP : list (string * string) :=
  [ (KEYCHAIN_HINT_TRANSLOCATION, "error.keychainHint.translocation");
    (KEYCHAIN_HINT_KEYCHAIN_DENIED, "error.keychainHint.keychainDenied");
    (KEYCHAIN_HINT_SIGN_NOTARIZE, "error.keychainHint.signNotarize") ].

Definition DATA_MIGRATION_HINT_I18N_MAP : list (string * string) :=
  [ (DATA_MIGRATION_HINT_RELOGIN, "error.dataMigrationHint.relogin");
    (DATA_MIGRATION_HINT_CLEAR_DATA, "error.dataMigrationHint.clearData") ].

(** Both maps are object literals, so [map[k]] also finds what they inherit
    from [Object.prototype]. *)
Definition Object_prototype_members : list string :=
  [ "constructor"; "__proto__"; "hasOwnProperty"; "isPrototypeOf";
    "propertyIsEnumerable"; "toLocaleString"; "toString"; "valueOf";
    "__defineGetter__"; "__defineSetter__"; "__lookupGetter__";
    "__lookupSetter__" ].

Definition isInherited (k : string) : bool :=
  existsb (String.eqb k) Object_prototype_members.

(** The value of [map[k]]. *)
Inductive Property :=
| Own (v : string)
| Inherited (member : string)
| Undefined.

Definition getProperty (o : list (string * string)) (k : string) : Property :=
  match Js.lookup o k with
  | Some v => Own v
  | None => if isInherited k then Inherited k else Undefined
  end.

(** What [t] is called with: a catalogue key, or a member of
    [Object.prototype] (a function or the prototype object). *)
Inductive TKey :=
| Key (k : string)
| NotAKey (member : string).

(** The value handed to [getLocalizedErrorMessage], typed [unknown]. *)
Inductive Unknown :=
| ErrorInstance (message : string)
    (* [error instanceof Error] *)
| ObjectWithMessage (message : option string) (asString : string)
    (* another object with ['message' in error]; [message] is [None] for
       [null] or [undefined], else [String(error.message)];
       [asString] is [String(error)] *)
| OtherValue (asString : string).
    (* anything else; [asString] is [String(error)] *)

Section Localize.

(** The translation function of i18next. *)
Variable t : TKey -> string.

Definition resolveKeychainMessage (hintCode : option string) : string :=
  let base := t (Key "error.keychainUnavailable") in
  match hintCode with
  | None => base
  | Some h =>
      if negb (Js.truthy h) then base
      else match getProperty KEYCHAIN_HINT_I18N_MAP h with
           | Undefined => base
           | Own hintKey =>
               if negb (Js.truthy hintKey) then base
               else (base ++ " " ++ t (Key hintKey))%string
           | Inherited member => (base ++ " " ++ t (NotAKey member))%string
           end
  end.

Definition resolveDataMigrationMessage (hintCode : option string) : string :=
  let base := t (Key "error.dataMigrationFailed") in
  match hintCode with
  | None => base
  | Some h =>
      if negb (Js.truthy h) then base
      else match getProperty DATA_MIGRATION_HINT_I18N_MAP h with
           | Undefined => base
           | Own hintKey =>
               if negb (Js.truthy hintKey) then base
               else (base ++ " " ++ t (Key hintKey))%string
           | Inherited member => (base ++ " " ++ t (NotAKey member))%string
           end
  end.

(** [const [code, hint] = rawMessage.split('|')] *)
Definition codeOf (rawMessage : string) : string :=
  match Js.split "|" rawMessage with
  | code :: _ => code
  | [] => ""
  end.

Definition hintOf (rawMessage : string) : option string :=
  match Js.split "|" rawMessage with
  | _ :: hint :: _ => Some hint
  | _ => None
  end.

Definition getLocalizedErrorMessage (error : Unknown) : string :=
  match error with
  | ErrorInstance rawMessage =>
      if String.eqb (codeOf rawMessage) KEYCHAIN_ERROR_CODE
      then resolveKeychainMessage (hintOf rawMessage)
      else if String.eqb (codeOf rawMessage) DATA_MIGRATION_ERROR_CODE
      then resolveDataMigrationMessage (hintOf rawMessage)
      else rawMessage
  | ObjectWithMessage message asString =>
      let rawMessage := match message with Some m => m | None => "" end in
      if String.eqb (codeOf rawMessage) KEYCHAIN_ERROR_CODE
      then resolveKeychainMessage (hintOf rawMessage)
      else if String.eqb (codeOf rawMessage) DATA_MIGRATION_ERROR_CODE
      then resolveDataMigrationMessage (hintOf rawMessage)
      else if Js.truthy rawMessage then rawMessage
      else asString
  | OtherValue asString => asString
  end.

End Localize.

End ErrorMessages.

(* ================================================================== *)
(** * JSON values and a reference [JSON.parse] *)
(* ================================================================== *)

Module Json.

(** A decoded JSON text.  A number keeps its lexeme: no function below
    computes with one. *)
Inductive value :=
| Null
| Bool (b : bool)
| Number (lexeme : string)
| Str (s : string)
| Array (items : list value)
| Object (fields : list (string * value)).

Inductive token :=
| TLBrace | TRBrace | TLBracket | TRBracket | TColon | TComma
| TStr (s : string) | TNum (lexeme : string)
| TTrue | TFalse | TNull.

(** Where a number stands in [-? int frac? exp?]. *)
Inductive numPhase :=
| NMinus | NZero | NInt | NDot | NFrac | NExp | NExpSign | NExpDigits.

Definition numAccepting (ph : numPhase) : bool :=
  match ph with
  | NZero | NInt | NFrac | NExpDigits => true
  | _ => false
  end.

(** The lexer reads one character at a time.  Accumulators are reversed. *)
Inductive lexState :=
| AtBoundary
| InString (acc : list ascii)
| InEscape (acc : list ascii)
| InUnicode (acc : list ascii) (hex : list ascii)
| InNumber (acc : list ascii) (ph : numPhase)
| InLiteral (rest : string) (tok : token).

Definition code (c : ascii) : N := N_of_ascii c.

Definition isDigit (c : ascii) : bool := (N.leb 48 (code c) && N.leb (code c) 57)%bool.

Definition hexValue (c : ascii) : option N :=
  let n := code c in
  if (N.leb 48 n && N.leb n 57)%bool then Some (n - 48)%N
  else if (N.leb 65 n && N.leb n 70)%bool then Some (n - 55)%N
  else if (N.leb 97 n && N.leb n 102)%bool then Some (n - 87)%N
  else None.

(** JSON white space: TAB, LF, CR, SPACE. *)
Definition isJsonSpace (c : ascii) : bool :=
  let n := code c in (N.eqb n 9 || N.eqb n 10 || N.eqb n 13 || N.eqb n 32)%bool.

Definition text_of (acc : list ascii) : string := string_of_list_ascii (rev acc).

(** The value of four hex digits (given in reading order). *)
Definition hex4 (digits : list ascii) : option N :=
  fold_left
    (fun acc d =>
       match acc, hexValue d with
       | Some a, Some v => Some (a * 16 + v)%N
       | _, _ => None
       end)
    digits (Some 0%N).

(** The UTF-8 bytes of a code unit below 65536, reversed. *)
Definition utf8_rev (n : N) : list ascii :=
  if (n <? 128)%N then [ascii_of_N n]
  else if (n <? 2048)%N then
    [ascii_of_N (128 + n mod 64); ascii_of_N (192 + n / 64)]
  else
    [ascii_of_N (128 + n mod 64); ascii_of_N (128 + (n / 64) mod 64);
     ascii_of_N (224 + n / 4096)].

Definition stepBoundary (c : ascii) : option (lexState * list token) :=
  let n := code c in
  if isJsonSpace c then Some (AtBoundary, [])
  else if N.eqb n 123 then Some (AtBoundary, [TLBrace])
  else if N.eqb n 125 then Some (AtBoundary, [TRBrace])
  else if N.eqb n 91 then Some (AtBoundary, [TLBracket])
  else if N.eqb n 93 then Some (AtBoundary, [TRBracket])
  else if N.eqb n 58 then Some (AtBoundary, [TColon])
  else if N.eqb n 44 then Some (AtBoundary, [TComma])
  else if N.eqb n 34 then Some (InString [], [])
  else if N.eqb n 45 then Some (InNumber [c] NMinus, [])
  else if N.eqb n 48 then Some (InNumber [c] NZero, [])
  else if isDigit c then Some (InNumber [c] NInt, [])
  else if N.eqb n 116 then Some (InLiteral "rue" TTrue, [])
  else if N.eqb n 102 then Some (InLiteral "alse" TFalse, [])
  else if N.eqb n 110 then Some (InLiteral "ull" TNull, [])
  else None.

(** The next phase of a number on [c], [None] when [c] does not continue it. *)
Definition stepNumber (ph : numPhase) (c : ascii) : option numPhase :=
  let n := code c in
  let isE := (N.eqb n 101 || N.eqb n 69)%bool in
  let isSign := (N.eqb n 43 || N.eqb n 45)%bool in
  match ph with
  | NMinus => if N.eqb n 48 then Some NZero else if isDigit c then Some NInt else None
  | NZero => if N.eqb n 46 then Some NDot else if isE then Some NExp else None
  | NInt => if isDigit c then Some NInt
            else if N.eqb n 46 then Some NDot else if isE then Some NExp else None
  | NDot => if isDigit c then Some NFrac else None
  | NFrac => if isDigit c then Some NFrac else if isE then Some NExp else None
  | NExp => if isDigit c then Some NExpDigits else if isSign then Some NExpSign else None
  | NExpSign => if isDigit c then Some NExpDigits else None
  | NExpDigits => if isDigit c then Some NExpDigits else None
  end.

Definition stepEscape (acc : list ascii) (c : ascii) : option (lexState * list token) :=
  let n := code c in
  if (N.eqb n 34 || N.eqb n 92 || N.eqb n 47)%bool then Some (InString (c :: acc), [])
  else if N.eqb n 98 then Some (InString (ascii_of_N 8 :: acc), [])
  else if N.eqb n 102 then Some (InString (ascii_of_N 12 :: acc), [])
  else if N.eqb n 110 then Some (InString (ascii_of_N 10 :: acc), [])
  else if N.eqb n 114 then Some (InString (ascii_of_N 13 :: acc), [])
  else if N.eqb n 116 then Some (InString (ascii_of_N 9 :: acc), [])
  else if N.eqb n 117 then Some (InUnicode acc [], [])
  else None.

Definition step (st : lexState) (c : ascii) : option (lexState * list token) :=
  match st with
  | AtBoundary => stepBoundary c
  | InString acc =>
      if N.eqb (code c) 34 then Some (AtBoundary, [TStr (text_of acc)])
      else if N.eqb (code c) 92 then Some (InEscape acc, [])
      else if (code c <? 32)%N then None
      else Some (InString (c :: acc), [])
  | InEscape acc => stepEscape acc c
  | InUnicode acc hex =>
      match hexValue c with
      | None => None
      | Some _ =>
          if (List.length hex =? 3)%nat then
            match hex4 (rev (c :: hex)) with
            | Some n => Some (InString (utf8_rev n ++ acc), [])
            | None => None
            end
          else Some (InUnicode acc (c :: hex), [])
      end
  | InNumber acc ph =>
      match stepNumber ph c with
      | Some ph' => Some (InNumber (c :: acc) ph', [])
      | None =>
          if numAccepting ph then
            match stepBoundary c with
            | Some (st', toks) => Some (st', TNum (text_of acc) :: toks)
            | None => None
            end
          else None
      end
  | InLiteral rest tok =>
      match rest with
      | EmptyString => None
      | String c' rest' =>
          if Ascii.eqb c c' then
            match rest' with
            | EmptyString => Some (AtBoundary, [tok])
            | _ => Some (InLiteral rest' tok, [])
            end
          else None
      end
  end.

Definition finish (st : lexState) : option (list token) :=
  match st with
  | AtBoundary => Some []
  | InNumber acc ph => if numAccepting ph then Some [TNum (text_of acc)] else None
  | _ => None
  end.

Fixpoint lex (st : lexState) (s : string) : option (list token) :=
  match s with
  | EmptyString => finish st
  | String c r =>
      match step st c with
      | None => None
      | Some (st', toks) =>
          match lex st' r with
          | Some more => Some (toks ++ more)
          | None => None
          end
      end
  end.

(** Recursive descent over the tokens; [fuel] bounds the depth of the
    recursion, and [parse] starts it above the number of tokens. *)
Fixpoint parseValue (fuel : nat) (ts : list token) : option (value * list token) :=
  match fuel with
  | O => None
  | S f =>
      match ts with
      | TNull :: r => Some (Null, r)
      | TTrue :: r => Some (Bool true, r)
      | TFalse :: r => Some (Bool false, r)
      | TStr s :: r => Some (Str s, r)
      | TNum n :: r => Some (Number n, r)
      | TLBracket :: TRBracket :: r => Some (Array [], r)
      | TLBracket :: r => parseElements f r []
      | TLBrace :: TRBrace :: r => Some (Object [], r)
      | TLBrace :: r => parseMembers f r []
      | _ => None
      end
  end
with parseElements (fuel : nat) (ts : list token) (acc : list value)
  : option (value * list token) :=
  match fuel with
  | O => None
  | S f =>
      match parseValue f ts with
      | Some (v, TComma :: r) => parseElements f r (v :: acc)
      | Some (v, TRBracket :: r) => Some (Array (rev (v :: acc)), r)
      | _ => None
      end
  end
with parseMembers (fuel : nat) (ts : list token) (acc : list (string * value))
  : option (value * list token) :=
  match fuel with
  | O => None
  | S f =>
      match ts with
      | TStr k :: TColon :: r =>
          match parseValue f r with
          | Some (v, TComma :: r') => parseMembers f r' ((k, v) :: acc)
          | Some (v, TRBrace :: r') => Some (Object (rev ((k, v) :: acc)), r')
          | _ => None
          end
      | _ => None
      end
  end.

(** [JSON.parse(text)], [None] when it throws a [SyntaxError]. *)
Definition parse (text : string) : option value :=
  match lex AtBoundary text with
  | None => None
  | Some ts =>
      match parseValue (S (List.length ts)) ts with
      | Some (v, []) => Some v
      | _ => None
      end
  end.

End Json.

(* ================================================================== *)
(** * src/server/modules/proxy/clients/gemini.client.ts *)
(* ================================================================== *)

Module GeminiClient.

(** How a readable stream finishes: the ['end'] or the ['error'] event. *)
Inductive StreamEnd := Ended | Errored.

(** A stream that finishes: the chunks of its ['data'] events, decoded,
    and its last event. *)
Record ReadableStream := { chunks : list string; ending : StreamEnd }.

(** [error.response?.data], typed [unknown]: a decoded JSON value (a JSON
    string is a JavaScript string), a [Buffer], a stream, or [undefined]. *)
Inductive ResponseData :=
| DataUndefined
| DataJson (v : Json.value)
| DataBuffer (utf8 : string)
| DataStream (s : ReadableStream).

Record AxiosResponse := { status : Z; data : ResponseData }.

(** What [axios.post] can throw. *)
Inductive Thrown :=
| AxiosError (message : string) (response : option AxiosResponse)
    (* [axios.isAxiosError(error)]; no response on a network, DNS or
       timeout failure *)
| NativeError (message : string)
    (* another [Error] *)
| ThrownValue (asString : string).
    (* any other value; [asString] is [String(error)] *)

Inductive Outcome :=
| Success (response : AxiosResponse)
| Failure (error : Thrown).

(** The [throw] statements of the dispatcher. *)
Inductive ThrowSite :=
| InHandleAxiosError          (* line 225 *)
| InThrowAsCleanError         (* line 387 *)
| UnexpectedControlFlow.      (* line 213 *)

(** The completion of a call: a value, or [new Error(message)] thrown at a
    site. *)
Inductive Completion (A : Type) :=
| Normal (a : A)
| Throw (site : ThrowSite) (message : string).
Arguments Normal {A} a.
Arguments Throw {A} site message.

(** The part of [process.env] and of the server configuration the
    dispatcher reads. *)
Record Env := {
  PROXY_INTERNAL_BASE_URLS : option string;
  ANTIGRAVITY_INTERNAL_BASE_URLS : option string;
  PROXY_REQUEST_USER_AGENT : option string;
  request_timeout : option Z
}.

Record AxiosRequestConfig := { responseType : option string }.

(** One POST.  Body and proxy settings are the same for every attempt of a
    call and are left out. *)
Record Request := {
  url : string;
  headers : list (string * string);
  timeout : Z;
  config : AxiosRequestConfig
}.

Definition defaultRequestUserAgent := "antigravity/1.11.9 windows/amd64".

Definition defaultInternalBaseUrls : list string :=
  [ "https://cloudcode-pa.googleapis.com/v1internal";
    "https://daily-cloudcode-pa.googleapis.com/v1internal" ].

(** [url.replace(/\/+$/, '')] *)
Fixpoint stripTrailingSlashes (s : string) : string :=
  match s with
  | EmptyString => EmptyString
  | String c r =>
      match stripTrailingSlashes r with
      | EmptyString => if Ascii.eqb c "/" then EmptyString else String c EmptyString
      | r' => String c r'
      end
  end.

Definition getInternalBaseUrls (env : Env) : list string :=
  let fromEnv :=
    match PROXY_INTERNAL_BASE_URLS env with
    | Some v => Some v
    | None => ANTIGRAVITY_INTERNAL_BASE_URLS env
    end in
  let configuredBaseUrls :=
    match fromEnv with
    | Some v => Some (filter Js.truthy (map Js.trim (Js.split "," v)))
    | None => None
    end in
  match configuredBaseUrls with
  | Some (u :: us) => map stripTrailingSlashes (u :: us)
  | _ => map stripTrailingSlashes defaultInternalBaseUrls
  end.

Definition getInternalTimeoutMs (env : Env) : Z :=
  let timeoutSeconds := match request_timeout env with Some s => s | None => 60 end in
  Z.max 1 timeoutSeconds * 1000.

Definition shouldSwitchEndpointOnError (error : Thrown) : bool :=
  match error with
  | AxiosError _ None => true
  | AxiosError _ (Some response) =>
      let status := status response in
      if ((status =? 401) || (status =? 403))%bool then false
      else ((status =? 408) || (status =? 429) || (status >=? 500))%bool
  | _ => false
  end.

Definition throwAsCleanError {A : Type} (error : option Thrown) : Completion A :=
  match error with
  | Some (AxiosError message _) => Throw InThrowAsCleanError message
  | Some (NativeError message) => Throw InThrowAsCleanError message
  | Some (ThrownValue asString) => Throw InThrowAsCleanError asString
  | None => Throw InThrowAsCleanError "null"
  end.

Definition maxChars : N := 512 * 1024.

(** The ['data'] handler of [readStreamAsText]. *)
Definition onData (buffer text : string) : string :=
  if (maxChars <=? Js.length buffer)%N then buffer
  else
    let buffer := (buffer ++ text)%string in
    if (maxChars <? Js.length buffer)%N then Js.slice_to maxChars buffer else buffer.

(** The value the promise of [readStreamAsText] resolves to. *)
Definition readStreamAsText (stream : ReadableStream) : option string :=
  match ending stream with
  | Errored => None
  | Ended => Some (fold_left onData (chunks stream) "")
  end.

(** [o.p] for a decoded JSON value [o]: only an object has own members,
    and neither [error] nor [message] is inherited. *)
Definition member (o : Json.value) (p : string) : option Json.value :=
  match o with
  | Json.Object fields => Js.lookup fields p
  | _ => None
  end.

(** The guard [typeof m === 'string' && m.trim() !== ''] and its result. *)
Definition nonEmptyTrimmed (m : option Json.value) : option string :=
  match m with
  | Some (Json.Str s) => if Js.truthy (Js.trim s) then Some (Js.trim s) else None
  | _ => None
  end.

(** [errorRecord && typeof errorRecord === 'object'] *)
Definition isObjectValue (v : option Json.value) : bool :=
  match v with
  | Some (Json.Object _) | Some (Json.Array _) => true
  | _ => false
  end.

(** [extractAxiosErrorMessageFromObject] on a decoded JSON value. *)
Definition fromJsonObject (v : Json.value) : option string :=
  match v with
  | Json.Object _ | Json.Array _ =>
      let errorRecord := member v "error" in
      let fromError :=
        if isObjectValue errorRecord then
          match errorRecord with
          | Some e => nonEmptyTrimmed (member e "message")
          | None => None
          end
        else None in
      match fromError with
      | Some m => Some m
      | None => nonEmptyTrimmed (member v "message")
      end
  | _ => None
  end.

Definition extractAxiosErrorMessageFromObject (responseData : ResponseData) : option string :=
  match responseData with
  | DataJson v => fromJsonObject v
  | DataBuffer _ => None     (* an object without [error] or [message] *)
  | DataStream _ => None     (* [isReadableStream] *)
  | DataUndefined => None
  end.

Section Dispatcher.

(** [JSON.parse], [None] when it throws. *)
Variable JSON_parse : string -> option Json.value.

(** The outcome of the [n]-th POST of a call (counted from 0). *)
Variable axios_post : nat -> Request -> Outcome.

Definition tryParseJson (value : string) : Json.value :=
  match JSON_parse value with
  | Some v => v
  | None => Json.Null
  end.

Definition LF : ascii := ascii_of_N 10.

(** [text.split('\n').map(l => l.trim()).filter(l => l.startsWith('data:'))] *)
Definition sseLinesOf (text : string) : list string :=
  filter (fun line => Js.startsWith line "data:") (map Js.trim (Js.split LF text)).

(** The [for (const line of sseLines)] loop. *)
Fixpoint firstSseMessage (sseLines : list string) : option string :=
  match sseLines with
  | [] => None
  | line :: rest =>
      let payload := Js.trim (Js.slice_from 5 line) in
      if (negb (Js.truthy payload) || String.eqb payload "[DONE]")%bool
      then firstSseMessage rest
      else
        match fromJsonObject (tryParseJson payload) with
        | Some message => Some message
        | None => firstSseMessage rest
        end
  end.

Definition extractAxiosErrorMessageFromText (rawText : string) : option string :=
  let text := Js.trim rawText in
  if negb (Js.truthy text) then None
  else
    match firstSseMessage (sseLinesOf text) with
    | Some message => Some message
    | None => fromJsonObject (tryParseJson text)
    end.

Definition extractAxiosErrorMessage (responseData : ResponseData) : option string :=
  match extractAxiosErrorMessageFromObject responseData with
  | Some fromObject => Some fromObject
  | None =>
      match responseData with
      | DataJson (Json.Str s) => extractAxiosErrorMessageFromText s
      | DataBuffer utf8 => extractAxiosErrorMessageFromText utf8
      | DataStream stream =>
          match readStreamAsText stream with
          | Some streamText =>
              if Js.truthy streamText
              then extractAxiosErrorMessageFromText streamText
              else None
          | None => None
          end
      | _ => None
      end
  end.

(** [handleAxiosError] is declared [Promise<never>]; its completion is
    kept general so that the callers read as they are written. *)
Definition handleAxiosError (error : option Thrown) (operation : string)
  : Completion unit :=
  match error with
  | Some (AxiosError message response) =>
      let responseData :=
        match response with Some r => data r | None => DataUndefined end in
      match extractAxiosErrorMessage responseData with
      | Some upstreamMessage =>
          if Js.truthy upstreamMessage
          then Throw InHandleAxiosError upstreamMessage
          else Throw InHandleAxiosError message
      | None => Throw InHandleAxiosError message
      end
  | _ => throwAsCleanError error
  end.

(** What the endpoint loop leaves behind: the requests POSTed so far, in
    order, and [lastError]. *)
Record LoopState := { posted : list Request; lastError : option Thrown }.

(** How the [for] loop is left: by its [return], by an exception, or by
    its condition becoming false. *)
Inductive LoopExit :=
| Returned (response : AxiosResponse)
| Thrown_ (site : ThrowSite) (message : string)
| Exhausted.

Section Failover.

Variable env : Env.
Variable path : string.
Variable accessToken : string.
Variable requestConfig : AxiosRequestConfig.
Variable operation : string.
Variable extraHeaders : option (list (string * string)).

Definition requestFor (baseUrl : string) : Request :=
  let requestUserAgent :=
    match PROXY_REQUEST_USER_AGENT env with
    | Some ua => ua
    | None => defaultRequestUserAgent
    end in
  {| url := (baseUrl ++ path)%string;
     headers :=
       [ ("Authorization", ("Bearer " ++ accessToken)%string);
         ("Content-Type", "application/json");
         ("User-Agent", requestUserAgent) ]
       ++ match extraHeaders with Some h => h | None => [] end;
     timeout := getInternalTimeoutMs env;
     config := requestConfig |}.

(** The [for] loop from [index] on; [remaining] are the base URLs at
    [index], [index + 1], ... and [len] is [baseUrls.length]. *)
Fixpoint endpointLoop (len : Z) (remaining : list string) (index : Z)
    (st : LoopState) : LoopExit * LoopState :=
  match remaining with
  | [] => (Exhausted, st)
  | baseUrl :: rest =>
      let request := requestFor baseUrl in
      match axios_post (List.length (posted st)) request with
      | Success response =>
          (Returned response,
           {| posted := posted st ++ [request]; lastError := lastError st |})
      | Failure error =>
          let st' := {| posted := posted st ++ [request]; lastError := Some error |} in
          let hasNextEndpoint := index <? len - 1 in
          if (negb hasNextEndpoint || negb (shouldSwitchEndpointOnError error))%bool
          then
            match handleAxiosError (Some error) operation with
            | Throw site message => (Thrown_ site message, st')
            | Normal _ => endpointLoop len rest (index + 1) st'
            end
          else endpointLoop len rest (index + 1) st'
      end
  end.

(** The body of [requestWithEndpointFailover] once [baseUrls] is known. *)
Definition failoverOver (baseUrls : list string)
  : Completion AxiosResponse * LoopState :=
  let init := {| posted := []; lastError := None |} in
  match endpointLoop (Z.of_nat (List.length baseUrls)) baseUrls 0 init with
  | (Returned response, st) => (Normal response, st)
  | (Thrown_ site message, st) => (Throw site message, st)
  | (Exhausted, st) =>
      match handleAxiosError (lastError st) operation with
      | Throw site message => (Throw site message, st)
      | Normal _ =>
          (Throw UnexpectedControlFlow
             ("[" ++ operation ++ "] unexpected control flow after upstream error handling")%string,
           st)
      end
  end.

Definition requestWithEndpointFailover : Completion AxiosResponse * LoopState :=
  failoverOver (getInternalBaseUrls env).

End Failover.

(** The decoded body of a successful [generateInternal]: the inner
    [response] of a double-wrapped payload. *)
Definition unwrapResponse (payload : ResponseData) : ResponseData :=
  match payload with
  | DataJson (Json.Object fields) =>
      match Js.lookup fields "response" with
      | Some inner => DataJson inner
      | None => payload
      end
  | _ => payload
  end.

Definition generateInternal (env : Env) (accessToken : string)
    (extraHeaders : option (list (string * string)))
  : Completion ResponseData * LoopState :=
  match requestWithEndpointFailover env ":generateContent" accessToken
          {| responseType := None |} "generate-content" extraHeaders with
  | (Normal response, st) => (Normal (unwrapResponse (data response)), st)
  | (Throw site message, st) => (Throw site message, st)
  end.

Definition streamGenerateInternal (env : Env) (accessToken : string)
    (extraHeaders : option (list (string * string)))
  : Completion ResponseData * LoopState :=
  match requestWithEndpointFailover env ":streamGenerateContent?alt=sse" accessToken
          {| responseType := Some "stream" |} "stream-generate" extraHeaders with
  | (Normal response, st) => (Normal (data response), st)
  | (Throw site message, st) => (Throw site message, st)
  end.

End Dispatcher.

End GeminiClient.

(* ================================================================== *)
(** * The request transformer (lib/antigravity/ClaudeRequestMapper.ts and
      lib/antigravity/SignatureStore.ts) *)
(* ================================================================== *)

Module SignatureStore.

(** Modelled from the spec: lib/antigravity/SignatureStore.ts is not among
    the sources.  The store is the process-wide cache of thought
    signatures, most recent first; eviction is left out. *)
Definition t := list string.

Definition clear : t := [].

Definition store (sig : string) (st : t) : t := sig :: st.

Definition has (sig : string) (st : t) : bool := existsb (String.eqb sig) st.

(** Modelled from the spec: a signature is valid iff it is a non-empty
    string of length at least 10. *)
Definition isValid (sig : string) : bool :=
  (Js.truthy sig && (10 <=? Js.length sig)%N)%bool.

Definition hasValid (st : t) : bool := existsb isValid st.

End SignatureStore.

Module ClaudeRequestMapper.

Record Tool := { tool_name : string }.

Record Thinking := { type : string; budget_tokens : Z }.

Inductive ContentBlock :=
| Text (text : string)
| ToolUse (name : string) (input : Json.value)
| ToolResult (name : string) (content : Json.value).

Record Message := { role : string; content : list ContentBlock }.

Record ClaudeRequest := {
  model : string;
  messages : list Message;
  system : option string;
  tools : option (list Tool);
  thinking : option Thinking;
  max_tokens : Z;
  stream : bool;
  temperature : option Q;
  top_p : option Q
}.

Inductive Part :=
| TextPart (text : string)
| FunctionCall (name : string) (args : Json.value)
| FunctionResponse (name : string) (response : Json.value).

Record Content := { content_role : string; parts : list Part }.

Record ThinkingConfig := { thinkingBudget : Z }.

Record GenerationConfig := {
  maxOutputTokens : Z;
  gen_temperature : option Q;
  topP : option Q;
  thinkingConfig : option ThinkingConfig
}.

Record FunctionDeclarations := { functionDeclarations : list Tool }.

Record GeminiInternalRequest := {
  project : string;
  request_model : string;
  contents : list Content;
  systemInstruction : option (list Part);
  request_tools : option (list FunctionDeclarations);
  generationConfig : GenerationConfig
}.

Record Transformed := {
  request : GeminiInternalRequest;
  resolved_model : string
}.

Section Transformer.

(** Modelled from the spec: the routing table and the text of the identity
    block are build-time constants of the missing file. *)
Variable modelTable : list (string * string).
Variable identityBlock : string.

Definition routeModel (m : string) : string :=
  match Js.lookup modelTable m with
  | Some target => target
  | None => m
  end.

Definition translateBlock (b : ContentBlock) : Part :=
  match b with
  | Text s => TextPart s
  | ToolUse n input => FunctionCall n input
  | ToolResult n c => FunctionResponse n c
  end.

Definition translateMessage (m : Message) : Content :=
  {| content_role := role m; parts := map translateBlock (content m) |}.

Definition buildSystemInstruction (sys : option string) : option (list Part) :=
  match sys with
  | None => Some [TextPart identityBlock]
  | Some s =>
      if Js.includes s "Antigravity" then Some [TextPart s]
      else Some [TextPart identityBlock; TextPart s]
  end.

(** [tools.length > 0] *)
Definition declaresTools (req : ClaudeRequest) : bool :=
  match tools req with
  | Some (_ :: _) => true
  | _ => false
  end.

(** Step 5 of the rewrite, the thinking safety rule. *)
Definition buildThinkingConfig (req : ClaudeRequest) (signatures : SignatureStore.t)
  : option ThinkingConfig :=
  match thinking req with
  | None => None
  | Some th =>
      if String.eqb (type th) "enabled" then
        if (declaresTools req && negb (SignatureStore.hasValid signatures))%bool
        then None
        else Some {| thinkingBudget := budget_tokens th |}
      else None
  end.

(** Modelled from the spec: [transformClaudeRequestIn] of the missing
    lib/antigravity/ClaudeRequestMapper.ts, after the seven steps of the
    rewrite algorithm, with the Signature Store as an argument. *)
Definition transformClaudeRequestIn (req : ClaudeRequest) (project_id : string)
    (signatures : SignatureStore.t) : Transformed :=
  let resolved := routeModel (model req) in
  {| request :=
       {| project := project_id;
          request_model := resolved;
          contents := map translateMessage (messages req);
          systemInstruction := buildSystemInstruction (system req);
          request_tools :=
            match tools req with
            | Some ts => Some [ {| functionDeclarations := ts |} ]
            | None => None
            end;
          generationConfig :=
            {| maxOutputTokens := max_tokens req;
               gen_temperature := temperature req;
               topP := top_p req;
               thinkingConfig := buildThinkingConfig req signatures |} |};
     resolved_model := resolved |}.

End Transformer.

End ClaudeRequestMapper.

(* ================================================================== *)
(** * Scanning a text for a [data:] line *)
(* ================================================================== *)

Module LineScan.

(** The first character of a line that is not white space is [d]. *)
Definition firstNonSpaceIsD (line : string) : bool :=
  match Js.trimStart line with
  | String c _ => Ascii.eqb c "d"
  | EmptyString => false
  end.

(** Some line of the text has [d] as its first character that is not white
    space; [atStart] tells that only white space was read on the current
    line. *)
Fixpoint hasDLine (atStart : bool) (s : string) : bool :=
  match s with
  | EmptyString => false
  | String c r =>
      if Ascii.eqb c GeminiClient.LF then hasDLine true r
      else if atStart then
        if Js.isWhiteSpace c then hasDLine true r
        else if Ascii.eqb c "d" then true
        else hasDLine false r
      else hasDLine false r
  end.

Fixpoint noLF (s : string) : bool :=
  match s with
  | EmptyString => true
  | String c r => (negb (Ascii.eqb c GeminiClient.LF) && noLF r)%bool
  end.

(** The states the lexer reaches: what is left of a literal has no line
    feed. *)
Definition reachable (st : Json.lexState) : Prop :=
  match st with
  | Json.InLiteral rest _ => noLF rest = true
  | _ => True
  end.

End LineScan.

(* ================================================================== *)
(** * The statements of the specification, as definitions *)
(* ================================================================== *)

Module Spec.

Import ProviderGrouping.

(** The mean of a list of numbers, in the arithmetic of numbers: they are
    added up from 0 in the order of the list, and the sum is divided by
    how many they are. *)
Definition sum (l : list JsNumber.number) : JsNumber.number :=
  fold_left JsNumber.add l JsNumber.zero.

Definition mean (l : list JsNumber.number) : JsNumber.number :=
  JsNumber.div (sum l) (JsNumber.ofNat (List.length l)).

(** A number rounded to one decimal: ten times the number, rounded to the
    nearest integer, over ten. *)
Definition roundedToOneDecimal (x : JsNumber.number) : JsNumber.number :=
  JsNumber.div (JsNumber.Math_round (JsNumber.mul x (JsNumber.ofZ 10))) (JsNumber.ofZ 10).

(** The percentages of the visible models of a model map, in the order of
    the map. *)
Definition visiblePercentages (entries : list (string * ModelInfo))
    (visibilitySettings : list (string * bool)) : list JsNumber.number :=
  map (fun e => info_percentage (snd e))
      (filter (fun e => isVisible visibilitySettings (fst e)) entries).

(** The same percentages listed provider group by provider group: the
    groups in the order of the registry, the models of a group in the
    order of the map. *)
Definition visibleByGroup (entries : list (string * ModelInfo))
    (visibilitySettings : list (string * bool)) : list JsNumber.number :=
  flat_map
    (fun key =>
       visiblePercentages
         (filter (fun e => String.eqb (detectProvider (fst e)) key) entries)
         visibilitySettings)
    (Object_keys PROVIDER_REGISTRY).

(** The thresholds of [healthStatus]. *)
Definition healthFor (p : JsNumber.number) (h : HealthStatus) : Prop :=
  match h with
  | healthy => JsNumber.leb (JsNumber.ofZ 50) p = true
  | degraded =>
      JsNumber.leb (JsNumber.ofZ 25) p = true /\ JsNumber.ltb p (JsNumber.ofZ 50) = true
  | limited =>
      JsNumber.leb (JsNumber.ofZ 10) p = true /\ JsNumber.ltb p (JsNumber.ofZ 25) = true
  | critical => JsNumber.ltb p (JsNumber.ofZ 10) = true
  end.

(** The visible percentages of all accounts of a pool, pooled together in
    the order of the accounts. *)
Definition pooledPercentages (accounts : list CloudAccountList.CloudAccount)
    (visibilitySettings : list (string * bool)) : list JsNumber.number :=
  flat_map
    (fun a =>
       match CloudAccountList.quota_models a with
       | Some ms => visiblePercentages ms visibilitySettings
       | None => []
       end)
    accounts.

(** The mean of the per-account means, which the global quota is not. *)
Definition meanOfMeans (accounts : list CloudAccountList.CloudAccount)
    (visibilitySettings : list (string * bool)) : JsNumber.number :=
  mean (map
          (fun a =>
             match CloudAccountList.quota_models a with
             | Some ms => mean (visiblePercentages ms visibilitySettings)
             | None => JsNumber.zero
             end)
          accounts).

(** The message [getLocalizedErrorMessage] reads off its argument, when it
    reads one. *)
Definition rawMessageOf (error : ErrorMessages.Unknown) : option string :=
  match error with
  | ErrorMessages.ErrorInstance m => Some m
  | ErrorMessages.ObjectWithMessage (Some m) _ => Some m
  | ErrorMessages.ObjectWithMessage None _ => Some ""
  | ErrorMessages.OtherValue _ => None
  end.

(** The catalogue key of a hint code that a hint table recognises. *)
Definition recognizedHint (hintMap : list (string * string)) (hint : option string)
  : option string :=
  match hint with
  | Some h => Js.lookup hintMap h
  | None => None
  end.

(** A base message, extended by a blank and the localized hint when the
    hint is recognised. *)
Definition extendedBy (t : ErrorMessages.TKey -> string) (base : string)
    (hintKey : option string) : string :=
  match hintKey with
  | Some k => (base ++ " " ++ t (ErrorMessages.Key k))%string
  | None => base
  end.

(** A hint that does not name a member inherited from [Object.prototype]. *)
Definition notInherited (hint : option string) : Prop :=
  match hint with
  | Some h => ErrorMessages.isInherited h = false
  | None => True
  end.

Section Extraction.

Import GeminiClient.

Variable JSON_parse : string -> option Json.value.

(** "The trimmed non-empty string at" a path of member names. *)
Fixpoint stringAt (v : Json.value) (path : list string) : option string :=
  match path with
  | [] =>
      match v with
      | Json.Str s => if String.eqb (Js.trim s) "" then None else Some (Js.trim s)
      | _ => None
      end
  | p :: rest =>
      match v with
      | Json.Object fields =>
          match Js.lookup fields p with
          | Some v' => stringAt v' rest
          | None => None
          end
      | _ => None
      end
  end.

(** "Object: look up [.error.message], else [.message]." *)
Definition objectRule (v : Json.value) : option string :=
  match stringAt v ["error"; "message"] with
  | Some m => Some m
  | None => stringAt v ["message"]
  end.

(** The frame of a [data:] line, decoded, with the object rule applied. *)
Definition frameMessage (line : string) : option string :=
  match JSON_parse (Js.trim (Js.slice_from 5 line)) with
  | Some frame => objectRule frame
  | None => None
  end.

Fixpoint firstMessage (frames : list (option string)) : option string :=
  match frames with
  | [] => None
  | Some m :: _ => Some m
  | None :: rest => firstMessage rest
  end.

(** "String/bytes: parse as JSON first; if that fails, parse each [data:]
    SSE line, attempting the object lookup on each decoded frame; return
    the first non-empty message." *)
Definition textRule (rawText : string) : option string :=
  let text := Js.trim rawText in
  match JSON_parse text with
  | Some v => objectRule v
  | None =>
      firstMessage
        (map frameMessage
           (filter (fun l => Js.startsWith l "data:")
                   (map Js.trim (Js.split LF text))))
  end.

(** The extraction of the specification for an object, a string, a byte
    buffer ("string rule" on its text) or a stream ("read up to 512 KiB,
    then apply the string rule"); [None] is [null]. *)
Definition extractionRule (responseData : ResponseData) : option string :=
  match responseData with
  | DataJson (Json.Str s) => textRule s
  | DataBuffer utf8 => textRule utf8
  | DataJson v => objectRule v
  | DataStream stream =>
      match readStreamAsText stream with
      | Some streamText => textRule streamText
      | None => None
      end
  | DataUndefined => None
  end.

(** What the grammar of JSON gives for the lines of a text: a text that
    parses has no line that starts, after white space, with [data:]; and
    neither the empty text nor [[DONE]] parses. *)
Definition jsonTextHasNoDataLine : Prop :=
  forall text, JSON_parse text <> None ->
    filter (fun l => Js.startsWith l "data:") (map Js.trim (Js.split LF text)) = [].

Definition rejectsEmptyAndDone : Prop :=
  JSON_parse "" = None /\ JSON_parse "[DONE]" = None.

End Extraction.

(** The failover table with the row the dispatcher adds: an error that is
    not an Axios error is terminal. *)
Definition retryable (error : GeminiClient.Thrown) : Prop :=
  match error with
  | GeminiClient.AxiosError _ None => True
  | GeminiClient.AxiosError _ (Some response) =>
      let s := GeminiClient.status response in
      s = 408 \/ s = 429 \/ 500 <= s
  | _ => False
  end.

Section Runs.

Import GeminiClient.

Variable JSON_parse : string -> option Json.value.
Variable axios_post : nat -> Request -> Outcome.
Variable env : Env.
Variable path : string.
Variable accessToken : string.
Variable requestConfig : AxiosRequestConfig.
Variable operation : string.
Variable extraHeaders : option (list (string * string)).

(** What a run of the endpoint loop did: it POSTed to the first [k] of the
    remaining base URLs, in order; every attempt but the last failed with
    an error that switches the endpoint; and the last attempt decides how
    the loop is left. *)
Record LoopRun (remaining : list string) (st : LoopState)
    (exit : LoopExit) (st' : LoopState) (k : nat) : Prop := {
  run_bound : (k <= List.length remaining)%nat;
  run_posted :
    posted st'
    = posted st
      ++ map (requestFor env path accessToken requestConfig extraHeaders)
             (firstn k remaining);
  run_earlier :
    forall i, (S i < k)%nat ->
      exists e,
        axios_post (List.length (posted st) + i)
          (requestFor env path accessToken requestConfig extraHeaders
             (nth i remaining ""))
        = Failure e /\
        shouldSwitchEndpointOnError e = true;
  run_last :
    match exit with
    | Returned response =>
        exists j, k = S j /\
          axios_post (List.length (posted st) + j)
            (requestFor env path accessToken requestConfig extraHeaders
               (nth j remaining ""))
          = Success response
    | Thrown_ site message =>
        exists j e, k = S j /\
          axios_post (List.length (posted st) + j)
            (requestFor env path accessToken requestConfig extraHeaders
               (nth j remaining ""))
          = Failure e /\
          (k = List.length remaining \/ shouldSwitchEndpointOnError e = false) /\
          handleAxiosError JSON_parse (Some e) operation = Throw site message /\
          lastError st' = Some e
    | Exhausted => remaining = [] /\ k = 0%nat /\ st' = st
    end
}.

End Runs.

(** The failover table of the specification, read on the shape of the
    error: is the next endpoint tried? *)
Definition tableSaysTryNext (error : GeminiClient.Thrown) : bool :=
  match error with
  | GeminiClient.AxiosError _ (Some response) =>
      let s := GeminiClient.status response in
      if ((s =? 401) || (s =? 403))%bool then false
      else if ((s =? 408) || (s =? 429) || (500 <=? s))%bool then true
      else false
  | _ => true   (* not an HTTP response error *)
  end.

End Spec.

(* ================================================================== *)
(** * Sample values to run the definitions on *)
(* ================================================================== *)

Module Samples.

Import ProviderGrouping.

(** A pool of two accounts: one model at 10, and two models at 40 and 100. *)
Definition pool : list CloudAccountList.CloudAccount :=
  [ {| CloudAccountList.quota_models :=
         Some [("gemini-a",
                {| info_percentage := JsNumber.ofZ 10; info_resetTime := "" |})] |};
    {| CloudAccountList.quota_models :=
         Some [("gemini-b",
                {| info_percentage := JsNumber.ofZ 40; info_resetTime := "" |});
               ("claude-c",
                {| info_percentage := JsNumber.ofZ 100; info_resetTime := "" |})] |} ].

(** A translation function that shows the key it was called with. *)
Definition sample_t (k : ErrorMessages.TKey) : string :=
  match k with
  | ErrorMessages.Key s => ("<" ++ s ++ ">")%string
  | ErrorMessages.NotAKey member => ("<?" ++ member ++ ">")%string
  end.

(** An environment without overrides: the two built-in base URLs. *)
Definition env0 : GeminiClient.Env :=
  {| GeminiClient.PROXY_INTERNAL_BASE_URLS := None;
     GeminiClient.ANTIGRAVITY_INTERNAL_BASE_URLS := None;
     GeminiClient.PROXY_REQUEST_USER_AGENT := None;
     GeminiClient.request_timeout := None |}.

Definition ok_response : GeminiClient.AxiosResponse :=
  {| GeminiClient.status := 200;
     GeminiClient.data := GeminiClient.DataJson (Json.Object []) |}.

(** The first POST times out, the second succeeds. *)
Definition timeout_then_ok (n : nat) (_ : GeminiClient.Request) : GeminiClient.Outcome :=
  match n with
  | O => GeminiClient.Failure (GeminiClient.AxiosError "timeout of 60000ms exceeded" None)
  | _ => GeminiClient.Success ok_response
  end.

(** Every POST fails with an error that is not an Axios error. *)
Definition always_native_error (_ : nat) (_ : GeminiClient.Request) : GeminiClient.Outcome :=
  GeminiClient.Failure (GeminiClient.NativeError "socket hang up").

(** Every POST is answered 401 with an upstream message. *)
Definition always_unauthorized (_ : nat) (_ : GeminiClient.Request) : GeminiClient.Outcome :=
  GeminiClient.Failure
    (GeminiClient.AxiosError "Request failed with status code 401"
       (Some {| GeminiClient.status := 401;
                GeminiClient.data :=
                  GeminiClient.DataJson
                    (Json.Object
                       [("error", Json.Object [("message", Json.Str " token expired ")])]) |})).

(** The request of scenarios 2 and 3 of the specification: thinking
    enabled with a budget of 1000 and one declared tool. *)
Definition thinking_with_tools : ClaudeRequestMapper.ClaudeRequest :=
  {| ClaudeRequestMapper.model := "gemini-3-pro-preview";
     ClaudeRequestMapper.messages :=
       [ {| ClaudeRequestMapper.role := "user";
            ClaudeRequestMapper.content := [ClaudeRequestMapper.Text "Hello"] |} ];
     ClaudeRequestMapper.system := None;
     ClaudeRequestMapper.tools :=
       Some [ {| ClaudeRequestMapper.tool_name := "get_weather" |} ];
     ClaudeRequestMapper.thinking :=
       Some {| ClaudeRequestMapper.type := "enabled";
               ClaudeRequestMapper.budget_tokens := 1000 |};
     ClaudeRequestMapper.max_tokens := 100;
     ClaudeRequestMapper.stream := true;
     ClaudeRequestMapper.temperature := None;
     ClaudeRequestMapper.top_p := None |}.

(** Scenario 1: the same request without tools. *)
Definition pure_thinking : ClaudeRequestMapper.ClaudeRequest :=
  {| ClaudeRequestMapper.model := "gemini-3-pro-preview";
     ClaudeRequestMapper.messages :=
       [ {| ClaudeRequestMapper.role := "user";
            ClaudeRequestMapper.content := [ClaudeRequestMapper.Text "Hello"] |} ];
     ClaudeRequestMapper.system := None;
     ClaudeRequestMapper.tools := None;
     ClaudeRequestMapper.thinking :=
       Some {| ClaudeRequestMapper.type := "enabled";
               ClaudeRequestMapper.budget_tokens := 1000 |};
     ClaudeRequestMapper.max_tokens := 100;
     ClaudeRequestMapper.stream := true;
     ClaudeRequestMapper.temperature := None;
     ClaudeRequestMapper.top_p := None |}.

Definition stored_signature : SignatureStore.t :=
  SignatureStore.store "valid_signature_string_longer_than_10_chars" SignatureStore.clear.

(** The text [data: {@error@: {@message@: @ quota exceeded @}}], with a
    double quote for each [@]. *)
Definition sse_error_text : string :=
  ("data: {" ++ Js.quote ++ "error" ++ Js.quote ++ ": {" ++ Js.quote ++ "message"
   ++ Js.quote ++ ": " ++ Js.quote ++ " quota exceeded " ++ Js.quote ++ "}}")%string.

(** The text [{@error@: {@message@: @ token expired @}}]. *)
Definition json_error_text : string :=
  ("{" ++ Js.quote ++ "error" ++ Js.quote ++ ": {" ++ Js.quote ++ "message"
   ++ Js.quote ++ ": " ++ Js.quote ++ " token expired " ++ Js.quote ++ "}}")%string.

End Samples.

(* ================================================================== *)
(** * Objects and sets held in component state *)
(* ================================================================== *)

Module JsObject.

(** [Object.hasOwn(o, k)] *)
Definition hasOwn {A : Type} (o : list (string * A)) (k : string) : bool :=
  existsb (fun e => String.eqb (fst e) k) o.

(** [{...o, [k]: v}]: the value of an existing key is replaced where the
    key stands, a new key is added last.  (An engine lists keys that are
    array indices first, in numeric order; what is proved of the result
    reads it by key or counts its values, and does not depend on the
    place of a key.) *)
Definition set {A : Type} (o : list (string * A)) (k : string) (v : A)
  : list (string * A) :=
  if hasOwn o k
  then map (fun e => if String.eqb (fst e) k then (k, v) else e) o
  else o ++ [(k, v)].

(** [Object.values(o)] *)
Definition values {A : Type} (o : list (string * A)) : list A := map snd o.

End JsObject.

(** A [Set<string>]: its elements in insertion order. *)
Module JsSet.

Definition t := list string.

Definition has (s : t) (x : string) : bool := existsb (String.eqb x) s.

Definition add (s : t) (x : string) : t := if has s x then s else s ++ [x].

Definition delete (s : t) (x : string) : t :=
  filter (fun y => negb (String.eqb y x)) s.

Definition size (s : t) : nat := List.length s.

(** [new Set(array)] *)
Definition of_array (l : list string) : t := fold_left add l [].

End JsSet.

(* ================================================================== *)
(** * src/hooks/useProviderGrouping.ts *)
(* ================================================================== *)

Module UseProviderGrouping.

(** What the hook reads of the configuration. *)
Record Config := {
  provider_groupings_enabled : option bool;
  model_visibility : option (list (string * bool))
}.

(** A state updater or a reader either gives a value or throws the
    [TypeError] of calling a method that is not there. *)
Inductive Result (A : Type) :=
| Ok (a : A)
| TypeError.
Arguments Ok {A} a.
Arguments TypeError {A}.

(** [config?.provider_groupings_enabled ?? false] *)
Definition enabled (config : option Config) : bool :=
  match config with
  | Some c => match provider_groupings_enabled c with Some b => b | None => false end
  | None => false
  end.

(** [config?.model_visibility ?? {}] *)
Definition visibilitySettings (config : option Config) : list (string * bool) :=
  match config with
  | Some c => match model_visibility c with Some v => v | None => [] end
  | None => []
  end.

(** [getAccountStats]: the model map is [account.quota?.models ?? {}]. *)
Definition getAccountStats (Date_getTime : string -> option Z)
    (Date_toISOString : Z -> string) (config : option Config)
    (account : CloudAccountList.CloudAccount) : ProviderGrouping.AccountStats :=
  let models :=
    match CloudAccountList.quota_models account with
    | Some ms => ms
    | None => []
    end in
  ProviderGrouping.groupModelsByProvider Date_getTime Date_toISOString models
    (visibilitySettings config).

(** [collapsedProviders[accountId]] on a plain object: an own array, a
    member inherited from [Object.prototype], or [undefined]. *)
Inductive Entry :=
| OwnArray (keys : list string)
| InheritedMember
| Absent.

Definition entryOf (collapsedProviders : list (string * list string))
    (accountId : string) : Entry :=
  match Js.lookup collapsedProviders accountId with
  | Some keys => OwnArray keys
  | None => if ErrorMessages.isInherited accountId then InheritedMember else Absent
  end.

(** [array.includes(k)] *)
Definition includes (array : list string) (k : string) : bool :=
  existsb (String.eqb k) array.

(** [collapsedProviders[accountId]?.includes(providerKey) ?? false] *)
Definition isProviderCollapsed (collapsedProviders : list (string * list string))
    (accountId providerKey : string) : Result bool :=
  match entryOf collapsedProviders accountId with
  | OwnArray keys => Ok (includes keys providerKey)
  | InheritedMember => TypeError
  | Absent => Ok false
  end.

(** The updater passed to [setCollapsedProviders]. *)
Definition toggleProviderCollapse (prev : list (string * list string))
    (accountId providerKey : string) : Result (list (string * list string)) :=
  match entryOf prev accountId with
  | InheritedMember => TypeError
  | entry =>
      let accountCollapsed :=
        match entry with OwnArray keys => keys | _ => [] end in
      let isCollapsed := includes accountCollapsed providerKey in
      Ok (JsObject.set prev accountId
            (if isCollapsed
             then filter (fun k => negb (String.eqb k providerKey)) accountCollapsed
             else accountCollapsed ++ [providerKey]))
  end.

Definition isAccountCollapsed (collapsedAccounts : list string) (accountId : string)
  : bool :=
  includes collapsedAccounts accountId.

(** The updater passed to [setCollapsedAccounts]. *)
Definition toggleAccountCollapse (prev : list string) (accountId : string)
  : list string :=
  if includes prev accountId
  then filter (fun id => negb (String.eqb id accountId)) prev
  else prev ++ [accountId].

End UseProviderGrouping.

(* ================================================================== *)
(** * src/components/CloudAccountList.tsx: the batch selection *)
(* ================================================================== *)

Module AccountSelection.

(** What the selection handlers read of an account. *)
Record AccountRow := { id : string }.

(** The updater of [toggleSelection]. *)
Definition toggleSelection (prev : JsSet.t) (accountId : string) (selected : bool)
  : JsSet.t :=
  if selected then JsSet.add prev accountId else JsSet.delete prev accountId.

(** The updater run when an account was deleted. *)
Definition afterDelete (prev : JsSet.t) (accountId : string) : JsSet.t :=
  JsSet.delete prev accountId.

(** [toggleSelectAll]; [accounts] is [None] while the query has no data. *)
Definition toggleSelectAll (selectedIds : JsSet.t) (accounts : option (list AccountRow))
  : JsSet.t :=
  match accounts with
  | Some accs =>
      if (JsSet.size selectedIds =? List.length accs)%nat then []
      else JsSet.of_array (map id accs)
  | None => JsSet.of_array []
  end.

End AccountSelection.

(* ================================================================== *)
(** * The account card: reset times and the flat model list *)
(* ================================================================== *)

Module CloudAccountCard.

Section Card.

(** [new Date(s).getTime()], [None] for [NaN]; the present instant; the
    translation function; [date.toLocaleString()]. *)
Variable Date_getTime : string -> option Z.
Variable now : Z.
Variable t : string -> string.
Variable toLocaleString : Z -> string.

(** A number in a template literal; the numbers here are integers. *)
Definition show (n : Z) : string := NilZero.string_of_int (Z.to_int n).

(** [differenceInHours] and [differenceInMinutes] of date-fns: the
    difference in milliseconds over the length of the unit, truncated. *)
Definition differenceInHours (a b : Z) : Z := Z.quot (a - b) 3600000.
Definition differenceInMinutes (a b : Z) : Z := Z.quot (a - b) 60000.

Definition formatTimeRemaining (dateStr : string) : option string :=
  match Date_getTime dateStr with
  | None => None
  | Some targetDate =>
      if targetDate <? now then Some "0h 0m"
      else
        let diffHrs := differenceInHours targetDate now in
        let diffMins := differenceInMinutes targetDate now - diffHrs * 60 in
        if diffHrs >=? 24 then
          let diffDays := diffHrs / 24 in
          let remainingHrs := diffHrs mod 24 in
          Some (show diffDays ++ "d " ++ show remainingHrs ++ "h")%string
        else Some (show diffHrs ++ "h " ++ show diffMins ++ "m")%string
  end.

Definition getResetTimeLabel (resetTime : option string) : string :=
  match resetTime with
  | None => t "cloud.card.resetUnknown"
  | Some r =>
      if negb (Js.truthy r) then t "cloud.card.resetUnknown"
      else
        match formatTimeRemaining r with
        | None => t "cloud.card.resetUnknown"
        | Some remaining =>
            if negb (Js.truthy remaining) then t "cloud.card.resetUnknown"
            else (t "cloud.card.resetPrefix" ++ ": " ++ remaining)%string
        end
  end.

Definition getResetTimeTitle (resetTime : option string) : option string :=
  match resetTime with
  | None => None
  | Some r =>
      if negb (Js.truthy r) then None
      else
        match Date_getTime r with
        | None => None
        | Some resetDate =>
            Some (t "cloud.card.resetTime" ++ ": " ++ toLocaleString resetDate)%string
        end
  end.

End Card.

(** [Object.entries(account.quota?.models || {}).filter(([modelName]) =>
    config?.model_visibility?.[modelName] !== false)] *)
Definition modelQuotas (account : CloudAccountList.CloudAccount)
    (config : option UseProviderGrouping.Config)
  : list (string * ProviderGrouping.ModelInfo) :=
  let models :=
    match CloudAccountList.quota_models account with
    | Some ms => ms
    | None => []
    end in
  filter
    (fun e =>
       ProviderGrouping.isVisible (UseProviderGrouping.visibilitySettings config) (fst e))
    models.

End CloudAccountCard.

(* ================================================================== *)
(** * The model visibility settings *)
(* ================================================================== *)

Module ModelVisibilitySettings.

(** [modelSet.add] for every key of the model map of an account that has
    one. *)
Definition addAccountModels (modelSet : JsSet.t) (account : CloudAccountList.CloudAccount)
  : JsSet.t :=
  match CloudAccountList.quota_models account with
  | Some models => fold_left JsSet.add (map fst models) modelSet
  | None => modelSet
  end.

(** [array.sort()] without a comparator orders texts by their code units;
    any sorting procedure gives the same array, as equal texts cannot be
    told apart. *)
Fixpoint sort_insert (x : string) (l : list string) : list string :=
  match l with
  | [] => [x]
  | y :: r => if String.leb x y then x :: y :: r else y :: sort_insert x r
  end.

Definition Array_sort (l : list string) : list string := fold_right sort_insert [] l.

(** [allModels]; [accounts] is [None] while the query has no data. *)
Definition allModels (accounts : option (list CloudAccountList.CloudAccount))
  : list string :=
  match accounts with
  | None => []
  | Some accs => Array_sort (fold_left addAccountModels accs [])
  end.

(** The updater of [handleModelToggle]. *)
Definition handleModelToggle (prev : list (string * bool)) (modelName : string)
    (checked : bool) : list (string * bool) :=
  JsObject.set prev modelName checked.

(** [handleReset] *)
Definition handleReset : list (string * bool) := [].

(** [Object.values(modelVisibility).filter((v) => !v).length] *)
Definition hiddenModels (modelVisibility : list (string * bool)) : nat :=
  List.length (filter negb (JsObject.values modelVisibility)).

(** [allModels.length - hiddenModels] *)
Definition visibleModels (allModels : list string)
    (modelVisibility : list (string * bool)) : Z :=
  Z.of_nat (List.length allModels) - Z.of_nat (hiddenModels modelVisibility).

(** The check box of a model: [modelVisibility[modelName] !== false]. *)
Definition isChecked (modelVisibility : list (string * bool)) (modelName : string)
  : bool :=
  ProviderGrouping.isVisible modelVisibility modelName.

(** [Object.keys(modelVisibility).length === 0], which disables the reset
    button. *)
Definition resetDisabled (modelVisibility : list (string * bool)) : bool :=
  (List.length modelVisibility =? 0)%nat.

End ModelVisibilitySettings.

(* ================================================================== *)
(** * Notions used to reason about doubles *)
(* ================================================================== *)

Module Doubles.

(** The two bits that the library's rounding keeps of what a right shift
    drops: whether any of them is set. *)
Definition flags (r : shr_record) : bool := (shr_r r || shr_s r)%bool.

(** [Shifted k r r']: [r'] is [r] shifted right by [k] bits; its flags are
    raised only if those of [r] were or a bit that is not zero was
    dropped. *)
Definition Shifted (k : Z) (r r' : shr_record) : Prop :=
  0 <= shr_m r' /\
  shr_m r' = shr_m r / 2 ^ k /\
  (flags r' = true -> flags r = true \/ shr_m r mod 2 ^ k <> 0).

(** [m * 2^e] *)
Definition scaled (m e : Z) : Q := (inject_Z m * 2 ^ e)%Q.

(** A finite number that is not negative and at most [C]. *)
Definition Below (x : JsNumber.number) (C : Q) : Prop :=
  exists q, JsNumber.valueOf x = Some q /\ (0 <= q)%Q /\ (q <= C)%Q.

End Doubles.

(* ================================================================== *)
(** * Notions used to state further properties *)
(* ================================================================== *)

Module Props.

Import ProviderGrouping.

(** The provider of a model. *)
Definition keyOf (q : ModelQuota) : ProviderKey := detectProvider (id q).

(** The models of a list that belong to a provider, in the order of the
    list. *)
Definition modelsOf (k : ProviderKey) (qs : list ModelQuota) : list ModelQuota :=
  filter (fun q => String.eqb (keyOf q) k) qs.

(** What the grouping loop keeps true: every key stands once, the group
    of a key holds the models of that key read so far, in order, and is
    not empty, and every model read so far has its group. *)
Definition Grouped (g : list (ProviderKey * list ModelQuota)) (done : list ModelQuota)
  : Prop :=
  NoDup (map fst g) /\
  (forall k ms, In (k, ms) g -> ms = modelsOf k done /\ ms <> []) /\
  (forall q, In q done -> In (keyOf q) (map fst g)).

(** The place of a provider key in the registry. *)
Definition registryIndex (k : ProviderKey) : Z :=
  indexOf (Object_keys PROVIDER_REGISTRY) k.

(** A model map that lists its models provider by provider, in the order
    of the registry. *)
Definition providerRank (e : string * ModelInfo) : Z :=
  registryIndex (detectProvider (fst e)).

Definition inRegistryOrder (entries : list (string * ModelInfo)) : Prop :=
  StronglySorted (fun a b => providerRank a <= providerRank b) entries.

(** The order of the groups: by the place of their key in the registry. *)
Definition leIndex (a b : ProviderStats) : Prop :=
  registryIndex (providerKey a) <= registryIndex (providerKey b).

(** A text without the separator of [CODE|HINT]. *)
Fixpoint noBar (s : string) : bool :=
  match s with
  | EmptyString => true
  | String c r => (negb (Ascii.eqb c "|") && noBar r)%bool
  end.

(** A percentage between 0 and 100: a finite number that stands for a
    rational in that range. *)
Definition inRange (p : JsNumber.number) : Prop :=
  exists q, JsNumber.valueOf p = Some q /\ (0 <= q)%Q /\ (q <= 100)%Q.

End Props.

(* ================================================================== *)
(** * More sample values *)
(* ================================================================== *)

Module MoreSamples.

Import ProviderGrouping.

(** A model map of two models. *)
Definition two_models : list (string * ModelInfo) :=
  [ ("claude-3-7-sonnet",
     {| info_percentage := JsNumber.ofZ 80; info_resetTime := "" |});
    ("gemini-2.0-flash",
     {| info_percentage := JsNumber.ofZ 35; info_resetTime := "" |}) ].

(** Visibility settings that switch both off. *)
Definition both_hidden : list (string * bool) :=
  [ ("claude-3-7-sonnet", false); ("gemini-2.0-flash", false) ].

(** Every POST is answered 503. *)
Definition always_unavailable (_ : nat) (_ : GeminiClient.Request) : GeminiClient.Outcome :=
  GeminiClient.Failure
    (GeminiClient.AxiosError "Request failed with status code 503"
       (Some {| GeminiClient.status := 503;
                GeminiClient.data := GeminiClient.DataUndefined |})).

(** An account whose model map does not list its models provider by
    provider: 27.9, 60.5, 23.2 and 69.8 percent. *)
Definition mixed_account : CloudAccountList.CloudAccount :=
  {| CloudAccountList.quota_models :=
       Some [ ("gpt-4",
               {| info_percentage := JsNumber.ofDecimal 279 1; info_resetTime := "" |});
              ("claude-a",
               {| info_percentage := JsNumber.ofDecimal 605 1; info_resetTime := "" |});
              ("gemini-b",
               {| info_percentage := JsNumber.ofDecimal 232 1; info_resetTime := "" |});
              ("llama",
               {| info_percentage := JsNumber.ofDecimal 698 1; info_resetTime := "" |}) ] |}.

(** An account with the two models of [two_models]. *)
Definition two_model_account : CloudAccountList.CloudAccount :=
  {| CloudAccountList.quota_models := Some two_models |}.

(** Two account rows. *)
Definition two_accounts : list AccountSelection.AccountRow :=
  [{| AccountSelection.id := "a1" |}; {| AccountSelection.id := "a2" |}].

End MoreSamples.

(* ================================================================== *)
(** * Facts about the string primitives *)
(* ================================================================== *)

Module JsFacts.

Import Js.

Lemma startsWith_append (s p : string) :
  startsWith s p = true <-> exists rest, s = (p ++ rest)%string.
Proof.
  unfold startsWith. revert s.
  induction p as [|c p IH]; intros s; simpl.
  - split; [intros _; exists s; reflexivity|].
    intros _. destruct s; reflexivity.
  - destruct s as [|d s]; simpl.
    + split; [discriminate|]. intros [rest H]. discriminate.
    + destruct (ascii_dec c d) as [->|Hne].
      * rewrite IH. split; intros [rest H]; exists rest; congruence.
      * split; [discriminate|]. intros [rest H]. congruence.
Qed.

Lemma length_append (s1 s2 : string) :
  String.length (s1 ++ s2) = (String.length s1 + String.length s2)%nat.
Proof.
  induction s1 as [|c s1 IH]; simpl; [reflexivity|]. rewrite IH. reflexivity.
Qed.

End JsFacts.

(* ================================================================== *)
(** * Provider grouping: [detectProvider] and the account statistics *)
(* ================================================================== *)

Module ProviderGroupingFacts.

Import ProviderGrouping.

(** The loop returns the first prefix of the list that is not [others] and
    starts the model name, and [others] when there is none. *)
Lemma detectProvider_loop_first (prefixes : list string) (m : string) :
  (detectProvider_loop prefixes m = "others" /\
   forall p, In p prefixes -> p <> "others" -> Js.startsWith m p = false)
  \/
  (exists before after,
     prefixes = before ++ detectProvider_loop prefixes m :: after /\
     detectProvider_loop prefixes m <> "others" /\
     Js.startsWith m (detectProvider_loop prefixes m) = true /\
     forall p, In p before -> p <> "others" -> Js.startsWith m p = false).
Proof.
  induction prefixes as [|q rest IH]; simpl.
  - left. split; [reflexivity|]. intros p [].
  - destruct (String.eqb_spec q "others") as [Hq|Hq]; simpl.
    + destruct IH as [[Hr Hall]|(before & after & Heq & Hne & Hst & Hall)].
      * left. split; [exact Hr|].
        intros p [<-|Hin] Hp; [contradiction|auto].
      * right. exists (q :: before), after. repeat split; auto.
        { simpl. f_equal. exact Heq. }
        intros p [<-|Hin] Hp; [contradiction|auto].
    + destruct (Js.startsWith m q) eqn:Hsw.
      * right. exists [], rest. repeat split; auto. intros p [].
      * destruct IH as [[Hr Hall]|(before & after & Heq & Hne & Hst & Hall)].
        -- left. split; [exact Hr|].
           intros p [<-|Hin] Hp; auto.
        -- right. exists (q :: before), after. repeat split; auto.
           { simpl. f_equal. exact Heq. }
           intros p [<-|Hin] Hp; auto.
Qed.

(** C7.  [detectProvider] is defined on every model name: its result is
    ['claude-'] or ['gemini-'], then a string prefix of the name and the
    first registered prefix in declaration order that is one, or it is
    ['others'], and then no registered prefix starts the name. *)
Theorem detectProvider_first_registered_prefix (m : string) :
  (detectProvider m = "others" /\
   forall p, In p ["claude-"; "gemini-"] -> ~ exists rest, m = (p ++ rest)%string)
  \/
  (In (detectProvider m) ["claude-"; "gemini-"] /\
   (exists rest, m = (detectProvider m ++ rest)%string) /\
   exists before after,
     Object_keys PROVIDER_REGISTRY = before ++ detectProvider m :: after /\
     forall p, In p before -> ~ exists rest, m = (p ++ rest)%string).
Proof.
  unfold detectProvider.
  destruct (detectProvider_loop_first (Object_keys PROVIDER_REGISTRY) m)
    as [[Hr Hall]|(before & after & Heq & Hne & Hst & Hall)].
  - left. split; [exact Hr|].
    intros p Hin Hex. apply JsFacts.startsWith_append in Hex.
    assert (Hk : In p (Object_keys PROVIDER_REGISTRY)) by (simpl in *; tauto).
    assert (Hp : p <> "others")
      by (simpl in Hin; destruct Hin as [<-|[<-|[]]]; discriminate).
    rewrite (Hall p Hk Hp) in Hex. discriminate.
  - right.
    set (r := detectProvider_loop (Object_keys PROVIDER_REGISTRY) m) in *.
    assert (Hin : In r (Object_keys PROVIDER_REGISTRY)).
    { rewrite Heq. apply in_or_app. right. left. reflexivity. }
    assert (Hreg : In r ["claude-"; "gemini-"]).
    { simpl in Hin. simpl. destruct Hin as [H|[H|[H|[]]]]; auto;
        symmetry in H; contradiction. }
    split; [exact Hreg|]. split; [apply JsFacts.startsWith_append; exact Hst|].
    exists before, after. split; [exact Heq|].
    intros p Hp Hex. apply JsFacts.startsWith_append in Hex.
    rewrite Hall in Hex; [discriminate|exact Hp|].
    intros ->.
    (* [others] is the last key, so it cannot stand before [r] *)
    simpl in Heq.
    destruct before as [|b0 [|b1 [|b2 before]]]; simpl in *.
    + destruct Hp.
    + destruct Hp as [E|[]]. subst b0. inversion Heq.
    + destruct Hp as [E|[E|[]]]; subst; inversion Heq.
    + inversion Heq as [[E0 E1 E2 E3]]. destruct before; discriminate.
Qed.

End ProviderGroupingFacts.

(* ================================================================== *)
(** * Sums, means, rounding and comparisons of numbers *)
(* ================================================================== *)

Module NumberFacts.

Import ProviderGrouping JsNumber.

Lemma fold_add_map {A : Type} (f : A -> number) (l : list A) (a : number) :
  fold_left (fun sum x => add sum (f x)) l a = fold_left add (map f l) a.
Proof.
  revert a. induction l as [|x l IH]; intros a; simpl; [reflexivity|apply IH].
Qed.

(** The [reduce] of the code adds the percentages up in list order. *)
Lemma sumPercentage_sum (ms : list ModelQuota) :
  sumPercentage ms = Spec.sum (map percentage ms).
Proof. apply fold_add_map. Qed.

Lemma round1_roundedToOneDecimal (x : number) : round1 x = Spec.roundedToOneDecimal x.
Proof. reflexivity. Qed.

Lemma round1_zero : round1 zero = zero.
Proof. vm_compute. reflexivity. Qed.

(** Comparing the other way round gives the opposite answer. *)
Lemma SFcompare_antisym (x y : number) :
  SFcompare y x = option_map CompOpp (SFcompare x y).
Proof.
  destruct x as [sx|sx| |sx mx ex], y as [sy|sy| |sy my ey]; simpl;
    try reflexivity;
    try (destruct sx; reflexivity);
    try (destruct sy; reflexivity);
    try (destruct sx, sy; reflexivity).
  pose proof (Pos.compare_cont_antisym mx my Eq) as Hm. cbn [CompOpp] in Hm.
  destruct sx, sy; try reflexivity; rewrite (Z.compare_antisym ex ey);
    destruct (ex ?= ey); simpl; try reflexivity;
    rewrite <- Hm; try rewrite CompOpp_involutive; reflexivity.
Qed.

(** For numbers other than NaN, [x] not below [t] is [t <= x]. *)
Lemma not_ltb_leb (x t : number) :
  isNaN x = false -> isNaN t = false -> ltb x t = false -> leb t x = true.
Proof.
  unfold ltb, leb, SFltb, SFleb. rewrite (SFcompare_antisym x t).
  destruct x, t; try discriminate; simpl;
    try (destruct s; simpl; congruence);
    try (destruct s, s0; simpl; congruence);
    intros _ _;
    match goal with
    | |- context [match ?c with _ => _ end] => destruct c; simpl; congruence
    end.
Qed.

Lemma ltb_NaN (t : number) : ltb S754_nan t = false.
Proof. reflexivity. Qed.

End NumberFacts.

(* ================================================================== *)
(** * Provider grouping: no model is lost or duplicated *)
(* ================================================================== *)

Module VisibleModelsFacts.

Import ProviderGrouping.

Lemma Permutation_filter {A : Type} (f : A -> bool) (l1 l2 : list A) :
  Permutation l1 l2 -> Permutation (filter f l1) (filter f l2).
Proof.
  induction 1 as [|x l l' _ IH|x y l|l l' l'' _ IH1 _ IH2]; simpl.
  - constructor.
  - destruct (f x); [constructor|]; exact IH.
  - destruct (f x), (f y); try reflexivity. constructor.
  - etransitivity; eassumption.
Qed.

Lemma filter_concat {A : Type} (f : A -> bool) (ls : list (list A)) :
  flat_map (filter f) ls = filter f (List.concat ls).
Proof.
  induction ls as [|l ls IH]; simpl.
  - reflexivity.
  - rewrite IH, filter_app. reflexivity.
Qed.

Section Stats.

Variable Date_getTime : string -> option Z.
Variable Date_toISOString : Z -> string.

#[local] Abbreviation calculateProviderStats :=
  (calculateProviderStats Date_getTime Date_toISOString).
#[local] Abbreviation groupModelsByProvider :=
  (groupModelsByProvider Date_getTime Date_toISOString).

Lemma sort_insert_Permutation cmp (p : ProviderStats) (l : list ProviderStats) :
  Permutation (sort_insert cmp p l) (p :: l).
Proof.
  induction l as [|q l IH]; simpl.
  - reflexivity.
  - destruct (cmp p q <=? 0)%Z.
    + reflexivity.
    + rewrite IH. apply perm_swap.
Qed.

Lemma Array_sort_Permutation cmp (l : list ProviderStats) :
  Permutation (Array_sort cmp l) l.
Proof.
  induction l as [|p l IH]; simpl.
  - reflexivity.
  - rewrite sort_insert_Permutation. constructor. exact IH.
Qed.

Lemma grouped_push_concat grouped key q :
  Permutation (List.concat (map snd (grouped_push grouped key q)))
              (List.concat (map snd grouped) ++ [q]).
Proof.
  induction grouped as [|[k ms] rest IH]; simpl.
  - reflexivity.
  - destruct (String.eqb k key); simpl.
    + rewrite <- !app_assoc. apply Permutation_app_head.
      apply Permutation_app_comm.
    + rewrite IH, app_assoc. reflexivity.
Qed.

Lemma groupEntries_from entries grouped :
  Permutation
    (List.concat (map snd
       (fold_left
          (fun grouped e => grouped_push grouped (detectProvider (fst e)) (toQuota e))
          entries grouped)))
    (List.concat (map snd grouped) ++ map toQuota entries).
Proof.
  revert grouped. induction entries as [|e entries IH]; intros grouped; simpl.
  - rewrite app_nil_r. reflexivity.
  - rewrite IH, grouped_push_concat, <- app_assoc. reflexivity.
Qed.

(** Grouping loses and duplicates no model. *)
Lemma groupEntries_Permutation entries :
  Permutation (List.concat (map snd (groupEntries entries))) (map toQuota entries).
Proof.
  unfold groupEntries. exact (groupEntries_from entries []).
Qed.

Lemma visibleModels_calculateProviderStats key ms vis :
  visibleModels (calculateProviderStats key ms vis)
  = filter (fun m => isVisible vis (id m)) ms.
Proof.
  unfold ProviderGrouping.calculateProviderStats.
  destruct (filter (fun m => isVisible vis (id m)) ms) eqn:E; reflexivity.
Qed.

Lemma visibleModels_of_groups (grouped : list (ProviderKey * list ModelQuota)) vis :
  flat_map visibleModels
    (map (fun g => calculateProviderStats (fst g) (snd g) vis) grouped)
  = filter (fun m => isVisible vis (id m)) (List.concat (map snd grouped)).
Proof.
  induction grouped as [|g grouped IH]; simpl.
  - reflexivity.
  - rewrite IH, visibleModels_calculateProviderStats, filter_app. reflexivity.
Qed.

(** The visible models of all groups together are the visible models of
    the model map. *)
Lemma allVisibleModels_Permutation entries vis :
  Permutation
    (map percentage (flat_map visibleModels (providers (groupModelsByProvider entries vis))))
    (Spec.visiblePercentages entries vis).
Proof.
  unfold ProviderGrouping.groupModelsByProvider; cbn [providers].
  rewrite (Permutation_flat_map _ (Array_sort_Permutation _ _)).
  rewrite visibleModels_of_groups.
  rewrite (Permutation_filter _ _ _ (groupEntries_Permutation entries)).
  unfold Spec.visiblePercentages.
  clear. induction entries as [|e entries IH]; simpl.
  - reflexivity.
  - destruct (isVisible vis (fst e)); simpl; [constructor|]; exact IH.
Qed.

End Stats.

End VisibleModelsFacts.

(* ================================================================== *)
(** * Provider grouping: the groups of an account *)
(* ================================================================== *)

Module ProviderGroupsFacts.

Import ProviderGrouping.

Lemma detectProvider_cases (m : string) :
  detectProvider m = "claude-" \/ detectProvider m = "gemini-" \/
  detectProvider m = "others".
Proof.
  unfold detectProvider. cbn.
  destruct (Js.startsWith m "claude-"); [auto|].
  destruct (Js.startsWith m "gemini-"); auto.
Qed.

(** X1.  [getProviderInfo] never comes back empty-handed: the key that
    [detectProvider] returns is a key of the registry, and a model that no
    prefix matches gets the entry of [others]. *)
Theorem getProviderInfo_defined (m : string) :
  exists info,
    getProviderInfo m = Some info /\
    In (detectProvider m, info) PROVIDER_REGISTRY /\
    (detectProvider m = "others" -> name info = "Other" /\ company info = "Various").
Proof.
  unfold getProviderInfo.
  destruct (detectProvider_cases m) as [E|[E|E]]; rewrite E; eexists;
    (split; [reflexivity|]); (split; [simpl; tauto|]);
    intros H; try discriminate H; split; reflexivity.
Qed.

Section Stats.

Variable Date_getTime : string -> option Z.
Variable Date_toISOString : Z -> string.

#[local] Abbreviation calculateProviderStats :=
  (calculateProviderStats Date_getTime Date_toISOString).
#[local] Abbreviation groupModelsByProvider :=
  (groupModelsByProvider Date_getTime Date_toISOString).
#[local] Abbreviation resetTimesOf := (resetTimesOf Date_getTime).

Lemma calculateProviderStats_fields key ms vis :
  providerKey (calculateProviderStats key ms vis) = key /\
  models (calculateProviderStats key ms vis) = ms /\
  providerInfo (calculateProviderStats key ms vis) = Js.lookup PROVIDER_REGISTRY key.
Proof.
  unfold ProviderGrouping.calculateProviderStats.
  destruct (List.length _ =? 0)%nat; repeat split.
Qed.

Lemma calculateProviderStats_summary key (ms : list ModelQuota) vis :
  let p := calculateProviderStats key ms vis in
  let visible := filter (fun m => isVisible vis (id m)) ms in
  models p = ms /\
  visibleModels p = visible /\
  match map percentage visible with
  | [] => avgPercentage p = JsNumber.zero /\ earliestReset p = None
  | ps => avgPercentage p = Spec.roundedToOneDecimal (Spec.mean ps)
  end.
Proof.
  intros p visible. subst p.
  split; [apply calculateProviderStats_fields|].
  split; [apply VisibleModelsFacts.visibleModels_calculateProviderStats|].
  unfold ProviderGrouping.calculateProviderStats. fold visible.
  destruct visible as [|m rest] eqn:E.
  - simpl. split; reflexivity.
  - cbn [List.length Nat.eqb avgPercentage map].
    change (percentage m :: map percentage rest) with (map percentage (m :: rest)).
    rewrite NumberFacts.sumPercentage_sum, NumberFacts.round1_roundedToOneDecimal.
    unfold Spec.mean. rewrite length_map. reflexivity.
Qed.


Lemma resetTimesOf_In (ms : list ModelQuota) (x : Z) :
  In x (resetTimesOf ms) <->
  exists m, In m ms /\ resetTime m <> "" /\ Date_getTime (resetTime m) = Some x.
Proof.
  induction ms as [|m ms IH]; simpl.
  - split; [intros []|intros (m & [] & _)].
  - unfold Js.truthy. destruct (String.eqb_spec (resetTime m) "") as [E|N]; simpl.
    + rewrite IH. split.
      * intros (m' & Hin & H). exists m'. split; [right; exact Hin|exact H].
      * intros (m' & [<-|Hin] & Hne & H); [contradiction|]. exists m'. auto.
    + destruct (Date_getTime (resetTime m)) as [tm|] eqn:Ed.
      * simpl. rewrite IH. split.
        -- intros [<-|(m' & Hin & H)].
           ++ exists m. auto.
           ++ exists m'. split; [right; exact Hin|exact H].
        -- intros (m' & [<-|Hin] & Hne & H).
           ++ left. congruence.
           ++ right. exists m'. auto.
      * rewrite IH. split.
        -- intros (m' & Hin & H). exists m'. split; [right; exact Hin|exact H].
        -- intros (m' & [<-|Hin] & Hne & H); [congruence|]. exists m'. auto.
Qed.

Lemma Math_min_least (x : Z) (xs : list Z) :
  In (Math_min x xs) (x :: xs) /\ forall y, In y (x :: xs) -> (Math_min x xs <= y)%Z.
Proof.
  unfold Math_min. revert x. induction xs as [|z xs IH]; intros x; simpl.
  - split; [auto|]. intros y [<-|[]]. lia.
  - destruct (IH (Z.min x z)) as [Hin Hle]. split.
    + destruct Hin as [H|H]; [|auto].
      rewrite <- H. destruct (Z.min_spec x z) as [[_ ->]|[_ ->]]; auto.
    + intros y [<-|[<-|Hy]].
      * specialize (Hle (Z.min x z) (or_introl eq_refl)). lia.
      * specialize (Hle (Z.min x z) (or_introl eq_refl)). lia.
      * apply Hle. right. exact Hy.
Qed.

(** X3.  [earliestReset] is missing exactly when no visible model has a reset
    time that is set and parses; otherwise it is the ISO form of the reset
    instant of some visible model, and no visible model resets earlier. *)
Theorem earliestReset_is_minimum key (ms : list ModelQuota) vis :
  let p := calculateProviderStats key ms vis in
  let timed (m : ModelQuota) (x : Z) :=
    In m ms /\ isVisible vis (id m) = true /\
    resetTime m <> "" /\ Date_getTime (resetTime m) = Some x in
  match earliestReset p with
  | None => forall m x, ~ timed m x
  | Some iso =>
      exists m x,
        timed m x /\ iso = Date_toISOString x /\
        forall m' x', timed m' x' -> (x <= x')%Z
  end.
Proof.
  intros p timed. subst p.
  assert (T : forall m x,
             timed m x <->
             In m (filter (fun m => isVisible vis (id m)) ms) /\
             resetTime m <> "" /\ Date_getTime (resetTime m) = Some x).
  { intros m x. unfold timed. rewrite filter_In. tauto. }
  unfold ProviderGrouping.calculateProviderStats.
  set (visible := filter (fun m => isVisible vis (id m)) ms) in *.
  destruct visible as [|v rest] eqn:E.
  - simpl. intros m x H. apply T in H. destruct H as [[] _].
  - cbn [List.length Nat.eqb earliestReset].
    destruct (resetTimesOf (v :: rest)) as [|x0 xs] eqn:Et.
    + intros m x H. apply T in H. destruct H as (Hin & Hne & Hd).
      assert (Hx : In x (resetTimesOf (v :: rest)))
        by (apply resetTimesOf_In; exists m; auto).
      rewrite Et in Hx. destruct Hx.
    + destruct (Math_min_least x0 xs) as [Hin Hle].
      rewrite <- Et in Hin, Hle.
      apply resetTimesOf_In in Hin. destruct Hin as (m & Hm & Hne & Hd).
      exists m, (Math_min x0 xs). split; [apply T; auto|]. split; [reflexivity|].
      intros m' x' H'. apply T in H'. destruct H' as (Hm' & Hne' & Hd').
      apply Hle. apply resetTimesOf_In. exists m'. auto.
Qed.

End Stats.

End ProviderGroupsFacts.

Module GroupingFacts.

Import ProviderGrouping.

Import Props.

Lemma grouped_push_keys g k q :
  map fst (grouped_push g k q)
  = if existsb (String.eqb k) (map fst g) then map fst g else map fst g ++ [k].
Proof.
  induction g as [|[k' ms] g IH]; simpl; [reflexivity|].
  rewrite (String.eqb_sym k k').
  destruct (String.eqb k' k); simpl; [reflexivity|].
  rewrite IH. destruct (existsb _ _); reflexivity.
Qed.

Lemma grouped_push_In g k q k' ms' :
  NoDup (map fst g) ->
  In (k', ms') (grouped_push g k q) ->
  (k' <> k /\ In (k', ms') g) \/
  (k' = k /\ ((exists ms, In (k, ms) g /\ ms' = ms ++ [q]) \/
              (~ In k (map fst g) /\ ms' = [q]))).
Proof.
  induction g as [|[k0 ms0] g IH]; simpl; intros Hnd Hin.
  - destruct Hin as [H|[]]. inversion H; subst. right. split; [reflexivity|].
    right. split; [tauto|reflexivity].
  - inversion Hnd as [|? ? Hnotin Hnd']; subst.
    destruct (String.eqb_spec k0 k) as [->|Hne]; simpl in Hin.
    + destruct Hin as [H|H].
      * inversion H; subst. right. split; [reflexivity|]. left. exists ms0. auto.
      * left. split; [|auto]. intros ->. apply Hnotin.
        change k with (fst (k, ms')). apply in_map. exact H.
    + destruct Hin as [H|H].
      * inversion H; subst. left. auto.
      * destruct (IH Hnd' H) as [[Hk Hg]|[-> [(ms & Hg & ->)|[Hn ->]]]].
        -- left. auto.
        -- right. split; [reflexivity|]. left. exists ms. auto.
        -- right. split; [reflexivity|]. right. split; [|reflexivity].
           intros [E|E]; [congruence|contradiction].
Qed.

Lemma existsb_eqb_In (k : string) (l : list string) :
  existsb (String.eqb k) l = true <-> In k l.
Proof.
  rewrite existsb_exists. split.
  - intros (x & Hin & E). apply String.eqb_eq in E. subst. exact Hin.
  - intros H. exists k. split; [exact H|apply String.eqb_refl].
Qed.

Lemma filter_none {A : Type} (f : A -> bool) (l : list A) :
  (forall x, In x l -> f x = false) -> filter f l = [].
Proof.
  induction l as [|x l IH]; intros H; simpl; [reflexivity|].
  rewrite (H x (or_introl eq_refl)). apply IH. intros y Hy. apply H. right. exact Hy.
Qed.

Lemma modelsOf_app k qs1 qs2 : modelsOf k (qs1 ++ qs2) = modelsOf k qs1 ++ modelsOf k qs2.
Proof. apply filter_app. Qed.

Lemma Grouped_push g done q :
  Grouped g done -> Grouped (grouped_push g (keyOf q) q) (done ++ [q]).
Proof.
  intros (Hnd & Hgroups & Hcover).
  assert (Hkeys := grouped_push_keys g (keyOf q) q).
  split; [|split].
  - rewrite Hkeys. destruct (existsb _ _) eqn:E; [exact Hnd|].
    apply NoDup_app; [exact Hnd|constructor; [intros []|constructor]|].
    intros x Hx [<-|[]]. apply existsb_eqb_In in Hx. congruence.
  - intros k ms Hin. rewrite modelsOf_app.
    destruct (grouped_push_In _ _ _ _ _ Hnd Hin)
      as [[Hk Hg]|[-> [(ms0 & Hg & ->)|[Hn ->]]]].
    + destruct (Hgroups _ _ Hg) as [-> Hne]. split; [|exact Hne].
      unfold modelsOf at 3. simpl.
      destruct (String.eqb_spec (keyOf q) k); [congruence|].
      rewrite app_nil_r. reflexivity.
    + destruct (Hgroups _ _ Hg) as [-> Hne].
      unfold modelsOf at 3. simpl. rewrite String.eqb_refl.
      split; [reflexivity|]. intros H. apply app_eq_nil in H. destruct H; discriminate.
    + unfold modelsOf at 2. simpl. rewrite String.eqb_refl.
      split; [|discriminate].
      assert (E : modelsOf (keyOf q) done = []).
      { unfold modelsOf. apply filter_none.
        intros q' Hq'. apply String.eqb_neq. intros Heq. apply Hn.
        rewrite <- Heq. apply Hcover. exact Hq'. }
      rewrite E. reflexivity.
  - intros q' Hq'. rewrite Hkeys. apply in_app_or in Hq'.
    destruct (existsb _ _) eqn:E.
    + destruct Hq' as [H|[<-|[]]]; [auto|]. apply existsb_eqb_In. exact E.
    + apply in_or_app. destruct Hq' as [H|[<-|[]]]; [left; auto|right; left; reflexivity].
Qed.

Lemma Grouped_fold (es : list (string * ModelInfo)) :
  forall g done,
    Grouped g done ->
    Grouped
      (fold_left
         (fun grouped e => grouped_push grouped (detectProvider (fst e)) (toQuota e))
         es g)
      (done ++ map toQuota es).
Proof.
  induction es as [|e es IH]; intros g done H; simpl.
  - rewrite app_nil_r. exact H.
  - replace (done ++ toQuota e :: map toQuota es)
      with ((done ++ [toQuota e]) ++ map toQuota es)
      by (rewrite <- app_assoc; reflexivity).
    apply IH. exact (Grouped_push g done (toQuota e) H).
Qed.

(** The first loop of [groupModelsByProvider] sorts every model into the
    group of its provider. *)
Lemma groupEntries_Grouped (entries : list (string * ModelInfo)) :
  Grouped (groupEntries entries) (map toQuota entries).
Proof.
  apply (Grouped_fold entries [] []).
  split; [constructor|]. split; [intros k ms []|intros q []].
Qed.

End GroupingFacts.

Module AccountGroupsFacts.

Import ProviderGrouping Props.

Lemma compareProviders_le (a b : ProviderStats) :
  (compareProviders a b <=? 0) = true <-> leIndex a b.
Proof.
  unfold compareProviders, leIndex, registryIndex. rewrite Z.leb_le. lia.
Qed.

Lemma Forall_Permutation {A : Type} (P : A -> Prop) (l1 l2 : list A) :
  Permutation l1 l2 -> Forall P l1 -> Forall P l2.
Proof.
  intros HP HF. rewrite Forall_forall in *. intros x Hx.
  apply HF. apply (Permutation_in _ (Permutation_sym HP)). exact Hx.
Qed.

Lemma sort_insert_sorted (p : ProviderStats) (l : list ProviderStats) :
  StronglySorted leIndex l ->
  StronglySorted leIndex (sort_insert compareProviders p l).
Proof.
  induction 1 as [|q l Hs IH Hall]; simpl.
  - constructor; constructor.
  - destruct (compareProviders p q <=? 0) eqn:E.
    + apply compareProviders_le in E. constructor.
      * constructor; assumption.
      * constructor; [exact E|].
        eapply Forall_impl; [|exact Hall]. unfold leIndex in *. intros x Hx. lia.
    + assert (Hqp : leIndex q p).
      { destruct (Z.leb_spec (compareProviders p q) 0) as [|H]; [discriminate|].
        unfold compareProviders in H. unfold leIndex, registryIndex. lia. }
      constructor; [exact IH|].
      apply (Forall_Permutation _ (p :: l)).
      * symmetry. apply VisibleModelsFacts.sort_insert_Permutation.
      * constructor; assumption.
Qed.

Lemma Array_sort_sorted (l : list ProviderStats) :
  StronglySorted leIndex (Array_sort compareProviders l).
Proof.
  induction l as [|p l IH]; simpl; [constructor|].
  apply sort_insert_sorted. exact IH.
Qed.

Lemma registryIndex_injective (a b : ProviderKey) :
  In a (Object_keys PROVIDER_REGISTRY) -> In b (Object_keys PROVIDER_REGISTRY) ->
  registryIndex a = registryIndex b -> a = b.
Proof.
  simpl. intros [<-|[<-|[<-|[]]]] [<-|[<-|[<-|[]]]]; vm_compute; congruence.
Qed.

(** A list of registry keys without repetition that is sorted by index is
    strictly sorted. *)
Lemma sorted_keys_strict (ks : list ProviderKey) :
  NoDup ks ->
  (forall k, In k ks -> In k (Object_keys PROVIDER_REGISTRY)) ->
  StronglySorted (fun a b => registryIndex a <= registryIndex b) ks ->
  StronglySorted (fun a b => registryIndex a < registryIndex b) ks.
Proof.
  induction 3 as [|k ks Hs IH Hall]; [constructor|].
  inversion H as [|? ? Hnotin Hnd]; subst.
  constructor.
  - apply IH; [exact Hnd|]. intros k' Hk'. apply H0. right. exact Hk'.
  - rewrite Forall_forall in *. intros x Hx.
    specialize (Hall x Hx).
    destruct (Z.eq_dec (registryIndex k) (registryIndex x)) as [E|N]; [|lia].
    exfalso. apply Hnotin.
    rewrite (registryIndex_injective k x); auto.
    + apply H0. left. reflexivity.
    + apply H0. right. exact Hx.
Qed.

Lemma StronglySorted_map {A B : Type} (f : A -> B) (R : B -> B -> Prop) (l : list A) :
  StronglySorted (fun a b => R (f a) (f b)) l -> StronglySorted R (map f l).
Proof.
  induction 1 as [|a l Hs IH Hall]; simpl; constructor; [exact IH|].
  rewrite Forall_forall in *. intros y Hy. apply in_map_iff in Hy.
  destruct Hy as (x & <- & Hx). apply Hall. exact Hx.
Qed.

Section Stats.

Variable Date_getTime : string -> option Z.
Variable Date_toISOString : Z -> string.

#[local] Abbreviation calculateProviderStats :=
  (calculateProviderStats Date_getTime Date_toISOString).
#[local] Abbreviation groupModelsByProvider :=
  (groupModelsByProvider Date_getTime Date_toISOString).

Lemma providers_unfold entries vis :
  providers (groupModelsByProvider entries vis)
  = Array_sort compareProviders
      (map (fun g => calculateProviderStats (fst g) (snd g) vis) (groupEntries entries)).
Proof. reflexivity. Qed.

(** Every group of the result comes from a group of the first loop. *)
Lemma providers_In entries vis (p : ProviderStats) :
  In p (providers (groupModelsByProvider entries vis)) <->
  exists k ms, In (k, ms) (groupEntries entries) /\ p = calculateProviderStats k ms vis.
Proof.
  rewrite providers_unfold. split.
  - intros H. apply (Permutation_in _ (VisibleModelsFacts.Array_sort_Permutation _ _)) in H.
    apply in_map_iff in H. destruct H as ([k ms] & <- & Hin). exists k, ms. auto.
  - intros (k & ms & Hin & ->).
    apply (Permutation_in _ (Permutation_sym (VisibleModelsFacts.Array_sort_Permutation _ _))).
    apply in_map_iff. exists (k, ms). auto.
Qed.

Lemma providers_keys entries vis :
  Permutation (map providerKey (providers (groupModelsByProvider entries vis)))
              (map fst (groupEntries entries)).
Proof.
  rewrite providers_unfold.
  rewrite (Permutation_map providerKey (VisibleModelsFacts.Array_sort_Permutation _ _)).
  rewrite map_map.
  erewrite map_ext; [reflexivity|].
  intros [k ms]. apply ProviderGroupsFacts.calculateProviderStats_fields.
Qed.

Lemma providers_partition
    (entries : list (string * ModelInfo)) (vis : list (string * bool)) :
  let stats := groupModelsByProvider entries vis in
  (forall p, In p (providers stats) ->
     models p = modelsOf (providerKey p) (map toQuota entries) /\
     models p <> [] /\
     visibleModels p = filter (fun m => isVisible vis (id m)) (models p)) /\
  (forall e, In e entries ->
     exists p, In p (providers stats) /\ providerKey p = detectProvider (fst e) /\
               In (toQuota e) (models p)).
Proof.
  intros stats. subst stats.
  destruct (GroupingFacts.groupEntries_Grouped entries) as (Hnd & Hgroups & Hcover).
  split.
  - intros p Hp. apply providers_In in Hp. destruct Hp as (k & ms & Hin & ->).
    destruct (ProviderGroupsFacts.calculateProviderStats_fields Date_getTime
                Date_toISOString k ms vis) as (-> & -> & _).
    destruct (Hgroups k ms Hin) as [E Hne].
    split; [exact E|]. split; [exact Hne|].
    apply VisibleModelsFacts.visibleModels_calculateProviderStats.
  - intros e He.
    assert (Hq : In (toQuota e) (map toQuota entries)) by (apply in_map; exact He).
    specialize (Hcover _ Hq). apply in_map_iff in Hcover.
    destruct Hcover as ([k ms] & Hk & Hin). simpl in Hk.
    exists (calculateProviderStats k ms vis).
    destruct (ProviderGroupsFacts.calculateProviderStats_fields Date_getTime
                Date_toISOString k ms vis) as (Ek & Em & _).
    split; [apply providers_In; exists k, ms; auto|].
    rewrite Ek, Em. split; [exact Hk|].
    destruct (Hgroups k ms Hin) as [-> _].
    unfold modelsOf. apply filter_In. split; [exact Hq|].
    rewrite Hk. apply String.eqb_refl.
Qed.

(** X4.  Each provider group holds exactly the models of its provider, in the
    order of the model map, and at least one; its visible models are those
    among them that are not switched off; and every model of the map has
    its group, under the key [detectProvider] gives it. *)
Theorem groups_partition_models_by_provider
    (entries : list (string * ModelInfo)) (vis : list (string * bool)) :
  let stats := groupModelsByProvider entries vis in
  (forall p, In p (providers stats) ->
     models p = modelsOf (providerKey p) (map toQuota entries) /\
     models p <> [] /\
     visibleModels p = filter (fun m => isVisible vis (id m)) (models p)) /\
  (forall e, In e entries ->
     exists p, In p (providers stats) /\ providerKey p = detectProvider (fst e) /\
               In (toQuota e) (models p)).
Proof. exact (providers_partition entries vis). Qed.

Lemma provider_keys_order
    (entries : list (string * ModelInfo)) (vis : list (string * bool)) :
  let keys := map providerKey (providers (groupModelsByProvider entries vis)) in
  StronglySorted (fun a b => registryIndex a < registryIndex b) keys /\
  forall k, In k keys <-> exists e, In e entries /\ detectProvider (fst e) = k.
Proof.
  intros keys.
  destruct (GroupingFacts.groupEntries_Grouped entries) as (Hnd & Hgroups & Hcover).
  pose proof (providers_keys entries vis) as HP. fold keys in HP.
  assert (Hmem : forall k, In k keys <-> exists e, In e entries /\ detectProvider (fst e) = k).
  { intros k. split.
    - intros Hk. apply (Permutation_in _ HP) in Hk. apply in_map_iff in Hk.
      destruct Hk as ([k' ms] & Ek & Hin). simpl in Ek. subst k'.
      destruct (Hgroups k ms Hin) as [E Hne].
      destruct ms as [|q ms]; [contradiction|].
      assert (Hq : In q (modelsOf k (map toQuota entries)))
        by (rewrite <- E; left; reflexivity).
      unfold modelsOf in Hq. apply filter_In in Hq. destruct Hq as [Hq Hkq].
      apply in_map_iff in Hq. destruct Hq as (e & <- & He).
      exists e. split; [exact He|]. apply String.eqb_eq in Hkq. exact Hkq.
    - intros (e & He & <-).
      apply (Permutation_in _ (Permutation_sym HP)).
      apply (Hcover (toQuota e)). apply in_map. exact He. }
  split; [|exact Hmem].
  apply sorted_keys_strict.
  - apply (Permutation_NoDup (Permutation_sym HP)). exact Hnd.
  - intros k Hk. apply Hmem in Hk. destruct Hk as (e & _ & <-).
    destruct (ProviderGroupsFacts.detectProvider_cases (fst e)) as [E|[E|E]];
      rewrite E; simpl; tauto.
  - subst keys. apply StronglySorted_map. rewrite providers_unfold.
    apply Array_sort_sorted.
Qed.

(** X5.  The groups come in registry order, each provider at most once:
    [claude-] before [gemini-] before [others]; and a provider has a group
    exactly when the model map has a model of it. *)
Theorem groups_in_registry_order
    (entries : list (string * ModelInfo)) (vis : list (string * bool)) :
  let keys := map providerKey (providers (groupModelsByProvider entries vis)) in
  StronglySorted (fun a b => registryIndex a < registryIndex b) keys /\
  forall k, In k keys <-> exists e, In e entries /\ detectProvider (fst e) = k.
Proof. exact (provider_keys_order entries vis). Qed.

(** Two lists that are strictly sorted by the same measure and have the
    same elements are the same list. *)
Lemma sorted_unique {A : Type} (f : A -> Z) (l1 l2 : list A) :
  StronglySorted (fun a b => f a < f b) l1 ->
  StronglySorted (fun a b => f a < f b) l2 ->
  (forall x, In x l1 <-> In x l2) ->
  l1 = l2.
Proof.
  intros H1. revert l2. induction H1 as [|a l1 Hs1 IH Ha]; intros l2 H2 Hmem.
  - destruct l2 as [|b l2]; [reflexivity|].
    destruct (proj2 (Hmem b) (or_introl eq_refl)).
  - destruct H2 as [|b l2 Hs2 Hb].
    + destruct (proj1 (Hmem a) (or_introl eq_refl)).
    + rewrite Forall_forall in Ha, Hb.
      assert (E : a = b).
      { destruct (proj1 (Hmem a) (or_introl eq_refl)) as [E|Hin]; [auto|].
        destruct (proj2 (Hmem b) (or_introl eq_refl)) as [E|Hin']; [auto|].
        specialize (Ha _ Hin'). specialize (Hb _ Hin). lia. }
      subst b. f_equal. apply IH; [exact Hs2|].
      intros x. split; intros Hx.
      * destruct (proj1 (Hmem x) (or_intror Hx)) as [E|Hin]; [|exact Hin].
        subst x. specialize (Ha _ Hx). lia.
      * destruct (proj2 (Hmem x) (or_intror Hx)) as [E|Hin]; [|exact Hin].
        subst x. specialize (Hb _ Hx). lia.
Qed.

Lemma StronglySorted_filter {A : Type} (R : A -> A -> Prop) (f : A -> bool) (l : list A) :
  StronglySorted R l -> StronglySorted R (filter f l).
Proof.
  induction 1 as [|a l Hs IH Ha]; simpl; [constructor|].
  destruct (f a); [|exact IH]. constructor; [exact IH|].
  rewrite Forall_forall in *. intros x Hx. apply filter_In in Hx. apply Ha. apply Hx.
Qed.

Lemma flat_map_filter_nil {A B : Type} (g : A -> list B) (f : A -> bool) (l : list A) :
  (forall x, In x l -> f x = false -> g x = []) ->
  flat_map g (filter f l) = flat_map g l.
Proof.
  induction l as [|x l IH]; intros H; simpl; [reflexivity|].
  destruct (f x) eqn:E; simpl.
  - rewrite IH; [reflexivity|]. intros y Hy. apply H. right. exact Hy.
  - rewrite (H x (or_introl eq_refl) E), IH; [reflexivity|].
    intros y Hy. apply H. right. exact Hy.
Qed.

Lemma flat_map_ext_In {A B : Type} (f g : A -> list B) (l : list A) :
  (forall x, In x l -> f x = g x) -> flat_map f l = flat_map g l.
Proof.
  induction l as [|x l IH]; intros H; simpl; [reflexivity|].
  rewrite (H x (or_introl eq_refl)), IH; [reflexivity|].
  intros y Hy. apply H. right. exact Hy.
Qed.

Lemma map_flat_map {A B C : Type} (f : B -> C) (g : A -> list B) (l : list A) :
  map f (flat_map g l) = flat_map (fun x => map f (g x)) l.
Proof.
  induction l as [|x l IH]; simpl; [reflexivity|].
  rewrite map_app, IH. reflexivity.
Qed.

Lemma flat_map_of_map {A B C : Type} (f : A -> B) (g : B -> list C) (l : list A) :
  flat_map g (map f l) = flat_map (fun x => g (f x)) l.
Proof.
  induction l as [|x l IH]; simpl; [reflexivity|]. rewrite IH. reflexivity.
Qed.

(** The visible percentages of the models of one provider, read off a
    provider group and read off the model map. *)
Lemma visible_of_group (entries : list (string * ModelInfo)) vis (k : ProviderKey) :
  map percentage
    (filter (fun m => isVisible vis (id m)) (modelsOf k (map toQuota entries)))
  = Spec.visiblePercentages
      (filter (fun e => String.eqb (detectProvider (fst e)) k) entries) vis.
Proof.
  unfold Spec.visiblePercentages, modelsOf, keyOf.
  induction entries as [|e entries IH]; simpl; [reflexivity|].
  destruct (String.eqb (detectProvider (fst e)) k); simpl; [|exact IH].
  destruct (isVisible vis (fst e)); simpl; [rewrite IH; reflexivity|exact IH].
Qed.

(** The visible models of the groups, taken group by group as
    [flatMap] does, are the visible models of the map listed provider by
    provider in the order of the registry. *)
Lemma allVisibleModels_by_group
    (entries : list (string * ModelInfo)) (vis : list (string * bool)) :
  map percentage
    (flat_map visibleModels (providers (groupModelsByProvider entries vis)))
  = Spec.visibleByGroup entries vis.
Proof.
  set (P := providers (groupModelsByProvider entries vis)).
  set (G := fun k : ProviderKey =>
              Spec.visiblePercentages
                (filter (fun e => String.eqb (detectProvider (fst e)) k) entries) vis).
  set (present := fun k : ProviderKey =>
                    existsb (fun e => String.eqb (detectProvider (fst e)) k) entries).
  destruct (providers_partition entries vis) as [Hparts _].
  destruct (provider_keys_order entries vis) as [Hsorted Hmem].
  cbv zeta in Hparts, Hsorted, Hmem. fold P in Hparts, Hsorted, Hmem.
  rewrite map_flat_map.
  rewrite (flat_map_ext_In _ (fun p => G (providerKey p))).
  2:{ intros p Hp. destruct (Hparts p Hp) as (Em & _ & Ev).
      rewrite Ev, Em. apply visible_of_group. }
  rewrite <- (flat_map_of_map providerKey G).
  assert (Ekeys : map providerKey P = filter present (Object_keys PROVIDER_REGISTRY)).
  { apply (sorted_unique registryIndex); [exact Hsorted| |].
    - apply StronglySorted_filter. vm_compute.
      repeat (constructor; [|repeat constructor; lia]). constructor.
    - intros k. rewrite Hmem, filter_In. unfold present. rewrite existsb_exists.
      split.
      + intros (e & He & <-). split.
        * destruct (ProviderGroupsFacts.detectProvider_cases (fst e)) as [E|[E|E]];
            rewrite E; simpl; tauto.
        * exists e. split; [exact He|apply String.eqb_refl].
      + intros (_ & e & He & E). apply String.eqb_eq in E. exists e. auto. }
  rewrite Ekeys. unfold Spec.visibleByGroup. fold G.
  apply flat_map_filter_nil.
  intros k _ Hk. unfold G, Spec.visiblePercentages, present in *.
  rewrite (GroupingFacts.filter_none (fun e => String.eqb (detectProvider (fst e)) k) entries);
    [reflexivity|].
  intros e He. destruct (String.eqb (detectProvider (fst e)) k) eqn:E; [|reflexivity].
  assert (Hex : existsb (fun e => String.eqb (detectProvider (fst e)) k) entries = true)
    by (apply existsb_exists; exists e; auto).
  congruence.
Qed.

End Stats.

End AccountGroupsFacts.

(* ================================================================== *)
(** * Provider grouping: the overall percentage and the health status *)
(* ================================================================== *)

Module AccountStatsFacts.

Import ProviderGrouping.

Section Stats.

Variable Date_getTime : string -> option Z.
Variable Date_toISOString : Z -> string.

#[local] Abbreviation calculateProviderStats :=
  (calculateProviderStats Date_getTime Date_toISOString).
#[local] Abbreviation groupModelsByProvider :=
  (groupModelsByProvider Date_getTime Date_toISOString).

(** The mean that [groupModelsByProvider] thresholds and rounds is the mean
    of the visible percentages listed group by group, and 0 when there are
    none. *)
Lemma overall_unrounded entries vis :
  overallMean (flat_map visibleModels (providers (groupModelsByProvider entries vis)))
  = match Spec.visibleByGroup entries vis with
    | [] => JsNumber.zero
    | ps => Spec.mean ps
    end.
Proof.
  rewrite <- (AccountGroupsFacts.allVisibleModels_by_group Date_getTime Date_toISOString).
  set (all := flat_map visibleModels (providers (groupModelsByProvider entries vis))).
  unfold overallMean. rewrite NumberFacts.sumPercentage_sum.
  destruct all as [|m all]; [reflexivity|].
  cbn [List.length Nat.ltb Nat.leb map].
  change (percentage m :: map percentage all) with (map percentage (m :: all)).
  unfold Spec.mean. rewrite length_map. reflexivity.
Qed.

Lemma overallPercentage_unfold entries vis :
  overallPercentage (groupModelsByProvider entries vis)
  = round1 (overallMean
      (flat_map visibleModels (providers (groupModelsByProvider entries vis)))).
Proof. reflexivity. Qed.

Lemma healthStatus_unfold entries vis :
  healthStatus (groupModelsByProvider entries vis)
  = healthOf (overallMean
      (flat_map visibleModels (providers (groupModelsByProvider entries vis)))).
Proof. reflexivity. Qed.

(** The tests of the code against 10, 25 and 50 are the thresholds of the
    specification; NaN, which is below nothing, comes out healthy. *)
Lemma healthOf_healthFor (x : JsNumber.number) :
  Spec.healthFor x (healthOf x) \/ (JsNumber.isNaN x = true /\ healthOf x = healthy).
Proof.
  destruct (JsNumber.isNaN x) eqn:En.
  - right. split; [reflexivity|]. destruct x; try discriminate. reflexivity.
  - left. unfold healthOf.
    destruct (JsNumber.ltb x (JsNumber.ofZ 10)) eqn:H10; [exact H10|].
    apply NumberFacts.not_ltb_leb in H10; [|exact En|reflexivity].
    destruct (JsNumber.ltb x (JsNumber.ofZ 25)) eqn:H25; [split; assumption|].
    apply NumberFacts.not_ltb_leb in H25; [|exact En|reflexivity].
    destruct (JsNumber.ltb x (JsNumber.ofZ 50)) eqn:H50; [split; assumption|].
    apply NumberFacts.not_ltb_leb in H50; [|exact En|reflexivity].
    exact H50.
Qed.


(** C6, as amended.  [healthStatus] is thresholded on the mean of the
    visible percentages before it is rounded (0 when no model is visible):
    healthy from 50, degraded in [25, 50), limited in [10, 25), critical
    below 10.  The mean is the one of C5, in doubles; when it is NaN, which
    takes percentages that are not finite numbers, the status is healthy. *)
Theorem healthStatus_thresholds_unrounded_mean
    (entries : list (string * ModelInfo)) (vis : list (string * bool)) :
  let mean :=
    match Spec.visibleByGroup entries vis with
    | [] => JsNumber.zero
    | ps => Spec.mean ps
    end in
  Spec.healthFor mean (healthStatus (groupModelsByProvider entries vis))
  \/ (JsNumber.isNaN mean = true /\
      healthStatus (groupModelsByProvider entries vis) = healthy).
Proof.
  cbv zeta. rewrite healthStatus_unfold, overall_unrounded.
  apply healthOf_healthFor.
Qed.

End Stats.

(** C6, as stated, fails: one visible model at 49.96 percent gives the
    returned [overallPercentage] 50 and the [healthStatus] degraded. *)
Lemma healthStatus_not_from_returned_percentage :
  let stats :=
    groupModelsByProvider (fun _ => None) (fun _ => "")
      [("claude-3-7-sonnet",
        {| info_percentage := JsNumber.ofDecimal 4996 2; info_resetTime := "" |})]
      [] in
  overallPercentage stats = JsNumber.ofZ 50 /\
  healthStatus stats = degraded /\
  ~ Spec.healthFor (overallPercentage stats) (healthStatus stats).
Proof.
  intros stats.
  assert (Ep : overallPercentage stats = JsNumber.ofZ 50) by (vm_compute; reflexivity).
  assert (Eh : healthStatus stats = degraded) by (vm_compute; reflexivity).
  split; [exact Ep|]. split; [exact Eh|].
  rewrite Ep, Eh. cbn [Spec.healthFor]. intros [_ H]. vm_compute in H. discriminate.
Qed.

(** Four models of one provider at 27.9, 60.5, 23.2 and 69.8 percent,
    added up in that order, give the overall percentage 45.4. *)
Example overallPercentage_of_four_models :
  overallPercentage
    (groupModelsByProvider (fun _ => None) (fun _ => "")
       [("gemini-a", {| info_percentage := JsNumber.ofDecimal 279 1; info_resetTime := "" |});
        ("gemini-b", {| info_percentage := JsNumber.ofDecimal 605 1; info_resetTime := "" |});
        ("gemini-c", {| info_percentage := JsNumber.ofDecimal 232 1; info_resetTime := "" |});
        ("gemini-d", {| info_percentage := JsNumber.ofDecimal 698 1; info_resetTime := "" |})]
       [])
  = JsNumber.ofDecimal 454 1.
Proof. vm_compute. reflexivity. Qed.

End AccountStatsFacts.

(* ================================================================== *)
(** * The global quota of the account list *)
(* ================================================================== *)

Module GlobalQuotaFacts.

Import ProviderGrouping CloudAccountList.

(** The inner loop adds the visible percentages of one account to the
    running sum, in the order of its model map, and counts them. *)
Lemma addModel_fold vis (ms : list (string * ModelInfo)) (acc : Totals) :
  totalPercentage (fold_left (addModel vis) ms acc)
  = fold_left JsNumber.add (Spec.visiblePercentages ms vis) (totalPercentage acc)
  /\ modelCount (fold_left (addModel vis) ms acc)
     = (modelCount acc + List.length (Spec.visiblePercentages ms vis))%nat.
Proof.
  revert acc. unfold Spec.visiblePercentages.
  induction ms as [|e ms IH]; intros acc; simpl.
  - split; [reflexivity|lia].
  - destruct (IH (addModel vis acc e)) as [Ht Hc]. rewrite Ht, Hc.
    unfold addModel. destruct (isVisible vis (fst e)); simpl.
    + split; [reflexivity|lia].
    + split; reflexivity.
Qed.

Lemma addAccount_fold vis (accounts : list CloudAccount) (acc : Totals) :
  totalPercentage (fold_left (addAccount vis) accounts acc)
  = fold_left JsNumber.add (Spec.pooledPercentages accounts vis) (totalPercentage acc)
  /\ modelCount (fold_left (addAccount vis) accounts acc)
     = (modelCount acc + List.length (Spec.pooledPercentages accounts vis))%nat.
Proof.
  revert acc. induction accounts as [|a accounts IH]; intros acc; simpl.
  - split; [reflexivity|lia].
  - destruct (IH (addAccount vis acc a)) as [Ht Hc]. rewrite Ht, Hc.
    rewrite fold_left_app, length_app.
    unfold addAccount. destruct (quota_models a) as [ms|]; simpl.
    + destruct (addModel_fold vis ms acc) as [Ht' Hc']. rewrite Ht', Hc'.
      split; [reflexivity|lia].
    + split; [reflexivity|lia].
Qed.

(** What [globalQuota] returns for a pool that is loaded. *)
Lemma globalQuota_value (accounts : list CloudAccount)
    (model_visibility : option (list (string * bool))) :
  let vis := match model_visibility with Some v => v | None => [] end in
  globalQuota (Some accounts) model_visibility
  = match Spec.pooledPercentages accounts vis with
    | [] => None
    | ps => Some (Spec.roundedToOneDecimal (Spec.mean ps))
    end.
Proof.
  intros vis. destruct accounts as [|a0 accounts']; [reflexivity|].
  set (accounts := a0 :: accounts') in *.
  unfold globalQuota; fold accounts; fold vis.
  destruct (addAccount_fold vis accounts
              {| totalPercentage := JsNumber.zero; modelCount := 0 |}) as [Ht Hc].
  cbn [totalPercentage modelCount] in Ht, Hc.
  set (totals := fold_left (addAccount vis) accounts _) in *.
  change (match accounts with [] => None | _ :: _ =>
            if (modelCount totals =? 0)%nat then None
            else Some (round1 (JsNumber.div (totalPercentage totals)
                                 (JsNumber.ofNat (modelCount totals)))) end)
    with (if (modelCount totals =? 0)%nat then None
          else Some (round1 (JsNumber.div (totalPercentage totals)
                               (JsNumber.ofNat (modelCount totals))))).
  rewrite Ht, Hc. cbn [Nat.add].
  destruct (Spec.pooledPercentages accounts vis) as [|p ps]; [reflexivity|].
  reflexivity.
Qed.


#[local] Abbreviation pool := Samples.pool.


(** On that pool the global quota is 50, the flat mean, while the mean of
    the two account means is 40. *)
Example globalQuota_is_not_a_mean_of_means :
  globalQuota (Some pool) None = Some (JsNumber.ofZ 50) /\
  Spec.meanOfMeans pool [] = JsNumber.ofZ 40.
Proof.
  split; vm_compute; reflexivity.
Qed.

End GlobalQuotaFacts.

(* ================================================================== *)
(** * Localized error messages *)
(* ================================================================== *)

Module ErrorMessagesFacts.

Import ErrorMessages.

Lemma append_not_self (base extra : string) :
  extra <> "" -> (base ++ extra)%string <> base.
Proof.
  intros Hne H. apply Hne.
  assert (L : String.length (base ++ extra) = String.length base) by (rewrite H; reflexivity).
  rewrite JsFacts.length_append in L.
  destruct extra; [reflexivity|]. simpl in L. lia.
Qed.

(** The base message is extended exactly when the hint is recognised. *)
Lemma extendedBy_base_iff t base hintKey :
  Spec.extendedBy t base hintKey = base <-> hintKey = None.
Proof.
  destruct hintKey as [k|]; simpl; split; try reflexivity; try discriminate.
  intros H. exfalso. revert H. apply append_not_self. discriminate.
Qed.

Ltac case_key h k :=
  destruct (String.eqb_spec k h) as [<-|?].

Section Localize.

Variable t : TKey -> string.

#[local] Abbreviation notInherited := Spec.notInherited.

Lemma resolveKeychainMessage_recognized (hint : option string) :
  notInherited hint ->
  resolveKeychainMessage t hint
  = Spec.extendedBy t (t (Key "error.keychainUnavailable"))
      (Spec.recognizedHint KEYCHAIN_HINT_I18N_MAP hint).
Proof.
  unfold resolveKeychainMessage, Spec.notInherited, Spec.recognizedHint.
  destruct hint as [h|]; [|reflexivity].
  intros Hni. unfold getProperty. rewrite Hni.
  unfold KEYCHAIN_HINT_I18N_MAP. cbn [Js.lookup].
  case_key h KEYCHAIN_HINT_SIGN_NOTARIZE; [reflexivity|].
  case_key h KEYCHAIN_HINT_KEYCHAIN_DENIED; [reflexivity|].
  case_key h KEYCHAIN_HINT_TRANSLOCATION; [reflexivity|].
  destruct (Js.truthy h); reflexivity.
Qed.

Lemma resolveDataMigrationMessage_recognized (hint : option string) :
  notInherited hint ->
  resolveDataMigrationMessage t hint
  = Spec.extendedBy t (t (Key "error.dataMigrationFailed"))
      (Spec.recognizedHint DATA_MIGRATION_HINT_I18N_MAP hint).
Proof.
  unfold resolveDataMigrationMessage, Spec.notInherited, Spec.recognizedHint.
  destruct hint as [h|]; [|reflexivity].
  intros Hni. unfold getProperty. rewrite Hni.
  unfold DATA_MIGRATION_HINT_I18N_MAP. cbn [Js.lookup].
  case_key h DATA_MIGRATION_HINT_CLEAR_DATA; [reflexivity|].
  case_key h DATA_MIGRATION_HINT_RELOGIN; [reflexivity|].
  destruct (Js.truthy h); reflexivity.
Qed.

(** C9, as amended.  For an error with a message [CODE|HINT] whose hint is
    not the name of a member inherited from [Object.prototype]: under
    [ERR_KEYCHAIN_UNAVAILABLE] or [ERR_DATA_MIGRATION_FAILED] the result is
    the localized base message of the code, extended by the localized hint
    exactly when the hint is one the table of that code recognises; under
    any other leading segment it is the raw message, except that an object
    that is not an [Error] and has an empty message gives [String(error)]. *)
Theorem getLocalizedErrorMessage_by_code (error : Unknown) (rawMessage : string) :
  Spec.rawMessageOf error = Some rawMessage ->
  notInherited (hintOf rawMessage) ->
  getLocalizedErrorMessage t error
  = if String.eqb (codeOf rawMessage) KEYCHAIN_ERROR_CODE then
      Spec.extendedBy t (t (Key "error.keychainUnavailable"))
        (Spec.recognizedHint KEYCHAIN_HINT_I18N_MAP (hintOf rawMessage))
    else if String.eqb (codeOf rawMessage) DATA_MIGRATION_ERROR_CODE then
      Spec.extendedBy t (t (Key "error.dataMigrationFailed"))
        (Spec.recognizedHint DATA_MIGRATION_HINT_I18N_MAP (hintOf rawMessage))
    else
      match error with
      | ObjectWithMessage _ asString =>
          if String.eqb rawMessage "" then asString else rawMessage
      | _ => rawMessage
      end.
Proof.
  intros Hraw Hni.
  destruct error as [m|[m|] asString|asString]; simpl in Hraw;
    inversion Hraw; subst rawMessage; clear Hraw; simpl.
  - rewrite (resolveKeychainMessage_recognized _ Hni),
            (resolveDataMigrationMessage_recognized _ Hni). reflexivity.
  - rewrite (resolveKeychainMessage_recognized _ Hni),
            (resolveDataMigrationMessage_recognized _ Hni).
    unfold Js.truthy. destruct (String.eqb m ""); reflexivity.
  - reflexivity.
Qed.

End Localize.

#[local] Abbreviation sample_t := Samples.sample_t.

Lemma getLocalizedErrorMessage_by_code_witness :
  getLocalizedErrorMessage sample_t
    (ErrorInstance "ERR_KEYCHAIN_UNAVAILABLE|HINT_KEYCHAIN_DENIED")
  = "<error.keychainUnavailable> <error.keychainHint.keychainDenied>".
Proof.
  rewrite (getLocalizedErrorMessage_by_code sample_t
             (ErrorInstance "ERR_KEYCHAIN_UNAVAILABLE|HINT_KEYCHAIN_DENIED")
             "ERR_KEYCHAIN_UNAVAILABLE|HINT_KEYCHAIN_DENIED").
  - reflexivity.
  - reflexivity.
  - reflexivity.
Defined.

(** C9, as stated, fails: an object that is not an [Error] and carries an
    empty message has a leading segment that is neither code, and the
    result is [String(error)], not the raw message. *)
Lemma empty_message_not_returned_verbatim :
  let error := ObjectWithMessage (Some "") "[object Object]" in
  Spec.rawMessageOf error = Some "" /\
  codeOf "" <> KEYCHAIN_ERROR_CODE /\
  codeOf "" <> DATA_MIGRATION_ERROR_CODE /\
  getLocalizedErrorMessage sample_t error <> "".
Proof.
  repeat split; discriminate.
Qed.

(** The hint tables are separate: a migration hint under the keychain code
    does not extend the message. *)
Example keychain_code_with_migration_hint :
  getLocalizedErrorMessage sample_t (ErrorInstance "ERR_KEYCHAIN_UNAVAILABLE|HINT_RELOGIN")
  = "<error.keychainUnavailable>".
Proof. reflexivity. Qed.

(** A hint that names a member of [Object.prototype] is found by the table
    lookup, and the message is extended by what [t] makes of that member. *)
Example inherited_member_as_hint :
  getLocalizedErrorMessage sample_t (ErrorInstance "ERR_KEYCHAIN_UNAVAILABLE|constructor")
  = "<error.keychainUnavailable> <?constructor>".
Proof. reflexivity. Qed.

Example unknown_code_verbatim :
  getLocalizedErrorMessage sample_t (ErrorInstance "ERR_OTHER|HINT_RELOGIN")
  = "ERR_OTHER|HINT_RELOGIN".
Proof. reflexivity. Qed.

End ErrorMessagesFacts.

(* ================================================================== *)
(** * The upstream dispatcher: endpoint failover *)
(* ================================================================== *)

Module FailoverFacts.

Import GeminiClient.

(** The rows of the failover table, on [shouldSwitchEndpointOnError]. *)
Lemma shouldSwitchEndpointOnError_retryable (error : Thrown) :
  shouldSwitchEndpointOnError error = true <-> Spec.retryable error.
Proof.
  destruct error as [m [r|]|m|v]; simpl.
  - destruct (Z.eqb_spec (status r) 401) as [E1|N1]; simpl.
    { split; [discriminate|]. lia. }
    destruct (Z.eqb_spec (status r) 403) as [E3|N3]; simpl.
    { split; [discriminate|]. lia. }
    destruct (Z.eqb_spec (status r) 408) as [E8|N8]; simpl; [tauto|].
    destruct (Z.eqb_spec (status r) 429) as [E9|N9]; simpl; [tauto|].
    destruct (Z.geb_spec (status r) 500) as [G|G]; simpl; split; intros K;
      try reflexivity; try discriminate; lia.
  - tauto.
  - split; [discriminate|tauto].
  - split; [discriminate|tauto].
Qed.

Lemma auth_errors_are_terminal (m : string) (r : AxiosResponse) :
  status r = 401 \/ status r = 403 -> ~ Spec.retryable (AxiosError m (Some r)).
Proof. simpl. lia. Qed.

Section Dispatcher.

Variable JSON_parse : string -> option Json.value.
Variable axios_post : nat -> Request -> Outcome.

(** [handleAxiosError] always throws, and never at the trailing [throw] of
    [requestWithEndpointFailover]. *)
Lemma handleAxiosError_throws (error : option Thrown) (operation : string) :
  exists site message,
    handleAxiosError JSON_parse error operation = Throw site message /\
    site <> UnexpectedControlFlow.
Proof.
  destruct error as [[m r|m|v]|]; simpl.
  - destruct (extractAxiosErrorMessage JSON_parse _) as [u|].
    + destruct (Js.truthy u); eexists _, _; split; try reflexivity; discriminate.
    + eexists _, _; split; try reflexivity; discriminate.
  - eexists _, _; split; try reflexivity; discriminate.
  - eexists _, _; split; try reflexivity; discriminate.
  - eexists _, _; split; try reflexivity; discriminate.
Qed.

Section Failover.

Variable env : Env.
Variable path : string.
Variable accessToken : string.
Variable requestConfig : AxiosRequestConfig.
Variable operation : string.
Variable extraHeaders : option (list (string * string)).

#[local] Abbreviation requestFor :=
  (requestFor env path accessToken requestConfig extraHeaders).
#[local] Abbreviation endpointLoop :=
  (endpointLoop JSON_parse axios_post env path accessToken requestConfig operation
     extraHeaders).
#[local] Abbreviation failoverOver :=
  (failoverOver JSON_parse axios_post env path accessToken requestConfig operation
     extraHeaders).

#[local] Abbreviation LoopRun :=
  (Spec.LoopRun JSON_parse axios_post env path accessToken requestConfig operation
     extraHeaders).

Lemma endpointLoop_run (len : Z) (remaining : list string) :
  forall (index : Z) (st : LoopState),
    index = len - Z.of_nat (List.length remaining) ->
    exists k,
      LoopRun remaining st
        (fst (endpointLoop len remaining index st))
        (snd (endpointLoop len remaining index st)) k.
Proof.
  induction remaining as [|u rest IH]; intros index st Hidx.
  - exists 0%nat. simpl. constructor; simpl.
    + lia.
    + rewrite app_nil_r. reflexivity.
    + intros i Hi. lia.
    + auto.
  - cbn [GeminiClient.endpointLoop].
    destruct (axios_post (List.length (posted st)) (requestFor u)) as [r|e] eqn:Hpost.
    + exists 1%nat. constructor; cbn [fst snd posted].
      * simpl. lia.
      * reflexivity.
      * intros i Hi. lia.
      * exists 0%nat. rewrite Nat.add_0_r. split; [reflexivity|exact Hpost].
    + set (st1 := {| posted := posted st ++ [requestFor u]; lastError := Some e |}).
      assert (Hnext : (index <? len - 1) = negb (Nat.eqb (List.length rest) 0)).
      { cbn [List.length] in Hidx.
        destruct (Nat.eqb_spec (List.length rest) 0); simpl;
          [apply Z.ltb_ge|apply Z.ltb_lt]; lia. }
      rewrite Hnext.
      destruct (handleAxiosError_throws (Some e) operation) as (site & msg & Hthrow & _).
      destruct (negb (negb (Nat.eqb (List.length rest) 0))
                || negb (shouldSwitchEndpointOnError e))%bool eqn:Hstop.
      * rewrite Hthrow. exists 1%nat. constructor; cbn [fst snd posted lastError].
        -- simpl. lia.
        -- reflexivity.
        -- intros i Hi. lia.
        -- exists 0%nat, e. rewrite Nat.add_0_r.
           split; [reflexivity|]. split; [exact Hpost|].
           split; [|split; [exact Hthrow|reflexivity]].
           apply orb_true_iff in Hstop. destruct Hstop as [H|H].
           ++ left. rewrite negb_involutive in H. apply Nat.eqb_eq in H.
              simpl. rewrite H. reflexivity.
           ++ right. apply negb_true_iff in H. exact H.
      * apply orb_false_iff in Hstop. destruct Hstop as [Hrest Hsw].
        rewrite negb_involutive in Hrest. apply Nat.eqb_neq in Hrest.
        apply negb_false_iff in Hsw.
        destruct (IH (index + 1) st1) as [k Hrun].
        { cbn [List.length] in Hidx. lia. }
        destruct Hrun as [Hb Hp He Hl].
        assert (Hlen1 : List.length (posted st1) = S (List.length (posted st))).
        { subst st1. cbn [posted]. rewrite length_app. simpl. lia. }
        exists (S k). constructor.
        -- simpl. lia.
        -- rewrite Hp. subst st1. cbn [posted]. rewrite <- app_assoc. reflexivity.
        -- intros [|i] Hi.
           ++ exists e. rewrite Nat.add_0_r. split; [exact Hpost|exact Hsw].
           ++ destruct (He i) as (e' & He' & Hs'); [lia|].
              exists e'. split; [|exact Hs'].
              rewrite Hlen1 in He'. cbn [nth].
              replace (List.length (posted st) + S i)%nat
                with (S (List.length (posted st)) + i)%nat by lia.
              exact He'.
        -- destruct (fst (endpointLoop len rest (index + 1) st1)) as [r|site' msg'|].
           ++ destruct Hl as (j & -> & Hj). exists (S j). split; [reflexivity|].
              rewrite Hlen1 in Hj. cbn [nth].
              replace (List.length (posted st) + S j)%nat
                with (S (List.length (posted st)) + j)%nat by lia.
              exact Hj.
           ++ destruct Hl as (j & e' & -> & Hj & Hor & Hh & Hlast).
              exists (S j), e'. split; [reflexivity|].
              rewrite Hlen1 in Hj. cbn [nth].
              replace (List.length (posted st) + S j)%nat
                with (S (List.length (posted st)) + j)%nat by lia.
              split; [exact Hj|]. split; [|split; [exact Hh|exact Hlast]].
              destruct Hor as [Hk|Hf]; [left; simpl; lia|right; exact Hf].
           ++ destruct Hl as (Hnil & _). subst rest. contradiction.
Qed.

(** The run of a whole call, from the first base URL. *)
Lemma failoverOver_run (baseUrls : list string) :
  exists k exit,
    LoopRun baseUrls {| posted := []; lastError := None |} exit
      (snd (failoverOver baseUrls)) k /\
    fst (failoverOver baseUrls)
    = match exit with
      | Returned response => Normal response
      | Thrown_ site message => Throw site message
      | Exhausted =>
          match handleAxiosError JSON_parse None operation with
          | Throw site message => Throw site message
          | Normal _ => Throw UnexpectedControlFlow ""
          end
      end.
Proof.
  unfold GeminiClient.failoverOver.
  destruct (endpointLoop_run (Z.of_nat (List.length baseUrls)) baseUrls 0
              {| posted := []; lastError := None |}) as [k Hrun]; [lia|].
  destruct (endpointLoop _ _ _ _) as [exit st'] eqn:E. cbn [fst snd] in Hrun.
  exists k, exit. destruct exit as [r|site msg|]; cbn [fst snd]; auto.
  pose proof (Spec.run_last _ _ _ _ _ _ _ _ _ _ _ _ _ Hrun) as (_ & _ & Hst). cbn [fst snd] in Hst.
  destruct (handleAxiosError_throws (lastError st') operation)
    as (site & msg & Hthrow & _).
  rewrite Hthrow. cbn [fst snd]. split; [exact Hrun|].
  rewrite Hst in Hthrow. cbn [lastError] in Hthrow. rewrite Hthrow. reflexivity.
Qed.

Lemma nth_error_posted (baseUrls : list string) (k i : nat) (req : Request) :
  nth_error (map requestFor (firstn k baseUrls)) i = Some req ->
  (i < k)%nat /\ (i < List.length baseUrls)%nat /\ req = requestFor (nth i baseUrls "").
Proof.
  revert k i. induction baseUrls as [|u rest IH]; intros k i H.
  - rewrite firstn_nil in H. destruct i; discriminate.
  - destruct k as [|k]; [destruct i; discriminate|].
    destruct i as [|i]; simpl in H.
    + inversion H. simpl. repeat split; lia.
    + destruct (IH k i H) as (H1 & H2 & H3). simpl. repeat split; try lia. exact H3.
Qed.

(** The POSTs of a call go to an initial segment of the base URLs, in
    order; an attempt is followed by another one exactly when it failed
    with a retryable error and a base URL is left. *)
Lemma failoverOver_attempts (baseUrls : list string) :
  let st := snd (failoverOver baseUrls) in
  (List.length (posted st) <= List.length baseUrls)%nat /\
  posted st = map requestFor (firstn (List.length (posted st)) baseUrls) /\
  forall i req e,
    nth_error (posted st) i = Some req ->
    axios_post i req = Failure e ->
    ((S i < List.length (posted st))%nat
     <-> Spec.retryable e /\ (S i < List.length baseUrls)%nat) /\
    ((S i = List.length (posted st))%nat ->
     exists site message,
       fst (failoverOver baseUrls) = Throw site message /\
       handleAxiosError JSON_parse (Some e) operation = Throw site message).
Proof.
  intros st. subst st.
  destruct (failoverOver_run baseUrls) as (k & exit & Hrun & Hfst).
  destruct Hrun as [Hb Hp He Hl]. cbn [posted] in Hp, He, Hl. simpl in Hp.
  assert (Hlen : List.length (posted (snd (failoverOver baseUrls))) = k).
  { rewrite Hp, length_map, length_firstn. lia. }
  rewrite Hlen. split; [exact Hb|]. split; [exact Hp|].
  intros i req e Hnth Hpost. rewrite Hp in Hnth.
  apply nth_error_posted in Hnth. destruct Hnth as (Hik & Hil & ->).
  assert (Hlast : S i = k ->
            (k = List.length baseUrls \/ shouldSwitchEndpointOnError e = false) /\
            exists site message,
              fst (failoverOver baseUrls) = Throw site message /\
              handleAxiosError JSON_parse (Some e) operation = Throw site message).
  { intros Hk. destruct exit as [r|site msg|].
    - destruct Hl as (j & Hj & Hs). simpl in Hs.
      assert (j = i) by lia. subst j. rewrite Hpost in Hs. discriminate.
    - destruct Hl as (j & e' & Hj & Hf & Hor & Hh & _). simpl in Hf.
      assert (j = i) by lia. subst j. rewrite Hpost in Hf. inversion Hf; subst e'.
      split; [exact Hor|]. exists site, msg. split; [exact Hfst|exact Hh].
    - destruct Hl as (_ & Hk0 & _). lia. }
  split.
  - rewrite <- shouldSwitchEndpointOnError_retryable. split.
    + intros Hnext. destruct (He i Hnext) as (e' & He' & Hs'). simpl in He'.
      rewrite Hpost in He'. inversion He'; subst e'. split; [exact Hs'|lia].
    + intros [Hs Hn].
      destruct (Nat.eq_dec (S i) k) as [Hk|Hk]; [|lia].
      destruct (Hlast Hk) as ([Hend|Hns] & _); [lia|congruence].
  - intros Hk. destruct (Hlast Hk) as (_ & H). exact H.
Qed.

(** C1, as amended.  An attempt that fails is followed by an attempt on
    the next endpoint exactly when a next endpoint exists and the error is
    an Axios error without a response (network, DNS, timeout) or with
    status 408, 429 or at least 500.  In every other case (an error that is
    not an Axios error, status 401 or 403, any other status, or the last
    endpoint) the attempt is the last one and the call fails with that
    error. *)
Theorem failover_tries_next_iff_retryable
    (baseUrls : list string) (i : nat) (req : Request) (error : Thrown) :
  nth_error (posted (snd (failoverOver baseUrls))) i = Some req ->
  axios_post i req = Failure error ->
  ((S i < List.length (posted (snd (failoverOver baseUrls))))%nat
   <-> Spec.retryable error /\ (S i < List.length baseUrls)%nat)
  /\
  (~ (Spec.retryable error /\ (S i < List.length baseUrls)%nat) ->
   List.length (posted (snd (failoverOver baseUrls))) = S i /\
   exists site message,
     fst (failoverOver baseUrls) = Throw site message /\
     handleAxiosError JSON_parse (Some error) operation = Throw site message).
Proof.
  intros Hnth Hpost.
  destruct (failoverOver_attempts baseUrls) as (_ & _ & H).
  destruct (H i req error Hnth Hpost) as [Hiff Hstop].
  split; [exact Hiff|].
  intros Hterm.
  assert (Hlt : (i < List.length (posted (snd (failoverOver baseUrls))))%nat).
  { apply nth_error_Some. rewrite Hnth. discriminate. }
  assert (Hk : S i = List.length (posted (snd (failoverOver baseUrls)))).
  { destruct (Nat.eq_dec (S i) (List.length (posted (snd (failoverOver baseUrls)))))
      as [E|N]; [exact E|].
    exfalso. apply Hterm. apply Hiff. lia. }
  split; [symmetry; exact Hk|]. apply Hstop. exact Hk.
Qed.

(** C10.  On a base-URL list that is not empty the endpoint loop is never
    left by its condition: the call returns the response of the first
    successful POST, all earlier ones having failed, or it throws what
    [handleAxiosError] throws for the error of the last attempt, at the
    [throw] of [handleAxiosError] or of [throwAsCleanError].  The trailing
    [throw] is not reached. *)
Theorem failover_returns_or_throws_handled (baseUrls : list string) :
  baseUrls <> [] ->
  fst (endpointLoop (Z.of_nat (List.length baseUrls)) baseUrls 0
         {| posted := []; lastError := None |}) <> Exhausted
  /\
  ((exists j response,
      fst (failoverOver baseUrls) = Normal response /\
      (j < List.length baseUrls)%nat /\
      axios_post j (requestFor (nth j baseUrls "")) = Success response /\
      forall i, (i < j)%nat ->
        exists e, axios_post i (requestFor (nth i baseUrls "")) = Failure e)
   \/
   (exists j e site message,
      fst (failoverOver baseUrls) = Throw site message /\
      axios_post j (requestFor (nth j baseUrls "")) = Failure e /\
      handleAxiosError JSON_parse (Some e) operation = Throw site message /\
      (site = InHandleAxiosError \/ site = InThrowAsCleanError)))
  /\
  (forall message, fst (failoverOver baseUrls) <> Throw UnexpectedControlFlow message).
Proof.
  intros Hne.
  destruct (endpointLoop_run (Z.of_nat (List.length baseUrls)) baseUrls 0
              {| posted := []; lastError := None |}) as [k Hrun]; [lia|].
  unfold GeminiClient.failoverOver.
  destruct (endpointLoop _ _ _ _) as [exit st'] eqn:E. cbn [fst snd] in *.
  destruct Hrun as [Hb Hp He Hl]. cbn [posted List.length Nat.add] in He, Hl.
  destruct exit as [r|site msg|].
  - destruct Hl as (j & -> & Hs). split; [discriminate|]. split.
    + left. exists j, r. split; [reflexivity|]. split; [lia|]. split; [exact Hs|].
      intros i Hi. destruct (He i) as (e & Hf & _); [lia|]. exists e. exact Hf.
    + intros m. discriminate.
  - destruct Hl as (j & e & -> & Hf & _ & Hh & _). split; [discriminate|].
    destruct (handleAxiosError_throws (Some e) operation) as (s' & m' & Hh' & Hs').
    rewrite Hh in Hh'. inversion Hh'; subst s' m'. split.
    + right. exists j, e, site, msg. repeat split; auto.
      destruct site; auto. contradiction.
    + intros m H. inversion H. subst site. contradiction.
  - destruct Hl as (Hnil & _). contradiction.
Qed.

End Failover.

(** C4.  A call of [generateInternal] or of [streamGenerateInternal] POSTs
    at most once per configured base URL, to an initial segment of the
    list in order, and a POST that fails with an error that is not
    retryable is the last POST of the call. *)
Theorem internal_calls_post_at_most_once_per_endpoint
    (env : Env) (accessToken : string) (extraHeaders : option (list (string * string))) :
  let baseUrls := getInternalBaseUrls env in
  let bounded (path : string) (st : LoopState) :=
    (List.length (posted st) <= List.length baseUrls)%nat /\
    map url (posted st)
    = map (fun b => (b ++ path)%string) (firstn (List.length (posted st)) baseUrls) /\
    forall i req e,
      nth_error (posted st) i = Some req ->
      axios_post i req = Failure e ->
      ~ Spec.retryable e ->
      List.length (posted st) = S i in
  bounded ":generateContent"
    (snd (generateInternal JSON_parse axios_post env accessToken extraHeaders))
  /\
  bounded ":streamGenerateContent?alt=sse"
    (snd (streamGenerateInternal JSON_parse axios_post env accessToken extraHeaders)).
Proof.
  intros baseUrls bounded.
  assert (G : forall path cfg op,
             bounded path
               (snd (requestWithEndpointFailover JSON_parse axios_post env path
                       accessToken cfg op extraHeaders))).
  { intros path cfg op. unfold requestWithEndpointFailover. fold baseUrls.
    destruct (failoverOver_attempts env path accessToken cfg op extraHeaders baseUrls)
      as (Hlen & Hp & Hat).
    split; [exact Hlen|]. split.
    - rewrite Hp at 1. rewrite map_map. reflexivity.
    - intros i req e Hnth Hpost Hnr.
      destruct (Hat i req e Hnth Hpost) as [Hiff _].
      assert (Hlt : (i < List.length (posted (snd (GeminiClient.failoverOver JSON_parse
                axios_post env path accessToken cfg op extraHeaders baseUrls))))%nat).
      { apply nth_error_Some. rewrite Hnth. discriminate. }
      destruct (Nat.eq_dec (List.length (posted (snd (GeminiClient.failoverOver JSON_parse
                axios_post env path accessToken cfg op extraHeaders baseUrls)))) (S i))
        as [Eq|Ne]; [exact Eq|].
      exfalso. apply Hnr. apply Hiff. lia. }
  split.
  - unfold generateInternal.
    specialize (G ":generateContent" {| responseType := None |} "generate-content").
    destruct (requestWithEndpointFailover _ _ _ _ _ _ _ _) as [[r|s m] st]; exact G.
  - unfold streamGenerateInternal.
    specialize (G ":streamGenerateContent?alt=sse" {| responseType := Some "stream" |}
                  "stream-generate").
    destruct (requestWithEndpointFailover _ _ _ _ _ _ _ _) as [[r|s m] st]; exact G.
Qed.

End Dispatcher.

#[local] Abbreviation run_timeout_then_ok :=
  (failoverOver Json.parse Samples.timeout_then_ok Samples.env0 ":generateContent"
     "token" {| responseType := None |} "generate-content" None
     defaultInternalBaseUrls).

Lemma failover_tries_next_iff_retryable_witness :
  (1 < List.length (posted (snd run_timeout_then_ok)))%nat
  <-> Spec.retryable (AxiosError "timeout of 60000ms exceeded" None)
      /\ (1 < List.length defaultInternalBaseUrls)%nat.
Proof.
  refine (proj1 (failover_tries_next_iff_retryable Json.parse Samples.timeout_then_ok
                   Samples.env0 ":generateContent" "token" {| responseType := None |}
                   "generate-content" None defaultInternalBaseUrls 0
                   (requestFor Samples.env0 ":generateContent" "token"
                      {| responseType := None |} None
                      "https://cloudcode-pa.googleapis.com/v1internal")
                   (AxiosError "timeout of 60000ms exceeded" None) _ _)).
  - reflexivity.
  - reflexivity.
Defined.

#[local] Abbreviation run_unauthorized :=
  (failoverOver Json.parse Samples.always_unauthorized Samples.env0 ":generateContent"
     "token" {| responseType := None |} "generate-content" None
     defaultInternalBaseUrls).

#[local] Abbreviation post_unauthorized j :=
  (Samples.always_unauthorized j
     (requestFor Samples.env0 ":generateContent" "token" {| responseType := None |}
        None (nth j defaultInternalBaseUrls ""))).

Lemma failover_returns_or_throws_handled_witness :
  fst (endpointLoop Json.parse Samples.always_unauthorized Samples.env0
         ":generateContent" "token" {| responseType := None |} "generate-content"
         None (Z.of_nat (List.length defaultInternalBaseUrls))
         defaultInternalBaseUrls 0 {| posted := []; lastError := None |})
  <> Exhausted
  /\
  ((exists j response,
      fst run_unauthorized = Normal response /\
      (j < List.length defaultInternalBaseUrls)%nat /\
      post_unauthorized j = Success response /\
      forall i, (i < j)%nat -> exists e, post_unauthorized i = Failure e)
   \/
   (exists j e site message,
      fst run_unauthorized = Throw site message /\
      post_unauthorized j = Failure e /\
      handleAxiosError Json.parse (Some e) "generate-content" = Throw site message /\
      (site = InHandleAxiosError \/ site = InThrowAsCleanError)))
  /\
  (forall message, fst run_unauthorized <> Throw UnexpectedControlFlow message).
Proof.
  apply (failover_returns_or_throws_handled Json.parse Samples.always_unauthorized
           Samples.env0 ":generateContent" "token" {| responseType := None |}
           "generate-content" None defaultInternalBaseUrls).
  discriminate.
Defined.

(** C1, as stated, fails: an error that is not an HTTP response error but
    is not an Axios error either ends the call on the first of the two
    built-in endpoints. *)
Lemma non_axios_error_is_terminal :
  let run :=
    failoverOver Json.parse Samples.always_native_error Samples.env0 ":generateContent"
      "token" {| responseType := None |} "generate-content" None
      defaultInternalBaseUrls in
  Spec.tableSaysTryNext (NativeError "socket hang up") = true /\
  shouldSwitchEndpointOnError (NativeError "socket hang up") = false /\
  List.length defaultInternalBaseUrls = 2%nat /\
  List.length (posted (snd run)) = 1%nat /\
  fst run = Throw InThrowAsCleanError "socket hang up".
Proof.
  repeat split.
Qed.

(** Scenario 6 of the specification: a 401 on the first endpoint ends the
    call after one POST with the upstream message. *)
Example unauthorized_fails_fast :
  let run :=
    generateInternal Json.parse Samples.always_unauthorized Samples.env0 "token" None in
  List.length (posted (snd run)) = 1%nat /\
  fst run = Throw InHandleAxiosError "token expired".
Proof.
  split; reflexivity.
Qed.

End FailoverFacts.

(* ================================================================== *)
(** * The lines of a JSON text *)
(* ================================================================== *)

Module JsonLineFacts.

Import Json LineScan.

#[local] Abbreviation LF := GeminiClient.LF.

Lemma split_not_nil (sep : ascii) (s : string) : Js.split sep s <> [].
Proof.
  destruct s as [|c r]; simpl; [discriminate|].
  destruct (Ascii.eqb c sep); [discriminate|].
  destruct (Js.split sep r); discriminate.
Qed.

(** The scanner finds what [split] and [trimStart] find. *)
Lemma hasDLine_split (s : string) :
  hasDLine true s = existsb firstNonSpaceIsD (Js.split LF s) /\
  hasDLine false s = existsb firstNonSpaceIsD (tl (Js.split LF s)).
Proof.
  induction s as [|c r [IHt IHf]]; simpl.
  - split; reflexivity.
  - destruct (Ascii.eqb c LF) eqn:Ec.
    + simpl. split; [rewrite IHt; reflexivity|exact IHt].
    + pose proof (split_not_nil LF r) as Hne.
      destruct (Js.split LF r) as [|h t]; [contradiction|]. simpl in *.
      split; [|exact IHf].
      unfold firstNonSpaceIsD at 1. simpl.
      destruct (Js.isWhiteSpace c).
      * rewrite IHt. reflexivity.
      * destruct (Ascii.eqb c "d"); [reflexivity|]. rewrite IHf. reflexivity.
Qed.

Lemma trimEnd_head (s : string) (c : ascii) (r : string) :
  Js.trimEnd s = String c r -> exists r', s = String c r'.
Proof.
  destruct s as [|d s]; simpl; [discriminate|].
  destruct (Js.trimEnd s).
  - destruct (Js.isWhiteSpace d); [discriminate|].
    intros H. inversion H. eexists; reflexivity.
  - intros H. inversion H. eexists; reflexivity.
Qed.

Lemma data_line_starts_with_d (line : string) :
  Js.startsWith (Js.trim line) "data:" = true -> firstNonSpaceIsD line = true.
Proof.
  intros H. apply JsFacts.startsWith_append in H. destruct H as [rest H].
  unfold Js.trim in H. simpl in H. apply trimEnd_head in H. destruct H as [r' H].
  unfold firstNonSpaceIsD. rewrite H. reflexivity.
Qed.

(** A text without a line that starts with [d] has no [data:] line. *)
Lemma no_d_line_no_data_line (text : string) :
  hasDLine true text = false ->
  filter (fun l => Js.startsWith l "data:") (map Js.trim (Js.split LF text)) = [].
Proof.
  intros H. rewrite (proj1 (hasDLine_split text)) in H.
  induction (Js.split LF text) as [|l ls IH]; simpl in *; [reflexivity|].
  apply orb_false_iff in H. destruct H as [Hl Hls].
  destruct (Js.startsWith (Js.trim l) "data:") eqn:E.
  - apply data_line_starts_with_d in E. congruence.
  - apply IH. exact Hls.
Qed.

(** ** The lexer and line feeds *)

Lemma isWhiteSpace_cases (c : ascii) :
  Js.isWhiteSpace c = true ->
  c = ascii_of_N 9 \/ c = ascii_of_N 10 \/ c = ascii_of_N 11 \/
  c = ascii_of_N 12 \/ c = ascii_of_N 13 \/ c = ascii_of_N 32.
Proof.
  unfold Js.isWhiteSpace. intros H.
  rewrite <- (ascii_N_embedding c).
  repeat (apply orb_true_iff in H; destruct H as [H|H]);
    apply N.eqb_eq in H; rewrite H; tauto.
Qed.

Lemma stepBoundary_space (c : ascii) st toks :
  Js.isWhiteSpace c = true -> stepBoundary c = Some (st, toks) -> st = AtBoundary.
Proof.
  intros Hw. destruct (isWhiteSpace_cases c Hw) as [E|[E|[E|[E|[E|E]]]]]; subst c;
    vm_compute; intros H; inversion H; reflexivity.
Qed.

Lemma stepBoundary_not_d : stepBoundary "d" = None.
Proof. reflexivity. Qed.

Lemma stepBoundary_reachable (c : ascii) st toks :
  stepBoundary c = Some (st, toks) -> reachable st.
Proof.
  unfold stepBoundary.
  repeat match goal with
         | |- context [if ?b then _ else _] => destruct b
         end;
    intros H; inversion H; subst; simpl; auto.
Qed.

Lemma step_reachable (st : lexState) (c : ascii) st' toks :
  reachable st -> step st c = Some (st', toks) -> reachable st'.
Proof.
  intros Hr. destruct st as [|acc|acc|acc hex|acc ph|rest tok]; simpl.
  - apply stepBoundary_reachable.
  - repeat match goal with
           | |- context [if ?b then _ else _] => destruct b
           end; intros H; inversion H; subst; simpl; auto.
  - unfold stepEscape.
    repeat match goal with
           | |- context [if ?b then _ else _] => destruct b
           end; intros H; inversion H; subst; simpl; auto.
  - destruct (hexValue c); [|discriminate].
    destruct (List.length hex =? 3)%nat.
    + destruct (hex4 _); intros H; inversion H; subst; simpl; auto.
    + intros H; inversion H; subst; simpl; auto.
  - destruct (stepNumber ph c).
    + intros H; inversion H; subst; simpl; auto.
    + destruct (numAccepting ph); [|discriminate].
      destruct (stepBoundary c) as [[s1 t1]|] eqn:E; [|discriminate].
      intros H; inversion H; subst. eapply stepBoundary_reachable; eassumption.
  - destruct rest as [|c' rest']; [discriminate|].
    destruct (Ascii.eqb c c'); [|discriminate].
    simpl in Hr. apply andb_true_iff in Hr. destruct Hr as [_ Hr].
    destruct rest'; intros H; inversion H; subst; simpl; auto.
Qed.

(** A line feed is read only between tokens, or ends a number. *)
Lemma step_LF (st : lexState) st' toks :
  reachable st -> step st LF = Some (st', toks) -> st' = AtBoundary.
Proof.
  intros Hr. destruct st as [|acc|acc|acc hex|acc ph|rest tok].
  - vm_compute. intros H; inversion H; reflexivity.
  - vm_compute. discriminate.
  - vm_compute. discriminate.
  - vm_compute. discriminate.
  - destruct ph; vm_compute; intros H; inversion H; reflexivity.
  - cbn [step]. destruct rest as [|c' rest']; [discriminate|].
    cbn [reachable noLF] in Hr. apply andb_true_iff in Hr. destruct Hr as [Hc _].
    apply negb_true_iff in Hc. rewrite Ascii.eqb_sym in Hc. rewrite Hc. discriminate.
Qed.

(** A text the lexer accepts has no line whose first character that is not
    white space is [d]. *)
Lemma lex_no_d_line (s : string) :
  forall (st : lexState) (b : bool),
    reachable st ->
    lex st s <> None ->
    (st <> AtBoundary -> b = false) ->
    hasDLine b s = false.
Proof.
  induction s as [|c r IH]; intros st b Hr Hlex Hb; [reflexivity|].
  simpl in Hlex. destruct (step st c) as [[st' toks]|] eqn:Hstep; [|contradiction].
  assert (Hlex' : lex st' r <> None) by (destruct (lex st' r); [discriminate|exact Hlex]).
  pose proof (step_reachable _ _ _ _ Hr Hstep) as Hr'.
  simpl. destruct (Ascii.eqb c LF) eqn:Ec.
  - apply Ascii.eqb_eq in Ec. subst c.
    apply (IH st'); auto.
    intros Hn. exfalso. apply Hn. exact (step_LF _ _ _ Hr Hstep).
  - destruct b.
    + assert (Hst : st = AtBoundary).
      { destruct st; try reflexivity; (assert (true = false) by (apply Hb; discriminate));
          discriminate. }
      subst st. simpl in Hstep.
      destruct (Js.isWhiteSpace c) eqn:Ew.
      * apply (IH st'); auto.
        intros Hn. exfalso. apply Hn. exact (stepBoundary_space _ _ _ Ew Hstep).
      * destruct (Ascii.eqb c "d") eqn:Ed.
        -- apply Ascii.eqb_eq in Ed. subst c.
           rewrite stepBoundary_not_d in Hstep. discriminate.
        -- apply (IH st'); auto.
    + apply (IH st'); auto.
Qed.

(** The reference parser accepts no text with a [data:] line, and neither
    the empty text nor [[DONE]]. *)
Lemma parse_no_data_line : Spec.jsonTextHasNoDataLine parse.
Proof.
  intros text Hp. apply no_d_line_no_data_line.
  apply (lex_no_d_line text AtBoundary true); simpl; auto.
  - unfold parse in Hp. destruct (lex AtBoundary text); [discriminate|contradiction].
  - intros H. contradiction.
Qed.

Lemma parse_rejects_empty_and_done : Spec.rejectsEmptyAndDone parse.
Proof. split; reflexivity. Qed.

End JsonLineFacts.

(* ================================================================== *)
(** * The upstream dispatcher: the message of an upstream error *)
(* ================================================================== *)

Module ExtractionFacts.

Import GeminiClient.

(** The object lookup of the code is the object rule. *)
Lemma fromJsonObject_objectRule (v : Json.value) :
  fromJsonObject v = Spec.objectRule v.
Proof.
  assert (T : forall m, nonEmptyTrimmed m
                        = match m with
                          | Some v' => Spec.stringAt v' []
                          | None => None
                          end).
  { intros [[| | |s| |]|]; simpl; try reflexivity.
    unfold Js.truthy. destruct (String.eqb (Js.trim s) ""); reflexivity. }
  unfold fromJsonObject, Spec.objectRule.
  destruct v as [| | | |items|fields]; try reflexivity.
  unfold member. cbn [Spec.stringAt].
  rewrite (T (Js.lookup fields "message")).
  destruct (Js.lookup fields "error") as [e|]; [|reflexivity].
  destruct e as [| | | |items|efields]; cbn [isObjectValue Spec.stringAt]; try reflexivity.
  rewrite (T (Js.lookup efields "message")). reflexivity.
Qed.

Section Extraction.

Variable JSON_parse : string -> option Json.value.

Hypothesis no_data_line : Spec.jsonTextHasNoDataLine JSON_parse.
Hypothesis rejects : Spec.rejectsEmptyAndDone JSON_parse.

Lemma firstSseMessage_firstMessage (lines : list string) :
  firstSseMessage JSON_parse lines
  = Spec.firstMessage (map (Spec.frameMessage JSON_parse) lines).
Proof.
  destruct rejects as [Hempty Hdone].
  induction lines as [|line rest IH]; [reflexivity|].
  cbn [firstSseMessage map Spec.firstMessage].
  unfold Spec.frameMessage at 1.
  set (payload := Js.trim (Js.slice_from 5 line)).
  unfold Js.truthy.
  destruct (String.eqb_spec payload "") as [E|_]; simpl.
  { rewrite E, Hempty. exact IH. }
  destruct (String.eqb_spec payload "[DONE]") as [E|_].
  { rewrite E, Hdone. exact IH. }
  unfold tryParseJson. rewrite fromJsonObject_objectRule.
  destruct (JSON_parse payload) as [frame|].
  - destruct (Spec.objectRule frame); [reflexivity|exact IH].
  - exact IH.
Qed.

Lemma extractAxiosErrorMessageFromText_textRule (rawText : string) :
  extractAxiosErrorMessageFromText JSON_parse rawText = Spec.textRule JSON_parse rawText.
Proof.
  destruct rejects as [Hempty Hdone].
  unfold extractAxiosErrorMessageFromText, Spec.textRule.
  set (text := Js.trim rawText).
  unfold Js.truthy. destruct (String.eqb_spec text "") as [E|_]; simpl.
  { rewrite E, Hempty. reflexivity. }
  unfold sseLinesOf. rewrite firstSseMessage_firstMessage.
  unfold tryParseJson. rewrite fromJsonObject_objectRule.
  destruct (JSON_parse text) as [v|] eqn:Hp.
  - rewrite (no_data_line text) by (rewrite Hp; discriminate). reflexivity.
  - destruct (Spec.firstMessage _); reflexivity.
Qed.

(** C3.  The message extracted from an upstream error payload is: for an
    object, the trimmed non-empty string at [.error.message], else the one
    at [.message]; for a string or a byte buffer, what the object lookup
    gives on the whole text parsed as JSON and, when the text does not
    parse, the first message that the object lookup gives on the decoded
    frames of the [data:] lines; and [null] when none is found. *)
Theorem extractAxiosErrorMessage_follows_rule (responseData : ResponseData) :
  extractAxiosErrorMessage JSON_parse responseData
  = Spec.extractionRule JSON_parse responseData.
Proof.
  destruct responseData as [|v|utf8|stream];
    unfold extractAxiosErrorMessage, extractAxiosErrorMessageFromObject,
           Spec.extractionRule.
  - reflexivity.
  - rewrite fromJsonObject_objectRule.
    destruct v as [| | |s|items|fields]; try reflexivity.
    + apply extractAxiosErrorMessageFromText_textRule.
    + destruct (Spec.objectRule (Json.Object fields)); reflexivity.
  - apply extractAxiosErrorMessageFromText_textRule.
  - destruct (readStreamAsText stream) as [text|]; [|reflexivity].
    rewrite <- extractAxiosErrorMessageFromText_textRule.
    unfold Js.truthy. destruct (String.eqb_spec text "") as [->|_]; reflexivity.
Qed.

End Extraction.

(** The reference parser at work: a JSON text, and the frames of an
    event stream. *)
Example extract_from_json_text :
  Json.parse Samples.json_error_text
  = Some (Json.Object [("error", Json.Object [("message", Json.Str " token expired ")])])
  /\ extractAxiosErrorMessage Json.parse (DataJson (Json.Str Samples.json_error_text))
     = Some "token expired".
Proof. split; reflexivity. Qed.

Example extract_from_event_stream :
  Json.parse Samples.sse_error_text = None /\
  extractAxiosErrorMessage Json.parse (DataBuffer Samples.sse_error_text)
  = Some "quota exceeded".
Proof. split; reflexivity. Qed.

Lemma extractAxiosErrorMessage_follows_rule_witness :
  extractAxiosErrorMessage Json.parse (DataBuffer Samples.sse_error_text)
  = Spec.extractionRule Json.parse (DataBuffer Samples.sse_error_text).
Proof.
  apply (extractAxiosErrorMessage_follows_rule Json.parse).
  - exact JsonLineFacts.parse_no_data_line.
  - exact JsonLineFacts.parse_rejects_empty_and_done.
Defined.

End ExtractionFacts.

(* ================================================================== *)
(** * The request transformer: thinking and tools *)
(* ================================================================== *)

Module TransformerFacts.

Import ClaudeRequestMapper.

Lemma length_N_nat (s : string) : Js.length s = N.of_nat (String.length s).
Proof.
  induction s as [|c s IH]; [reflexivity|].
  cbn [Js.length String.length]. rewrite IH. lia.
Qed.

(** A signature is valid when it is not empty and has at least 10
    characters; the store holds a valid one when some stored signature is. *)
Lemma hasValid_iff (signatures : SignatureStore.t) :
  SignatureStore.hasValid signatures = true
  <-> exists sig, In sig signatures /\ sig <> "" /\ (10 <= String.length sig)%nat.
Proof.
  unfold SignatureStore.hasValid. rewrite existsb_exists.
  split; intros (sig & Hin & H); exists sig; (split; [exact Hin|]).
  - unfold SignatureStore.isValid, Js.truthy in H.
    apply andb_true_iff in H. destruct H as [Hne Hlen].
    apply negb_true_iff, String.eqb_neq in Hne. apply N.leb_le in Hlen.
    rewrite length_N_nat in Hlen. split; [exact Hne|lia].
  - destruct H as [Hne Hlen]. unfold SignatureStore.isValid, Js.truthy.
    apply andb_true_iff. split.
    + apply negb_true_iff, String.eqb_neq. exact Hne.
    + apply N.leb_le. rewrite length_N_nat. lia.
Qed.

Section Transformer.

Variable modelTable : list (string * string).
Variable identityBlock : string.

#[local] Abbreviation transformClaudeRequestIn :=
  (transformClaudeRequestIn modelTable identityBlock).

(** C2.  For a request with thinking enabled: when it declares at least
    one tool and the Signature Store holds no valid signature, the
    transformed request has no [generationConfig.thinkingConfig]; otherwise
    it has one, with [thinkingBudget] equal to [thinking.budget_tokens]. *)
Theorem thinkingConfig_dropped_without_signature
    (req : ClaudeRequest) (project_id : string) (signatures : SignatureStore.t)
    (th : Thinking) :
  thinking req = Some th ->
  type th = "enabled" ->
  let out := thinkingConfig (generationConfig
               (request (transformClaudeRequestIn req project_id signatures))) in
  let unsigned_tools :=
    (exists tool rest, tools req = Some (tool :: rest)) /\
    ~ (exists sig, In sig signatures /\ sig <> "" /\ (10 <= String.length sig)%nat) in
  (unsigned_tools -> out = None) /\
  (~ unsigned_tools -> out = Some {| thinkingBudget := budget_tokens th |}).
Proof.
  intros Hth Hty out unsigned_tools. subst out unsigned_tools.
  cbn [transformClaudeRequestIn ClaudeRequestMapper.transformClaudeRequestIn
       request generationConfig thinkingConfig].
  unfold buildThinkingConfig, declaresTools. rewrite Hth, Hty, String.eqb_refl.
  rewrite <- hasValid_iff.
  split.
  - intros [(tool & rest & Ht) Hv]. rewrite Ht.
    destruct (SignatureStore.hasValid signatures); [contradiction|reflexivity].
  - intros Hn. destruct (tools req) as [[|tool rest]|]; try reflexivity.
    destruct (SignatureStore.hasValid signatures) eqn:Hv; [reflexivity|].
    exfalso. apply Hn. split; [exists tool, rest; reflexivity|discriminate].
Qed.

End Transformer.

Lemma thinkingConfig_dropped_without_signature_witness :
  thinkingConfig (generationConfig
    (request (transformClaudeRequestIn [] "" Samples.thinking_with_tools
                "test-project" SignatureStore.clear)))
  = None.
Proof.
  apply (thinkingConfig_dropped_without_signature [] "" Samples.thinking_with_tools
           "test-project" SignatureStore.clear
           {| type := "enabled"; budget_tokens := 1000 |}).
  - reflexivity.
  - reflexivity.
  - split; [exists {| tool_name := "get_weather" |}, []; reflexivity|].
    intros (sig & [] & _).
Defined.

(** Scenarios 1 and 3 of the specification. *)
Example pure_thinking_keeps_budget :
  thinkingConfig (generationConfig
    (request (transformClaudeRequestIn [] "" Samples.pure_thinking
                "test-project" SignatureStore.clear)))
  = Some {| thinkingBudget := 1000 |}.
Proof. reflexivity. Qed.

Example stored_signature_keeps_thinking :
  thinkingConfig (generationConfig
    (request (transformClaudeRequestIn [] "" Samples.thinking_with_tools
                "test-project" Samples.stored_signature)))
  = Some {| thinkingBudget := 1000 |}.
Proof. reflexivity. Qed.

End TransformerFacts.

(* ================================================================== *)
(** * Doubles: rounding never passes an integer bound *)
(* ================================================================== *)

Module DoubleFacts.

Import JsNumber Doubles.

(** ** The number of binary digits *)

Lemma digits2_pos_bounds (p : positive) :
  2 ^ (Zpos (digits2_pos p) - 1) <= Zpos p < 2 ^ Zpos (digits2_pos p).
Proof.
  induction p as [p IH|p IH|]; cbn [digits2_pos].
  - rewrite Pos2Z.inj_succ. change (Zpos p~1) with (2 * Zpos p + 1).
    replace (Z.succ (Zpos (digits2_pos p)) - 1) with (Z.succ (Zpos (digits2_pos p) - 1)) by lia.
    rewrite !Z.pow_succ_r by lia.
    set (A := 2 ^ (Zpos (digits2_pos p) - 1)) in *.
    set (B := 2 ^ Zpos (digits2_pos p)) in *. clearbody A B. lia.
  - rewrite Pos2Z.inj_succ. change (Zpos p~0) with (2 * Zpos p).
    replace (Z.succ (Zpos (digits2_pos p)) - 1) with (Z.succ (Zpos (digits2_pos p) - 1)) by lia.
    rewrite !Z.pow_succ_r by lia.
    set (A := 2 ^ (Zpos (digits2_pos p) - 1)) in *.
    set (B := 2 ^ Zpos (digits2_pos p)) in *. clearbody A B. lia.
  - simpl. lia.
Qed.

Lemma Zdigits2_nonneg (m : Z) : 0 <= Zdigits2 m.
Proof. destruct m; simpl; lia. Qed.

Lemma Zdigits2_bounds (m : Z) :
  0 < m -> 2 ^ (Zdigits2 m - 1) <= m < 2 ^ Zdigits2 m.
Proof.
  destruct m as [|p|p]; try lia. intros _. apply digits2_pos_bounds.
Qed.

(** A positive integer below [2^k] has at most [k] digits. *)
Lemma Zdigits2_le (m k : Z) : 0 < m -> m < 2 ^ k -> Zdigits2 m <= k.
Proof.
  intros Hm Hk. destruct (Zdigits2_bounds m Hm) as [Hlo _].
  destruct (Z.le_gt_cases (Zdigits2 m) k) as [H|H]; [exact H|exfalso].
  assert (0 <= k).
  { destruct (Z.le_gt_cases 0 k) as [H0|H0]; [exact H0|].
    rewrite Z.pow_neg_r in Hk by lia. lia. }
  assert (2 ^ k <= 2 ^ (Zdigits2 m - 1)) by (apply Z.pow_le_mono_r; lia).
  lia.
Qed.

(** A positive integer from [2^(k-1)] on has at least [k] digits. *)
Lemma Zdigits2_ge (m k : Z) : 2 ^ (k - 1) <= m -> 0 < m -> k <= Zdigits2 m.
Proof.
  intros Hk Hm. destruct (Zdigits2_bounds m Hm) as [_ Hhi].
  destruct (Z.le_gt_cases k (Zdigits2 m)) as [H|H]; [exact H|exfalso].
  pose proof (Zdigits2_nonneg m).
  assert (2 ^ Zdigits2 m <= 2 ^ (k - 1)) by (apply Z.pow_le_mono_r; lia).
  lia.
Qed.

(** ** Shifting a mantissa to the right *)

Lemma Shifted_1 (r : shr_record) : 0 <= shr_m r -> Shifted 1 r (shr_1 r).
Proof.
  destruct r as [m rr ss]. unfold Shifted, flags. cbn [shr_m shr_r shr_s].
  intros Hm. change (2 ^ 1) with 2.
  destruct m as [|[p|p|]|p]; cbn [shr_1 shr_m shr_r shr_s]; try lia.
  - split; [lia|]. split; [reflexivity|]. destruct rr, ss; simpl; auto; discriminate.
  - split; [lia|]. split; [change (Zpos p~1) with (2 * Zpos p + 1); apply Z.div_unique with 1; lia|].
    intros _. right. change (Zpos p~1) with (2 * Zpos p + 1).
    rewrite Z.add_comm, Z.mul_comm, Z.mod_add by lia. discriminate.
  - split; [lia|]. split; [change (Zpos p~0) with (2 * Zpos p); apply Z.div_unique with 0; lia|].
    destruct rr, ss; simpl; auto; discriminate.
  - split; [lia|]. split; [reflexivity|]. intros _. right. discriminate.
Qed.

Lemma Shifted_trans (a b : Z) (r r1 r2 : shr_record) :
  0 <= a -> 0 <= b -> 0 <= shr_m r ->
  Shifted a r r1 -> Shifted b r1 r2 -> Shifted (a + b) r r2.
Proof.
  intros Ha Hb Hm (H1 & E1 & F1) (H2 & E2 & F2).
  assert (Pa : 0 < 2 ^ a) by (apply Z.pow_pos_nonneg; lia).
  assert (Pb : 0 < 2 ^ b) by (apply Z.pow_pos_nonneg; lia).
  split; [exact H2|]. split.
  - rewrite E2, E1, Z.pow_add_r, Z.div_div by lia. reflexivity.
  - intros F.
    destruct (Z.eq_dec (shr_m r mod 2 ^ (a + b)) 0) as [E|N]; [|right; exact N].
    left. rewrite Z.pow_add_r in E by lia.
    apply Z.mod_divide in E; [|lia]. destruct E as [t Et].
    assert (Ea : shr_m r mod 2 ^ a = 0).
    { rewrite Et. replace (t * (2 ^ a * 2 ^ b)) with (t * 2 ^ b * 2 ^ a) by ring.
      apply Z.mod_mul. lia. }
    assert (Eb : shr_m r1 mod 2 ^ b = 0).
    { rewrite E1, Et. replace (t * (2 ^ a * 2 ^ b)) with (t * 2 ^ b * 2 ^ a) by ring.
      rewrite Z.div_mul by lia. apply Z.mod_mul. lia. }
    destruct (F2 F) as [F'|N]; [|contradiction].
    destruct (F1 F') as [F''|N]; [exact F''|contradiction].
Qed.

Lemma Shifted_iter (p : positive) (r : shr_record) :
  0 <= shr_m r -> Shifted (Zpos p) r (iter_pos shr_1 p r).
Proof.
  revert r. induction p as [p IH|p IH|]; intros r Hm; cbn [iter_pos].
  - pose proof (Shifted_1 r Hm) as S1.
    pose proof (IH _ (proj1 S1)) as S2.
    pose proof (IH _ (proj1 S2)) as S3.
    replace (Zpos p~1) with (1 + Zpos p + Zpos p) by lia.
    refine (Shifted_trans (1 + Zpos p) (Zpos p) r _ _ _ _ Hm _ S3); try lia.
    refine (Shifted_trans 1 (Zpos p) r _ _ _ _ Hm S1 S2); lia.
  - pose proof (IH _ Hm) as S1.
    pose proof (IH _ (proj1 S1)) as S2.
    replace (Zpos p~0) with (Zpos p + Zpos p) by lia.
    refine (Shifted_trans (Zpos p) (Zpos p) r _ _ _ _ Hm S1 S2); lia.
  - apply Shifted_1. exact Hm.
Qed.

(** [shr] by [n] bits shifts by [n] when [n] is positive and does nothing
    otherwise. *)
Lemma shr_Shifted (r : shr_record) (e n : Z) :
  0 <= shr_m r ->
  Shifted (Z.max n 0) r (fst (shr r e n)) /\ snd (shr r e n) = e + Z.max n 0.
Proof.
  intros Hm. destruct n as [|p|p]; cbn [shr fst snd].
  - split; [|lia]. change (Z.max 0 0) with 0.
    split; [exact Hm|]. split; [rewrite Z.div_1_r; reflexivity|auto].
  - replace (Z.max (Zpos p) 0) with (Zpos p) by lia.
    split; [apply Shifted_iter; exact Hm|reflexivity].
  - replace (Z.max (Zneg p) 0) with 0 by lia.
    split; [|lia]. split; [exact Hm|]. split; [rewrite Z.div_1_r; reflexivity|auto].
Qed.

Lemma round_nearest_even_cases (r : shr_record) :
  round_nearest_even (shr_m r) (loc_of_shr_record r) = shr_m r \/
  (round_nearest_even (shr_m r) (loc_of_shr_record r) = shr_m r + 1 /\ flags r = true).
Proof.
  destruct r as [m [|] [|]]; cbn [shr_m loc_of_shr_record round_nearest_even flags shr_r shr_s orb];
    auto.
  destruct (Z.even m); auto.
Qed.

Lemma flags_of_loc (m : Z) (l : location) :
  flags (shr_record_of_loc m l) = true -> l <> loc_Exact.
Proof.
  destruct l as [|[| |]]; cbn; intros H; try discriminate H; intros E; discriminate E.
Qed.

(** ** Values *)

#[local] Open Scope Q_scope.

Lemma two_neq_0 : ~ 2 == 0.
Proof. discriminate. Qed.

Lemma pow2_pos (e : Z) : 0 < 2 ^ e.
Proof. apply Qpower_0_lt. reflexivity. Qed.

Lemma pow2_add (a b : Z) : 2 ^ (a + b) == 2 ^ a * 2 ^ b.
Proof. apply Qpower_plus. exact two_neq_0. Qed.

Lemma pow2_Z (k : Z) : (0 <= k)%Z -> 2 ^ k == inject_Z (2 ^ k).
Proof. intros H. rewrite (Zpower_Qpower 2 k H). reflexivity. Qed.

Lemma pow2_le_inv (a b : Z) : 2 ^ a <= 2 ^ b -> (a <= b)%Z.
Proof. intros H. apply (Qpower_le_compat_l_inv 2); [exact H|reflexivity]. Qed.

Lemma scaled_mono (m m' e : Z) : (m <= m')%Z -> scaled m e <= scaled m' e.
Proof.
  intros H. unfold scaled. apply Qmult_le_compat_r.
  - rewrite <- Zle_Qle. exact H.
  - apply Qlt_le_weak, pow2_pos.
Qed.

Lemma scaled_mono_lt (m m' e : Z) : (m < m')%Z -> scaled m e < scaled m' e.
Proof.
  intros H. unfold scaled. apply Qmult_lt_compat_r.
  - apply pow2_pos.
  - rewrite <- Zlt_Qlt. exact H.
Qed.

Lemma scaled_nonneg (m e : Z) : (0 <= m)%Z -> 0 <= scaled m e.
Proof.
  intros H. unfold scaled. apply Qmult_le_0_compat.
  - change 0 with (inject_Z 0). rewrite <- Zle_Qle. exact H.
  - apply Qlt_le_weak, pow2_pos.
Qed.

Lemma scaled_shift (m e k : Z) : (0 <= k)%Z -> scaled (m * 2 ^ k) e == scaled m (e + k).
Proof.
  intros H. unfold scaled. rewrite pow2_add, (pow2_Z k H), inject_Z_mult. ring.
Qed.

(** Dropping [k] bits does not increase the value, and decreases it when
    a bit that is not zero is dropped. *)
Lemma scaled_div_le (m e k : Z) :
  (0 <= k)%Z -> scaled (m / 2 ^ k) (e + k) <= scaled m e.
Proof.
  intros H. rewrite <- scaled_shift by exact H. apply scaled_mono.
  assert (0 < 2 ^ k)%Z by (apply Z.pow_pos_nonneg; lia).
  rewrite Z.mul_comm. apply Z.mul_div_le. lia.
Qed.

Lemma scaled_div_lt (m e k : Z) :
  (0 <= k)%Z -> (m mod 2 ^ k <> 0)%Z -> scaled (m / 2 ^ k) (e + k) < scaled m e.
Proof.
  intros H Hmod. rewrite <- scaled_shift by exact H. apply scaled_mono_lt.
  assert (P : (0 < 2 ^ k)%Z) by (apply Z.pow_pos_nonneg; lia).
  pose proof (Z.div_mod m (2 ^ k)) as E.
  pose proof (Z.mod_pos_bound m (2 ^ k) P) as B.
  set (q := (m / 2 ^ k)%Z) in *. set (r := (m mod 2 ^ k)%Z) in *.
  set (t := (2 ^ k)%Z) in *. clearbody q r t. nia.
Qed.

(** On a grid of step [2^e] with [e <= 0] the integers are grid points:
    what lies strictly below an integer has its successor at most there. *)
Lemma scaled_succ_le (q e C : Z) :
  (e <= 0)%Z -> scaled q e < inject_Z C -> scaled (q + 1) e <= inject_Z C.
Proof.
  intros He H. unfold scaled in *.
  assert (E : 2 ^ e * inject_Z (2 ^ (- e)) == 1).
  { rewrite <- pow2_Z by lia. rewrite <- pow2_add.
    replace (e + - e)%Z with 0%Z by lia. reflexivity. }
  assert (Hq : (q < C * 2 ^ (- e))%Z).
  { rewrite Zlt_Qlt, inject_Z_mult.
    setoid_replace (inject_Z q) with (inject_Z q * 2 ^ e * inject_Z (2 ^ (- e)))
      by (rewrite <- Qmult_assoc, E; ring).
    apply Qmult_lt_compat_r; [|exact H].
    rewrite <- pow2_Z by lia. apply pow2_pos. }
  assert (Hq1 : (q + 1 <= C * 2 ^ (- e))%Z) by lia.
  rewrite Zle_Qle, inject_Z_mult in Hq1.
  setoid_replace (inject_Z C) with (inject_Z C * inject_Z (2 ^ (- e)) * 2 ^ e)
    by (rewrite <- Qmult_assoc, (Qmult_comm (inject_Z (2 ^ (- e)))), E; ring).
  apply Qmult_le_compat_r; [exact Hq1|]. apply Qlt_le_weak, pow2_pos.
Qed.

(** A positive mantissa of [d] digits stands for at least [2^(d - 1 + e)]. *)
Lemma scaled_digits (m e : Z) :
  (0 < m)%Z -> 2 ^ (Zdigits2 m - 1 + e) <= scaled m e.
Proof.
  intros Hm. destruct (Zdigits2_bounds m Hm) as [Hlo _].
  pose proof (Zdigits2_nonneg m).
  assert (Hd : (0 <= Zdigits2 m - 1)%Z).
  { clear Hlo. destruct m as [|p|p]; try lia. cbn [Zdigits2]. lia. }
  rewrite pow2_add, (pow2_Z _ Hd). apply scaled_mono. exact Hlo.
Qed.

(** What stays below [2^53] has its digits and exponent add up to at most
    53. *)
Lemma digits_below (m e C : Z) :
  (0 < m)%Z -> (C < 2 ^ 53)%Z -> scaled m e <= inject_Z C ->
  (Zdigits2 m + e <= 53)%Z.
Proof.
  intros Hm HC H.
  destruct (Z.le_gt_cases (Zdigits2 m + e) 53) as [Hd|Hd]; [exact Hd|exfalso].
  assert (H53 : 2 ^ 53 <= 2 ^ (Zdigits2 m - 1 + e)).
  { apply Qpower_le_compat_l; [lia|discriminate]. }
  pose proof (scaled_digits m e Hm) as Hs.
  assert (HC' : inject_Z C < 2 ^ 53).
  { rewrite (pow2_Z 53) by lia. rewrite <- Zlt_Qlt. exact HC. }
  apply (Qlt_irrefl (inject_Z C)).
  eapply Qlt_le_trans; [exact HC'|].
  eapply Qle_trans; [exact H53|]. eapply Qle_trans; [exact Hs|exact H].
Qed.

(** ** Rounding *)

Lemma shr_m_of_loc (m : Z) (l : location) : shr_m (shr_record_of_loc m l) = m.
Proof. destruct l as [|[| |]]; reflexivity. Qed.

Lemma fexp_unfold (x : Z) : fexp prec emax x = Z.max (x - 53) (-1074).
Proof. reflexivity. Qed.

(** The rounding of the library, on a mantissa and an exponent that stand
    for at most an integer [C] below [2^53] (strictly less, on a grid
    that has the integers, when the location says that more is to come):
    the result is a finite number from 0 to [C]. *)
Lemma binary_round_aux_below (m e : Z) (l : location) (C : Z) :
  (0 <= m)%Z -> (0 <= C < 2 ^ 53)%Z ->
  scaled m e <= inject_Z C ->
  (l <> loc_Exact -> scaled m e < inject_Z C /\ (e <= 0)%Z) ->
  Below (binary_round_aux prec emax false m e l) (inject_Z C).
Proof.
  intros Hm HC Hle Hloc.
  unfold binary_round_aux, shr_fexp.
  set (n := (fexp prec emax (Zdigits2 m + e) - e)%Z).
  assert (Hm0 : (0 <= shr_m (shr_record_of_loc m l))%Z)
    by (rewrite shr_m_of_loc; exact Hm).
  destruct (shr_Shifted (shr_record_of_loc m l) e n Hm0) as [(Hq0 & Eq & Fq) Ee].
  destruct (shr (shr_record_of_loc m l) e n) as [r1 e1]. cbn [fst snd] in *.
  rewrite shr_m_of_loc in Eq, Fq.
  set (j := Z.max n 0) in *. assert (Hj : (0 <= j)%Z) by (unfold j; lia).
  set (m2 := round_nearest_even (shr_m r1) (loc_of_shr_record r1)).
  assert (Hq_le : scaled (shr_m r1) e1 <= scaled m e).
  { rewrite Eq, Ee. apply scaled_div_le. exact Hj. }
  assert (Hm2 : (0 <= m2)%Z /\ scaled m2 e1 <= inject_Z C).
  { destruct (round_nearest_even_cases r1) as [E|[E F]]; fold m2 in E; rewrite E.
    - split; [exact Hq0|]. eapply Qle_trans; [exact Hq_le|exact Hle].
    - split; [lia|]. apply scaled_succ_le.
      + (* the grid has the integers *)
        destruct (Fq F) as [F0|Hmod].
        * apply flags_of_loc in F0. destruct (Hloc F0) as [_ He].
          destruct (Z.le_gt_cases n 0) as [Hn|Hn].
          -- rewrite Ee. unfold j. lia.
          -- rewrite Ee. unfold j. replace (Z.max n 0) with n by lia.
             unfold n. rewrite fexp_unfold.
             destruct (Z.eq_dec m 0) as [->|Hne].
             ++ unfold n in Hn. rewrite fexp_unfold in Hn. cbn [Zdigits2] in *. lia.
             ++ assert (Hd := digits_below m e C ltac:(lia) ltac:(lia) Hle). lia.
        * destruct (Z.le_gt_cases n 0) as [Hn|Hn].
          -- exfalso. apply Hmod. unfold j. replace (Z.max n 0) with 0%Z by lia.
             apply Z.mod_1_r.
          -- rewrite Ee. unfold j. replace (Z.max n 0) with n by lia.
             unfold n. rewrite fexp_unfold.
             destruct (Z.eq_dec m 0) as [->|Hne].
             ++ unfold n in Hn. rewrite fexp_unfold in Hn. cbn [Zdigits2] in *. lia.
             ++ assert (Hd := digits_below m e C ltac:(lia) ltac:(lia) Hle). lia.
      + (* strictly below the bound *)
        destruct (Fq F) as [F0|Hmod].
        * apply flags_of_loc in F0. destruct (Hloc F0) as [Hlt _].
          eapply Qle_lt_trans; [exact Hq_le|exact Hlt].
        * eapply Qlt_le_trans; [|exact Hle].
          rewrite Eq, Ee. apply scaled_div_lt; assumption. }
  destruct Hm2 as [Hm2 Hm2le]. clearbody m2.
  set (n2 := (fexp prec emax (Zdigits2 m2 + e1) - e1)%Z).
  assert (Hm20 : (0 <= shr_m (shr_record_of_loc m2 loc_Exact))%Z) by exact Hm2.
  destruct (shr_Shifted (shr_record_of_loc m2 loc_Exact) e1 n2 Hm20)
    as [(Hf0 & Ef & _) Ee2].
  destruct (shr (shr_record_of_loc m2 loc_Exact) e1 n2) as [r2 e2]. cbn [fst snd] in *.
  cbn [shr_record_of_loc shr_m] in Ef.
  assert (Hfin : scaled (shr_m r2) e2 <= inject_Z C).
  { eapply Qle_trans; [|exact Hm2le]. rewrite Ef, Ee2. apply scaled_div_le. lia. }
  destruct (shr_m r2) as [|mf|mf] eqn:Emf; [| |lia].
  - exists 0. split; [reflexivity|]. split; [apply Qle_refl|].
    change 0 with (inject_Z 0). rewrite <- Zle_Qle. lia.
  - assert (He2 : (e2 <= 971)%Z).
    { assert (H1 : 2 ^ e2 <= scaled (Zpos mf) e2).
      { unfold scaled. rewrite <- (Qmult_1_l (2 ^ e2)) at 1.
        apply Qmult_le_compat_r; [|apply Qlt_le_weak, pow2_pos].
        change 1 with (inject_Z 1). rewrite <- Zle_Qle. lia. }
      assert (H2 : 2 ^ e2 <= 2 ^ 53).
      { eapply Qle_trans; [exact H1|]. eapply Qle_trans; [exact Hfin|].
        rewrite (pow2_Z 53) by lia. rewrite <- Zle_Qle. lia. }
      apply pow2_le_inv in H2. lia. }
    change (emax - prec)%Z with 971%Z.
    destruct (Z.leb_spec e2 971) as [_|Hgt]; [|lia].
    exists (scaled (Zpos mf) e2). split; [reflexivity|].
    split; [apply scaled_nonneg; lia|exact Hfin].
Qed.

(** ** Aligning mantissas *)

Lemma iter_xO_value (m k : positive) : Zpos (Pos.iter xO m k) = (Zpos m * 2 ^ Zpos k)%Z.
Proof.
  induction k as [|k IH] using Pos.peano_ind.
  - cbn [Pos.iter]. change (2 ^ 1)%Z with 2%Z. lia.
  - rewrite Pos.iter_succ. change (Zpos (Pos.iter xO m k)~0) with (2 * Zpos (Pos.iter xO m k))%Z.
    rewrite IH, Pos2Z.inj_succ, Z.pow_succ_r by lia. ring.
Qed.

(** [shl_align] changes the representation, not the value; when it is
    asked for a smaller exponent it gives that exponent. *)
Lemma shl_align_value (m : positive) (e e' : Z) :
  scaled (Zpos (fst (shl_align m e e'))) (snd (shl_align m e e')) == scaled (Zpos m) e
  /\ ((e' <= e)%Z -> snd (shl_align m e e') = e').
Proof.
  unfold shl_align. destruct (e' - e)%Z as [|d|d] eqn:E; cbn [fst snd].
  - split; [reflexivity|lia].
  - split; [reflexivity|lia].
  - split; [|reflexivity]. rewrite iter_xO_value, scaled_shift by lia.
    replace (e' + Zpos d)%Z with e by lia. reflexivity.
Qed.

Lemma exact_scaled (m : positive) (e : Z) : exact false m e = scaled (Zpos m) e.
Proof. reflexivity. Qed.

Lemma exact_negative (m : positive) (e : Z) : exact true m e < 0.
Proof.
  unfold exact. cbn [cond_Zopp Z.opp].
  setoid_replace 0 with (0 * 2 ^ e) by ring.
  apply Qmult_lt_compat_r; [apply pow2_pos|reflexivity].
Qed.

(** A number that is not negative is a zero or has a positive sign. *)
Lemma Below_cases (x : number) (C : Q) :
  Below x C ->
  (exists s, x = S754_zero s) \/
  (exists m e, x = S754_finite false m e /\ scaled (Zpos m) e <= C).
Proof.
  intros (q & Hv & H0 & HC). destruct x as [s|s| |[|] m e]; try discriminate.
  - left. exists s. reflexivity.
  - exfalso. inversion Hv; subst. apply (Qlt_irrefl 0).
    eapply Qle_lt_trans; [exact H0|apply exact_negative].
  - right. exists m, e. split; [reflexivity|]. inversion Hv; subst. exact HC.
Qed.

Lemma Below_zero (s : bool) (C : Q) : 0 <= C -> Below (S754_zero s) C.
Proof. intros H. exists 0. split; [reflexivity|]. split; [apply Qle_refl|exact H]. Qed.

Lemma Below_finite (m : positive) (e : Z) (C : Q) :
  scaled (Zpos m) e <= C -> Below (S754_finite false m e) C.
Proof.
  intros H. exists (scaled (Zpos m) e). split; [reflexivity|].
  split; [apply scaled_nonneg; lia|exact H].
Qed.

Lemma Below_weaken (x : number) (C C' : Q) : C <= C' -> Below x C -> Below x C'.
Proof.
  intros H (q & Hv & H0 & HC). exists q. split; [exact Hv|]. split; [exact H0|].
  eapply Qle_trans; eassumption.
Qed.

(** The rounding of a positive integer mantissa, as [binary_round] does
    it. *)
Lemma binary_round_below (m : positive) (e C : Z) :
  (0 <= C < 2 ^ 53)%Z -> scaled (Zpos m) e <= inject_Z C ->
  Below (binary_round prec emax false m e) (inject_Z C).
Proof.
  intros HC H. unfold binary_round.
  destruct (shl_align_value m e (fexp prec emax (Zpos (digits2_pos m) + e))) as [Ev _].
  destruct (shl_align m e (fexp prec emax (Zpos (digits2_pos m) + e))) as [mz ez].
  cbn [fst snd] in Ev.
  apply binary_round_aux_below; [lia|exact HC| |intros N; contradiction].
  rewrite Ev. exact H.
Qed.

(** ** Sums *)

Lemma add_below (x y : number) (A B : Z) :
  (0 <= A)%Z -> (0 <= B)%Z -> (A + B < 2 ^ 53)%Z ->
  Below x (inject_Z A) -> Below y (inject_Z B) ->
  Below (add x y) (inject_Z (A + B)).
Proof.
  intros HA HB Hsum Hx Hy.
  assert (HAB : inject_Z A <= inject_Z (A + B)) by (rewrite <- Zle_Qle; lia).
  assert (HBA : inject_Z B <= inject_Z (A + B)) by (rewrite <- Zle_Qle; lia).
  destruct (Below_cases _ _ Hx) as [[sx ->]|(mx & ex & -> & Hmx)];
    destruct (Below_cases _ _ Hy) as [[sy ->]|(my & ey & -> & Hmy)].
  - destruct sx, sy; cbn; apply Below_zero; change 0 with (inject_Z 0);
      rewrite <- Zle_Qle; lia.
  - cbn. apply Below_finite. eapply Qle_trans; eassumption.
  - cbn. apply Below_finite. eapply Qle_trans; eassumption.
  - unfold add, SFadd. cbn [cond_Zopp].
    set (ez := Z.min ex ey).
    destruct (shl_align_value mx ex ez) as [Ex Hex].
    destruct (shl_align_value my ey ez) as [Ey Hey].
    rewrite Hex in Ex by (unfold ez; lia). rewrite Hey in Ey by (unfold ez; lia).
    set (mx' := fst (shl_align mx ex ez)) in *.
    set (my' := fst (shl_align my ey ez)) in *.
    change (Zpos mx' + Zpos my')%Z with (Zpos (mx' + my')).
    cbn [binary_normalize].
    apply binary_round_below; [lia|].
    rewrite Pos2Z.inj_add. unfold scaled in *. rewrite inject_Z_plus, inject_Z_plus.
    rewrite Qmult_plus_distr_l. apply Qplus_le_compat; [rewrite Ex|rewrite Ey]; assumption.
Qed.

(** ** Integers *)

Lemma Zdigits2_shift (m k : positive) :
  Zdigits2 (Zpos m * 2 ^ Zpos k) = (Zdigits2 (Zpos m) + Zpos k)%Z.
Proof.
  destruct (Zdigits2_bounds (Zpos m) ltac:(lia)) as [Hlo Hhi].
  pose proof (Zdigits2_nonneg (Zpos m)) as Hd.
  assert (Hd1 : (1 <= Zdigits2 (Zpos m))%Z) by (cbn [Zdigits2]; lia).
  assert (P : (0 < 2 ^ Zpos k)%Z) by (apply Z.pow_pos_nonneg; lia).
  apply Z.le_antisymm.
  - apply Zdigits2_le; [nia|]. rewrite Z.pow_add_r by lia. nia.
  - apply Zdigits2_ge; [|nia].
    replace (Zdigits2 (Zpos m) + Zpos k - 1)%Z with (Zdigits2 (Zpos m) - 1 + Zpos k)%Z by lia.
    rewrite Z.pow_add_r by lia. nia.
Qed.

Lemma shl_align_digits (m : positive) (e e' : Z) :
  (Zdigits2 (Zpos (fst (shl_align m e e'))) + snd (shl_align m e e')
   = Zdigits2 (Zpos m) + e)%Z.
Proof.
  unfold shl_align. destruct (e' - e)%Z as [|d|d] eqn:E; cbn [fst snd]; try reflexivity.
  rewrite iter_xO_value, Zdigits2_shift. lia.
Qed.

(** An integer below [2^53] is a double: [ofZ] is exact on it. *)
Lemma ofZ_exact (z : Z) :
  (0 < z < 2 ^ 53)%Z ->
  exists m e, ofZ z = S754_finite false m e /\ scaled (Zpos m) e == inject_Z z.
Proof.
  intros [Hz0 Hz]. destruct z as [|p|p]; try lia.
  assert (Hd : (1 <= Zdigits2 (Zpos p) <= 53)%Z).
  { split; [cbn [Zdigits2]; lia|apply Zdigits2_le; lia]. }
  unfold ofZ. cbn [binary_normalize]. unfold binary_round.
  change (Zpos (digits2_pos p)) with (Zdigits2 (Zpos p)).
  set (e' := fexp prec emax (Zdigits2 (Zpos p) + 0)).
  assert (Ee' : e' = (Zdigits2 (Zpos p) - 53)%Z) by (unfold e'; rewrite fexp_unfold; lia).
  destruct (shl_align_value p 0 e') as [Ev Hsnd].
  pose proof (shl_align_digits p 0 e') as Hdig.
  destruct (shl_align p 0 e') as [mz ez]. cbn [fst snd] in *.
  rewrite Hsnd in * by lia.
  assert (Hdz : Zdigits2 (Zpos mz) = 53%Z) by lia.
  exists mz, e'. split.
  - unfold binary_round_aux, shr_fexp. rewrite Hdz.
    replace (fexp prec emax (53 + e') - e')%Z with 0%Z by (rewrite fexp_unfold; lia).
    cbn [shr shr_record_of_loc shr_m loc_of_shr_record round_nearest_even].
    rewrite Hdz.
    replace (fexp prec emax (53 + e') - e')%Z with 0%Z by (rewrite fexp_unfold; lia).
    cbn [shr shr_record_of_loc shr_m].
    change (emax - prec)%Z with 971%Z.
    destruct (Z.leb_spec e' 971) as [_|Hgt]; [reflexivity|lia].
  - rewrite Ev. unfold scaled. change (2 ^ 0) with 1. ring.
Qed.

Lemma ofZ_below (z : Z) : (0 <= z < 2 ^ 53)%Z -> Below (ofZ z) (inject_Z z).
Proof.
  intros [H0 H]. destruct (Z.eq_dec z 0) as [->|N].
  - apply Below_zero. apply Qle_refl.
  - destruct (ofZ_exact z ltac:(lia)) as (m & e & -> & Ev).
    apply Below_finite. rewrite Ev. apply Qle_refl.
Qed.

(** ** Products *)

Lemma mul_below (x y : number) (A B : Z) :
  (0 <= A)%Z -> (0 <= B)%Z -> (A * B < 2 ^ 53)%Z ->
  Below x (inject_Z A) -> Below y (inject_Z B) ->
  Below (mul x y) (inject_Z (A * B)).
Proof.
  intros HA HB Hprod Hx Hy.
  assert (H0 : 0 <= inject_Z (A * B)).
  { change 0 with (inject_Z 0). rewrite <- Zle_Qle. nia. }
  destruct (Below_cases _ _ Hx) as [[sx ->]|(mx & ex & -> & Hmx)];
    destruct (Below_cases _ _ Hy) as [[sy ->]|(my & ey & -> & Hmy)];
    try (cbn; apply Below_zero; exact H0).
  unfold mul, SFmul. cbn [xorb].
  apply binary_round_aux_below; [lia|nia| |intros N; contradiction].
  assert (E : scaled (Zpos (mx * my)) (ex + ey) == scaled (Zpos mx) ex * scaled (Zpos my) ey).
  { unfold scaled. rewrite Pos2Z.inj_mul, inject_Z_mult, pow2_add. ring. }
  rewrite E, inject_Z_mult.
  pose proof (scaled_nonneg (Zpos mx) ex ltac:(lia)).
  pose proof (scaled_nonneg (Zpos my) ey ltac:(lia)).
  assert (0 <= inject_Z A) by (change 0 with (inject_Z 0); rewrite <- Zle_Qle; lia).
  nra.
Qed.

(** ** Quotients *)

Lemma new_location_zero (n : Z) : new_location n 0 = loc_Exact.
Proof.
  unfold new_location, new_location_even, new_location_odd.
  destruct (Z.even n); reflexivity.
Qed.

(** The quotient and the exponent that the division works out stand for
    at most the true quotient, for less when the location says that more
    is to come, and the exponent is at most the one of the result. *)
Lemma SFdiv_core_spec (mx my : positive) (ex ey : Z) :
  let '(q, e', l) := SFdiv_core_binary prec emax (Zpos mx) ex (Zpos my) ey in
  (0 <= q)%Z /\
  scaled q e' * scaled (Zpos my) ey <= scaled (Zpos mx) ex /\
  (l <> loc_Exact -> scaled q e' * scaled (Zpos my) ey < scaled (Zpos mx) ex) /\
  (e' <= fexp prec emax (Zdigits2 (Zpos mx) + ex - (Zdigits2 (Zpos my) + ey)))%Z.
Proof.
  unfold SFdiv_core_binary.
  set (e' := Z.min (fexp prec emax (Zdigits2 (Zpos mx) + ex - (Zdigits2 (Zpos my) + ey)))
               (ex - ey)).
  set (s := (ex - ey - e')%Z).
  assert (Hs : (0 <= s)%Z) by (unfold s, e'; lia).
  set (m' := match s with Zpos _ => Z.shiftl (Zpos mx) s | Z0 => Zpos mx | Zneg _ => Z0 end).
  assert (Em : m' = (Zpos mx * 2 ^ s)%Z).
  { unfold m'. destruct s as [|p|p]; [lia| |lia].
    apply Z.shiftl_mul_pow2. lia. }
  pose proof (Z_div_mod m' (Zpos my) ltac:(lia)) as Hdiv.
  destruct (Z.div_eucl m' (Zpos my)) as [q r]. destruct Hdiv as [Eq Hr].
  assert (Ex : scaled (Zpos mx) ex == scaled m' (e' + ey)).
  { rewrite Em, scaled_shift by exact Hs.
    replace (e' + ey + s)%Z with ex by (unfold s; lia). reflexivity. }
  assert (Eprod : scaled q e' * scaled (Zpos my) ey == scaled (q * Zpos my) (e' + ey)).
  { unfold scaled. rewrite inject_Z_mult, pow2_add. ring. }
  assert (Hq : (0 <= q)%Z) by nia.
  split; [exact Hq|]. split; [|split].
  - rewrite Eprod, Ex. apply scaled_mono. nia.
  - intros Hl. rewrite Eprod, Ex. apply scaled_mono_lt.
    assert (r <> 0%Z) by (intros ->; apply Hl; apply new_location_zero). nia.
  - unfold e'. lia.
Qed.

(** Dividing what is at most [C] times the divisor gives at most [C]. *)
Lemma div_below (x y : number) (C : Z) (b : Q) :
  (0 <= C < 2 ^ 53)%Z ->
  valueOf y = Some b -> 0 < b ->
  Below x (inject_Z C * b) ->
  Below (div x y) (inject_Z C).
Proof.
  intros HC Hy Hb Hx.
  assert (HC0 : 0 <= inject_Z C) by (change 0 with (inject_Z 0); rewrite <- Zle_Qle; lia).
  destruct y as [sy|sy| |[|] my ey]; try discriminate.
  - inversion Hy; subst. exfalso. apply (Qlt_irrefl 0). exact Hb.
  - inversion Hy; subst. exfalso. apply (Qlt_irrefl 0).
    eapply Qlt_trans; [exact Hb|apply exact_negative].
  - inversion Hy; subst. rewrite exact_scaled in *.
    destruct (Below_cases _ _ Hx) as [[sx ->]|(mx & ex & -> & Hmx)].
    + cbn. apply Below_zero. exact HC0.
    + unfold div, SFdiv. cbn [xorb].
      pose proof (SFdiv_core_spec mx my ex ey) as Hcore.
      destruct (SFdiv_core_binary prec emax (Zpos mx) ex (Zpos my) ey) as [[q e'] l].
      destruct Hcore as (Hq & Hle & Hlt & He').
      apply binary_round_aux_below; [exact Hq|exact HC| |].
      * apply (Qmult_le_r _ _ _ Hb). eapply Qle_trans; [exact Hle|exact Hmx].
      * intros Hl. split.
        -- apply (Qmult_lt_r _ _ _ Hb). eapply Qlt_le_trans; [exact (Hlt Hl)|exact Hmx].
        -- (* the exponent of the result is not positive *)
           set (D := (Zdigits2 (Zpos mx) + ex - (Zdigits2 (Zpos my) + ey))%Z) in *.
           assert (HD : (D <= 53)%Z).
           { destruct (Z.le_gt_cases D 53) as [H|H]; [exact H|exfalso].
             pose proof (scaled_digits (Zpos mx) ex ltac:(lia)) as Hlo.
             destruct (Zdigits2_bounds (Zpos my) ltac:(lia)) as [_ Hhi].
             pose proof (Zdigits2_nonneg (Zpos my)) as Hd2.
             assert (Hb2 : scaled (Zpos my) ey < 2 ^ (Zdigits2 (Zpos my) + ey)).
             { rewrite pow2_add, (pow2_Z _ Hd2). apply scaled_mono_lt. exact Hhi. }
             assert (HC53 : inject_Z C <= 2 ^ 53).
             { rewrite (pow2_Z 53) by lia. rewrite <- Zle_Qle. lia. }
             assert (Hup : inject_Z C * scaled (Zpos my) ey
                           < 2 ^ (53 + (Zdigits2 (Zpos my) + ey))).
             { rewrite pow2_add.
               pose proof (pow2_pos 53). pose proof (pow2_pos (Zdigits2 (Zpos my) + ey)).
               nra. }
             assert (Hlt2 : 2 ^ (Zdigits2 (Zpos mx) - 1 + ex)
                            < 2 ^ (53 + (Zdigits2 (Zpos my) + ey))).
             { eapply Qle_lt_trans; [exact Hlo|]. eapply Qle_lt_trans; [exact Hmx|exact Hup]. }
             apply Qpower_lt_compat_l_inv in Hlt2; [|reflexivity].
             unfold D in H. lia. }
           rewrite fexp_unfold in He'. lia.
Qed.

(** ** [Math.round] *)

Lemma Math_round_below (x : number) (C : Z) :
  (0 <= C < 2 ^ 53)%Z -> Below x (inject_Z C) -> Below (Math_round x) (inject_Z C).
Proof.
  intros HC Hx.
  destruct (Below_cases _ _ Hx) as [[sx ->]|(m & e & -> & Hm)]; [exact Hx|].
  unfold Math_round. rewrite exact_scaled.
  set (v := scaled (Zpos m) e) in *.
  assert (Hv : 0 <= v) by (apply scaled_nonneg; lia).
  set (k := Js.Math_round v).
  assert (Hk0 : (0 <= k)%Z).
  { unfold k, Js.Math_round. change 0%Z with (Qfloor 0).
    apply Qfloor_resp_le. lra. }
  assert (HkC : (k <= C)%Z).
  { unfold k, Js.Math_round.
    pose proof (Qfloor_le (v + (1 # 2))) as Hfl.
    assert (Hlt : inject_Z (Qfloor (v + (1 # 2))) < inject_Z (C + 1)).
    { rewrite inject_Z_plus. change (inject_Z 1) with 1. lra. }
    rewrite <- Zlt_Qlt in Hlt. lia. }
  destruct (Z.eqb_spec k 0) as [E|N].
  - apply Below_zero. change 0 with (inject_Z 0). rewrite <- Zle_Qle. lia.
  - apply (Below_weaken _ (inject_Z k)); [rewrite <- Zle_Qle; exact HkC|].
    apply ofZ_below. lia.
Qed.

End DoubleFacts.

Module AccountTotalsFacts.

Import ProviderGrouping Props JsNumber.

Lemma inRange_Below (x : number) : inRange x <-> Doubles.Below x (inject_Z 100).
Proof. reflexivity. Qed.

(** Adding up percentages between 0 and 100 gives at most 100 times their
    count, as long as that is below [2^53]. *)
Lemma sum_below (l : list number) (s : number) (k : Z) :
  0 <= k -> 100 * (k + Z.of_nat (List.length l)) < 2 ^ 53 ->
  (forall x, In x l -> inRange x) ->
  Doubles.Below s (inject_Z (100 * k)) ->
  Doubles.Below (fold_left add l s) (inject_Z (100 * (k + Z.of_nat (List.length l)))).
Proof.
  revert s k. induction l as [|x l IH]; intros s k Hk Hlen Hall Hs.
  - cbn [fold_left List.length]. replace (k + Z.of_nat 0) with k by lia. exact Hs.
  - cbn [fold_left]. cbn [List.length] in *. rewrite Nat2Z.inj_succ in *.
    replace (k + Z.succ (Z.of_nat (List.length l)))
      with ((k + 1) + Z.of_nat (List.length l)) in * by lia.
    apply IH; [lia|exact Hlen|intros y Hy; apply Hall; right; exact Hy|].
    replace (100 * (k + 1)) with (100 * k + 100) by lia.
    apply DoubleFacts.add_below; [lia|lia|lia|exact Hs|].
    apply inRange_Below, Hall. left. reflexivity.
Qed.

(** The mean of percentages between 0 and 100 lies between 0 and 100. *)
Lemma mean_inRange (l : list number) :
  l <> [] -> Z.of_nat (List.length l) < 2 ^ 32 ->
  (forall x, In x l -> inRange x) ->
  inRange (Spec.mean l).
Proof.
  intros Hne Hlen Hall. unfold Spec.mean, Spec.sum.
  assert (Hpos : 0 < Z.of_nat (List.length l)) by (destruct l; [contradiction|cbn; lia]).
  destruct (DoubleFacts.ofZ_exact (Z.of_nat (List.length l)) ltac:(lia))
    as (m & e & En & Ev).
  pose proof (sum_below l zero 0 ltac:(lia) ltac:(lia) Hall
                (DoubleFacts.Below_zero false _ (Qle_refl 0))) as Hsum.
  apply inRange_Below.
  apply (DoubleFacts.div_below _ _ 100 (Doubles.scaled (Zpos m) e)); [lia| | |].
  - unfold ofNat. rewrite En. reflexivity.
  - rewrite Ev. change 0%Q with (inject_Z 0). rewrite <- Zlt_Qlt. exact Hpos.
  - eapply DoubleFacts.Below_weaken; [|exact Hsum].
    rewrite Ev, <- inject_Z_mult, <- Zle_Qle. lia.
Qed.

(** Rounding to one decimal keeps a percentage between 0 and 100. *)
Lemma round1_inRange (x : number) : inRange x -> inRange (round1 x).
Proof.
  intros Hx. apply inRange_Below in Hx. apply inRange_Below. unfold round1.
  destruct (DoubleFacts.ofZ_exact 10 ltac:(lia)) as (m & e & En & Ev).
  apply (DoubleFacts.div_below _ _ 100 (Doubles.scaled (Zpos m) e)); [lia| | |].
  - rewrite En. reflexivity.
  - rewrite Ev. reflexivity.
  - eapply DoubleFacts.Below_weaken;
      [|apply (DoubleFacts.Math_round_below _ 1000); [lia|]].
    + rewrite Ev, <- inject_Z_mult, <- Zle_Qle. lia.
    + change 1000 with (100 * 10).
      apply DoubleFacts.mul_below; [lia|lia|lia|exact Hx|].
      apply DoubleFacts.ofZ_below. lia.
Qed.

Lemma inRange_zero : inRange zero.
Proof. apply inRange_Below, DoubleFacts.Below_zero. discriminate. Qed.

Section Stats.

Variable Date_getTime : string -> option Z.
Variable Date_toISOString : Z -> string.

#[local] Abbreviation calculateProviderStats :=
  (calculateProviderStats Date_getTime Date_toISOString).
#[local] Abbreviation groupModelsByProvider :=
  (groupModelsByProvider Date_getTime Date_toISOString).

Lemma fold_total (ps : list ProviderStats) (n : nat) :
  fold_left (fun sum p => (sum + List.length (models p))%nat) ps n
  = (n + List.length (flat_map models ps))%nat.
Proof.
  revert n. induction ps as [|p ps IH]; intros n; simpl; [lia|].
  rewrite IH, length_app. lia.
Qed.

Lemma models_of_groups (grouped : list (ProviderKey * list ModelQuota)) vis :
  flat_map models (map (fun g => calculateProviderStats (fst g) (snd g) vis) grouped)
  = List.concat (map snd grouped).
Proof.
  induction grouped as [|g grouped IH]; simpl; [reflexivity|].
  rewrite IH.
  destruct (ProviderGroupsFacts.calculateProviderStats_fields Date_getTime
              Date_toISOString (fst g) (snd g) vis) as (_ & -> & _).
  reflexivity.
Qed.

Lemma totals_lengths
    (entries : list (string * ModelInfo)) (vis : list (string * bool)) :
  totalModels (groupModelsByProvider entries vis) = List.length entries /\
  visibleModelCount (groupModelsByProvider entries vis)
  = List.length (filter (fun e => isVisible vis (fst e)) entries).
Proof.
  split.
  - change (totalModels (groupModelsByProvider entries vis))
      with (fold_left (fun sum p => (sum + List.length (models p))%nat)
              (providers (groupModelsByProvider entries vis)) 0%nat).
    rewrite fold_total, AccountGroupsFacts.providers_unfold. simpl.
    rewrite (Permutation_length
               (Permutation_flat_map models
                  (VisibleModelsFacts.Array_sort_Permutation _ _))).
    rewrite models_of_groups.
    rewrite (Permutation_length (VisibleModelsFacts.groupEntries_Permutation entries)).
    apply length_map.
  - change (visibleModelCount (groupModelsByProvider entries vis))
      with (List.length (flat_map visibleModels
                           (providers (groupModelsByProvider entries vis)))).
    rewrite <- (length_map percentage).
    rewrite (Permutation_length
               (VisibleModelsFacts.allVisibleModels_Permutation Date_getTime
                  Date_toISOString entries vis)).
    unfold Spec.visiblePercentages. apply length_map.
Qed.

(** X6.  [totalModels] counts the models of the model map and [visibleModels]
    those of them that are not switched off. *)
Theorem totals_count_models
    (entries : list (string * ModelInfo)) (vis : list (string * bool)) :
  totalModels (groupModelsByProvider entries vis) = List.length entries /\
  visibleModelCount (groupModelsByProvider entries vis)
  = List.length (filter (fun e => isVisible vis (fst e)) entries).
Proof. exact (totals_lengths entries vis). Qed.

(** X7.  When the percentages of the visible models lie between 0 and 100, so
    do [overallPercentage] and the [avgPercentage] of every group.  The
    model map has fewer than [2^32] models, more than which no array
    holds. *)
Theorem percentages_stay_in_range
    (entries : list (string * ModelInfo)) (vis : list (string * bool)) :
  Z.of_nat (List.length entries) < 2 ^ 32 ->
  (forall e, In e entries -> isVisible vis (fst e) = true ->
             inRange (info_percentage (snd e))) ->
  inRange (overallPercentage (groupModelsByProvider entries vis)) /\
  forall p, In p (providers (groupModelsByProvider entries vis)) ->
            inRange (avgPercentage p).
Proof.
  intros Hlen H.
  assert (Hvis : forall x, In x (Spec.visiblePercentages entries vis) -> inRange x).
  { intros x Hx. unfold Spec.visiblePercentages in Hx. apply in_map_iff in Hx.
    destruct Hx as (e & <- & He). apply filter_In in He. destruct He as [He Hv].
    apply H; assumption. }
  assert (Hcount : forall f, (List.length (filter f entries) <= List.length entries)%nat).
  { intros f. clear. induction entries as [|e es IH]; simpl; [lia|].
    destruct (f e); simpl; lia. }
  split.
  - rewrite AccountStatsFacts.overallPercentage_unfold, AccountStatsFacts.overall_unrounded.
    pose proof (AccountGroupsFacts.allVisibleModels_by_group Date_getTime Date_toISOString
                  entries vis) as Eg.
    pose proof (VisibleModelsFacts.allVisibleModels_Permutation Date_getTime
                  Date_toISOString entries vis) as HP.
    rewrite Eg in HP.
    destruct (Spec.visibleByGroup entries vis) as [|x ps] eqn:E.
    + rewrite NumberFacts.round1_zero. exact inRange_zero.
    + apply round1_inRange. apply mean_inRange; [discriminate| |].
      * rewrite (Permutation_length HP). unfold Spec.visiblePercentages.
        rewrite length_map. specialize (Hcount (fun e => isVisible vis (fst e))). lia.
      * intros y Hy. apply Hvis. apply (Permutation_in _ HP). exact Hy.
  - intros p Hp.
    destruct (AccountGroupsFacts.providers_partition Date_getTime
                Date_toISOString entries vis) as [Hgroups _].
    destruct (Hgroups p Hp) as (Hm & _ & _).
    apply AccountGroupsFacts.providers_In in Hp. destruct Hp as (k & ms & Hin & ->).
    destruct (ProviderGroupsFacts.calculateProviderStats_fields Date_getTime
                Date_toISOString k ms vis) as (Ek & Em & _).
    rewrite Ek, Em in Hm.
    destruct (ProviderGroupsFacts.calculateProviderStats_summary Date_getTime
                Date_toISOString k ms vis) as (_ & _ & Havg).
    set (visible := filter (fun m => isVisible vis (id m)) ms) in *.
    assert (Hin' : forall x, In x (map percentage visible) -> inRange x).
    { intros x Hx. apply in_map_iff in Hx. destruct Hx as (q & <- & Hq).
      apply filter_In in Hq. destruct Hq as [Hq Hv].
      rewrite Hm in Hq. unfold modelsOf in Hq. apply filter_In in Hq.
      destruct Hq as [Hq _]. apply in_map_iff in Hq. destruct Hq as (e & <- & He).
      apply H; assumption. }
    assert (Hlen' : (List.length (map percentage visible) <= List.length entries)%nat).
    { rewrite length_map. unfold visible.
      etransitivity; [apply filter_length_le|].
      rewrite Hm. unfold modelsOf.
      etransitivity; [apply filter_length_le|]. rewrite length_map. lia. }
    destruct (map percentage visible) as [|x ps] eqn:E.
    + destruct Havg as [-> _]. exact inRange_zero.
    + rewrite Havg. apply round1_inRange.
      apply mean_inRange; [discriminate|lia|exact Hin'].
Qed.

(** X8.  An account whose models are all switched off (or that has none) shows
    0 percent, is critical, counts no visible model, and every group it
    has is without visible models. *)
Theorem no_visible_model_is_critical
    (entries : list (string * ModelInfo)) (vis : list (string * bool)) :
  (forall e, In e entries -> isVisible vis (fst e) = false) ->
  overallPercentage (groupModelsByProvider entries vis) = zero /\
  healthStatus (groupModelsByProvider entries vis) = critical /\
  visibleModelCount (groupModelsByProvider entries vis) = 0%nat /\
  forall p, In p (providers (groupModelsByProvider entries vis)) ->
            visibleModels p = [] /\ avgPercentage p = zero.
Proof.
  intros H.
  assert (Hnone : filter (fun e => isVisible vis (fst e)) entries = [])
    by (apply GroupingFacts.filter_none; exact H).
  assert (Hcount := proj2 (totals_lengths entries vis)). rewrite Hnone in Hcount.
  assert (Hall : flat_map visibleModels (providers (groupModelsByProvider entries vis)) = []).
  { apply length_zero_iff_nil. exact Hcount. }
  split; [|split; [|split]].
  - rewrite AccountStatsFacts.overallPercentage_unfold, Hall. apply NumberFacts.round1_zero.
  - rewrite AccountStatsFacts.healthStatus_unfold, Hall. reflexivity.
  - exact Hcount.
  - intros p Hp.
    destruct (AccountGroupsFacts.providers_partition Date_getTime
                Date_toISOString entries vis) as [Hgroups _].
    destruct (Hgroups p Hp) as (Hm & _ & Hv).
    assert (Hvn : visibleModels p = []).
    { rewrite Hv. apply GroupingFacts.filter_none. intros q Hq.
      rewrite Hm in Hq. unfold modelsOf in Hq. apply filter_In in Hq.
      destruct Hq as [Hq _]. apply in_map_iff in Hq. destruct Hq as (e & <- & He).
      apply H. exact He. }
    split; [exact Hvn|].
    apply AccountGroupsFacts.providers_In in Hp. destruct Hp as (k & ms & _ & ->).
    rewrite VisibleModelsFacts.visibleModels_calculateProviderStats in Hvn.
    unfold ProviderGrouping.calculateProviderStats. rewrite Hvn. reflexivity.
Qed.

End Stats.

Lemma percentages_stay_in_range_witness :
  inRange (overallPercentage
             (groupModelsByProvider (fun _ => None) (fun _ => "")
                MoreSamples.two_models [])).
Proof.
  refine (proj1 (percentages_stay_in_range (fun _ => None) (fun _ => "")
                   MoreSamples.two_models [] _ _)).
  - vm_compute. reflexivity.
  - intros e [<-|[<-|[]]] _; eexists; (split; [vm_compute; reflexivity|]);
      split; vm_compute; discriminate.
Defined.

Lemma no_visible_model_is_critical_witness :
  healthStatus
    (groupModelsByProvider (fun _ => None) (fun _ => "")
       MoreSamples.two_models MoreSamples.both_hidden)
  = critical.
Proof.
  refine (proj1 (proj2 (no_visible_model_is_critical (fun _ => None) (fun _ => "")
                          MoreSamples.two_models MoreSamples.both_hidden _))).
  intros e [<-|[<-|[]]]; reflexivity.
Defined.

End AccountTotalsFacts.

Module GlobalQuotaMoreFacts.

Import ProviderGrouping CloudAccountList Props.

Lemma pooled_nil_iff (accounts : list CloudAccount) (vis : list (string * bool)) :
  Spec.pooledPercentages accounts vis = []
  <-> forall a ms e,
        In a accounts -> quota_models a = Some ms -> In e ms ->
        isVisible vis (fst e) = false.
Proof.
  split.
  - intros Hnil a ms e Ha Hms He.
    destruct (isVisible vis (fst e)) eqn:Hv; [|reflexivity]. exfalso.
    assert (Hin : In (info_percentage (snd e)) (Spec.pooledPercentages accounts vis)).
    { unfold Spec.pooledPercentages. apply in_flat_map. exists a. split; [exact Ha|].
      rewrite Hms. unfold Spec.visiblePercentages.
      apply (in_map (fun x => info_percentage (snd x))), filter_In. auto. }
    rewrite Hnil in Hin. destruct Hin.
  - intros H. unfold Spec.pooledPercentages.
    induction accounts as [|a accounts IH]; [reflexivity|]. simpl.
    rewrite IH by (intros a' ms e Ha'; apply H; right; exact Ha').
    rewrite app_nil_r.
    destruct (quota_models a) as [ms|] eqn:Hms; [|reflexivity].
    unfold Spec.visiblePercentages.
    rewrite (GroupingFacts.filter_none _ ms); [reflexivity|].
    intros e He. apply (H a ms e); auto. left. reflexivity.
Qed.

(** X9.  The global quota is [null] exactly when no account of the pool has a
    visible model: while the accounts are not loaded, for an empty pool,
    for accounts without quota, and when every model is switched off. *)
Theorem globalQuota_null_iff
    (accounts : option (list CloudAccount))
    (model_visibility : option (list (string * bool))) :
  let vis := match model_visibility with Some v => v | None => [] end in
  globalQuota accounts model_visibility = None
  <-> forall accs a ms e,
        accounts = Some accs -> In a accs -> quota_models a = Some ms -> In e ms ->
        isVisible vis (fst e) = false.
Proof.
  intros vis. destruct accounts as [accs|].
  - pose proof (GlobalQuotaFacts.globalQuota_value accs model_visibility) as H.
    cbv zeta in H. fold vis in H. rewrite H.
    destruct (Spec.pooledPercentages accs vis) as [|p ps] eqn:E.
    + split; [|reflexivity]. intros _ accs' a ms e Heq. inversion Heq; subst accs'.
      apply (proj1 (pooled_nil_iff accs vis) E).
    + split; [discriminate|].
      intros Hall. exfalso.
      assert (Hnil : Spec.pooledPercentages accs vis = []).
      { apply pooled_nil_iff. intros a ms e. apply (Hall accs). reflexivity. }
      congruence.
  - split; [|reflexivity]. intros _ accs a ms e Heq. discriminate.
Qed.

(** The visible percentages of two maps put end to end. *)
Lemma visiblePercentages_app (l1 l2 : list (string * ModelInfo)) vis :
  Spec.visiblePercentages (l1 ++ l2) vis
  = Spec.visiblePercentages l1 vis ++ Spec.visiblePercentages l2 vis.
Proof. unfold Spec.visiblePercentages. rewrite filter_app, map_app. reflexivity. Qed.

Lemma providerRank_cases (e : string * ModelInfo) :
  (detectProvider (fst e) = "claude-" /\ providerRank e = 0) \/
  (detectProvider (fst e) = "gemini-" /\ providerRank e = 1) \/
  (detectProvider (fst e) = "others" /\ providerRank e = 2).
Proof.
  unfold providerRank.
  destruct (ProviderGroupsFacts.detectProvider_cases (fst e)) as [E|[E|E]];
    rewrite E; [left|right; left|right; right]; split; reflexivity.
Qed.

(** In a map that lists its models provider by provider, nothing of a
    provider that comes earlier in the registry follows. *)
Lemma no_earlier_provider (e : string * ModelInfo) (l : list (string * ModelInfo))
    (k : ProviderKey) :
  Forall (fun x => providerRank e <= providerRank x) l ->
  registryIndex k < providerRank e ->
  filter (fun x => String.eqb (detectProvider (fst x)) k) l = [].
Proof.
  intros Hall Hk. apply GroupingFacts.filter_none. intros x Hx.
  rewrite Forall_forall in Hall. specialize (Hall x Hx).
  destruct (String.eqb_spec (detectProvider (fst x)) k) as [E|N]; [|reflexivity].
  unfold providerRank in Hall at 2. rewrite E in Hall. lia.
Qed.

(** Such a map, taken apart by provider and put together again in the
    order of the registry, is the map. *)
Lemma regroup_in_order (entries : list (string * ModelInfo)) :
  inRegistryOrder entries ->
  flat_map (fun k => filter (fun e => String.eqb (detectProvider (fst e)) k) entries)
           (Object_keys PROVIDER_REGISTRY)
  = entries.
Proof.
  induction 1 as [|e l Hs IH Hall]; [reflexivity|].
  cbn [Object_keys PROVIDER_REGISTRY map fst flat_map] in *.
  rewrite !app_nil_r in *. cbn [filter].
  destruct (providerRank_cases e) as [[E R]|[[E R]|[E R]]]; rewrite E.
  - change (String.eqb "claude-" "claude-") with true.
    change (String.eqb "claude-" "gemini-") with false.
    change (String.eqb "claude-" "others") with false.
    cbv iota. rewrite <- app_comm_cons, IH. reflexivity.
  - change (String.eqb "gemini-" "claude-") with false.
    change (String.eqb "gemini-" "gemini-") with true.
    change (String.eqb "gemini-" "others") with false.
    cbv iota.
    rewrite (no_earlier_provider e l "claude-" Hall) in IH |- * by (rewrite R; reflexivity).
    cbn [app] in IH |- *. rewrite IH. reflexivity.
  - change (String.eqb "others" "claude-") with false.
    change (String.eqb "others" "gemini-") with false.
    change (String.eqb "others" "others") with true.
    cbv iota.
    rewrite (no_earlier_provider e l "claude-" Hall) in IH |- * by (rewrite R; reflexivity).
    rewrite (no_earlier_provider e l "gemini-" Hall) in IH |- * by (rewrite R; reflexivity).
    cbn [app] in IH |- *. rewrite IH. reflexivity.
Qed.

Lemma visibleByGroup_in_order (entries : list (string * ModelInfo)) vis :
  inRegistryOrder entries ->
  Spec.visibleByGroup entries vis = Spec.visiblePercentages entries vis.
Proof.
  intros H. rewrite <- (regroup_in_order entries H) at 2.
  unfold Spec.visibleByGroup.
  induction (Object_keys PROVIDER_REGISTRY) as [|k ks IH]; [reflexivity|].
  cbn [flat_map]. rewrite visiblePercentages_app, IH. reflexivity.
Qed.

Section Single.

Variable Date_getTime : string -> option Z.
Variable Date_toISOString : Z -> string.

(** X10.  For a pool of one account whose model map lists its models
    provider by provider in the order of the registry, the global quota
    of the list is the overall percentage on the card of the account; it
    is [null] when the card counts no visible model. *)
Theorem globalQuota_of_one_account
    (config : option UseProviderGrouping.Config) (a : CloudAccount) :
  inRegistryOrder (match quota_models a with Some ms => ms | None => [] end) ->
  let stats :=
    UseProviderGrouping.getAccountStats Date_getTime Date_toISOString config a in
  match globalQuota (Some [a])
          match config with
          | Some c => UseProviderGrouping.model_visibility c
          | None => None
          end with
  | Some q => q = overallPercentage stats /\ visibleModelCount stats <> 0%nat
  | None => visibleModelCount stats = 0%nat
  end.
Proof.
  intros Hord stats. subst stats. unfold UseProviderGrouping.getAccountStats.
  set (mv := match config with
             | Some c => UseProviderGrouping.model_visibility c
             | None => None
             end).
  assert (Ev : UseProviderGrouping.visibilitySettings config
               = match mv with Some v => v | None => [] end).
  { subst mv. destruct config as [c|]; reflexivity. }
  rewrite Ev. set (vis := match mv with Some v => v | None => [] end).
  set (ms := match quota_models a with Some ms => ms | None => [] end) in *.
  assert (Ep : Spec.pooledPercentages [a] vis = Spec.visiblePercentages ms vis).
  { unfold Spec.pooledPercentages, ms. simpl. rewrite app_nil_r.
    destruct (quota_models a); reflexivity. }
  pose proof (GlobalQuotaFacts.globalQuota_value [a] mv) as H. cbv zeta in H.
  fold vis in H. rewrite Ep in H. rewrite H.
  pose proof (AccountTotalsFacts.totals_lengths Date_getTime Date_toISOString
                ms vis) as [_ Hcount].
  assert (Hlen : visibleModelCount
                   (groupModelsByProvider Date_getTime Date_toISOString ms vis)
                 = List.length (Spec.visiblePercentages ms vis)).
  { rewrite Hcount. unfold Spec.visiblePercentages. rewrite length_map. reflexivity. }
  rewrite Hlen, AccountStatsFacts.overallPercentage_unfold,
    AccountStatsFacts.overall_unrounded, (visibleByGroup_in_order ms vis Hord).
  destruct (Spec.visiblePercentages ms vis) as [|p ps]; [reflexivity|].
  split; [|discriminate]. symmetry. apply NumberFacts.round1_roundedToOneDecimal.
Qed.

End Single.

Lemma globalQuota_of_one_account_witness :
  match globalQuota (Some [MoreSamples.two_model_account]) None with
  | Some q =>
      q = overallPercentage
            (UseProviderGrouping.getAccountStats (fun _ => None) (fun _ => "") None
               MoreSamples.two_model_account)
      /\ visibleModelCount
           (UseProviderGrouping.getAccountStats (fun _ => None) (fun _ => "") None
              MoreSamples.two_model_account) <> 0%nat
  | None =>
      visibleModelCount
        (UseProviderGrouping.getAccountStats (fun _ => None) (fun _ => "") None
           MoreSamples.two_model_account) = 0%nat
  end.
Proof.
  apply (globalQuota_of_one_account (fun _ => None) (fun _ => "") None
           MoreSamples.two_model_account).
  repeat constructor; vm_compute; discriminate.
Defined.

(** Without that order the two can differ in the last decimal, as the
    sums are taken in different orders: for [mixed_account] the list
    shows 45.4 and the card 45.3. *)
Example globalQuota_and_card_add_in_different_orders :
  globalQuota (Some [MoreSamples.mixed_account]) None
  = Some (JsNumber.ofDecimal 454 1) /\
  overallPercentage
    (UseProviderGrouping.getAccountStats (fun _ => None) (fun _ => "") None
       MoreSamples.mixed_account)
  = JsNumber.ofDecimal 453 1.
Proof. split; vm_compute; reflexivity. Qed.

End GlobalQuotaMoreFacts.

(* ================================================================== *)
(** * The dispatcher: base URLs, streams and messages *)
(* ================================================================== *)

Module TextFacts.

Import Js.

Lemma trimEnd_keeps_head (c : ascii) (r : string) :
  isWhiteSpace c = false -> exists r', trimEnd (String c r) = String c r'.
Proof.
  intros Hc. simpl. destruct (trimEnd r); [rewrite Hc|]; eexists; reflexivity.
Qed.

Lemma trimStart_head (s : string) :
  trimStart s = "" \/ exists c r, trimStart s = String c r /\ isWhiteSpace c = false.
Proof.
  induction s as [|c s IH]; simpl; [auto|].
  destruct (isWhiteSpace c) eqn:E; [exact IH|]. right. exists c, s. auto.
Qed.

Lemma trimEnd_idempotent (s : string) : trimEnd (trimEnd s) = trimEnd s.
Proof.
  induction s as [|c s IH]; [reflexivity|]. simpl.
  destruct (trimEnd s) as [|d r] eqn:E.
  - destruct (isWhiteSpace c) eqn:Ec; [reflexivity|]. simpl. rewrite Ec. reflexivity.
  - change (trimEnd (String c (String d r))) with
      (match trimEnd (String d r) with
       | EmptyString => if isWhiteSpace c then EmptyString else String c EmptyString
       | r' => String c r'
       end).
    rewrite IH. reflexivity.
Qed.

(** Trimming twice is trimming once. *)
Lemma trim_idempotent (s : string) : trim (trim s) = trim s.
Proof.
  unfold trim.
  destruct (trimStart_head s) as [E|(c & r & E & Hc)]; rewrite E.
  - reflexivity.
  - destruct (trimEnd_keeps_head c r Hc) as [r' E'].
    rewrite E'. cbn [trimStart]. rewrite Hc. rewrite <- E'.
    apply trimEnd_idempotent.
Qed.

Lemma append_nil_r (a : string) : (a ++ "")%string = a.
Proof. induction a as [|c a IH]; simpl; [|rewrite IH]; reflexivity. Qed.

Lemma append_assoc (a b c : string) : ((a ++ b) ++ c = a ++ (b ++ c))%string.
Proof. induction a as [|x a IH]; simpl; [|rewrite IH]; reflexivity. Qed.

Lemma slice_to_all (n : N) (s : string) : (length s <= n)%N -> slice_to n s = s.
Proof.
  revert n. induction s as [|c s IH]; intros n H; [reflexivity|].
  cbn [length] in H. cbn [slice_to].
  destruct (N.eqb_spec n 0) as [E|E]; [lia|].
  rewrite IH; [reflexivity|lia].
Qed.

Lemma slice_to_length (n : N) (s : string) : (length (slice_to n s) <= n)%N.
Proof.
  revert n. induction s as [|c s IH]; intros n; cbn [slice_to length]; [lia|].
  destruct (N.eqb_spec n 0) as [E|E]; cbn [length]; [lia|].
  specialize (IH (N.pred n)). lia.
Qed.

(** Cutting, adding text and cutting again is adding the text and cutting
    once. *)
Lemma slice_to_app (n : N) (a b : string) :
  slice_to n (slice_to n a ++ b) = slice_to n (a ++ b).
Proof.
  revert n. induction a as [|c a IH]; intros n; [reflexivity|].
  cbn [slice_to append].
  destruct (N.eqb_spec n 0) as [E|E].
  - subst n. destruct b; reflexivity.
  - cbn [append slice_to]. destruct (N.eqb_spec n 0); [contradiction|].
    rewrite IH. reflexivity.
Qed.

(** The text is a prefix of what it was cut from. *)
Lemma slice_to_prefix (n : N) (s : string) : exists rest, s = (slice_to n s ++ rest)%string.
Proof.
  revert n. induction s as [|c s IH]; intros n; [exists ""; reflexivity|].
  cbn [slice_to]. destruct (N.eqb n 0).
  - exists (String c s). reflexivity.
  - destruct (IH (N.pred n)) as [rest E]. exists rest. simpl. rewrite <- E. reflexivity.
Qed.

End TextFacts.

Module DispatcherFacts.

Import GeminiClient.

Lemma stripTrailingSlashes_no_slash (s rest : string) :
  stripTrailingSlashes s <> (rest ++ "/")%string.
Proof.
  revert rest. induction s as [|c s IH]; intros rest; simpl.
  - destruct rest; discriminate.
  - destruct (stripTrailingSlashes s) as [|d r] eqn:E.
    + destruct (Ascii.eqb_spec c "/") as [Ec|Ec].
      * destruct rest; discriminate.
      * destruct rest as [|c' [|? ?]]; simpl; try discriminate.
        intros H. inversion H. contradiction.
    + destruct rest as [|c' rest']; simpl; [discriminate|].
      intros H. inversion H. subst c'. apply (IH rest'). assumption.
Qed.

(** X11.  There is always an endpoint to try, and no base URL ends with a
    slash; without the two environment variables the list is the built-in
    one. *)
Theorem getInternalBaseUrls_usable (env : Env) :
  getInternalBaseUrls env <> [] /\
  (forall u rest, In u (getInternalBaseUrls env) -> u <> (rest ++ "/")%string) /\
  (PROXY_INTERNAL_BASE_URLS env = None -> ANTIGRAVITY_INTERNAL_BASE_URLS env = None ->
   getInternalBaseUrls env = defaultInternalBaseUrls).
Proof.
  unfold getInternalBaseUrls.
  set (fromEnv := match PROXY_INTERNAL_BASE_URLS env with
                  | Some v => Some v
                  | None => ANTIGRAVITY_INTERNAL_BASE_URLS env
                  end).
  split; [|split].
  - destruct fromEnv as [v|]; [|discriminate].
    destruct (filter Js.truthy (map Js.trim (Js.split "," v))); discriminate.
  - intros u rest Hin.
    assert (H : exists s, u = stripTrailingSlashes s).
    { destruct fromEnv as [v|].
      - destruct (filter Js.truthy (map Js.trim (Js.split "," v))) as [|x xs];
          apply in_map_iff in Hin; destruct Hin as (s & <- & _); eexists; reflexivity.
      - apply in_map_iff in Hin. destruct Hin as (s & <- & _). eexists; reflexivity. }
    destruct H as [s ->]. apply stripTrailingSlashes_no_slash.
  - intros H1 H2. subst fromEnv. rewrite H1, H2. reflexivity.
Qed.

Lemma onData_slice (buffer text : string) :
  (Js.length buffer <= maxChars)%N ->
  onData buffer text = Js.slice_to maxChars (buffer ++ text).
Proof.
  intros Hlen. unfold onData.
  destruct (N.leb_spec maxChars (Js.length buffer)) as [Hfull|Hroom].
  - rewrite <- (TextFacts.slice_to_all maxChars buffer Hlen) at 2.
    rewrite TextFacts.slice_to_app.
    rewrite <- (TextFacts.slice_to_all maxChars buffer Hlen) at 1.
    assert (E : forall a b, Js.length a = maxChars ->
                            Js.slice_to maxChars (a ++ b) = Js.slice_to maxChars a).
    { generalize maxChars. intros n a. revert n.
      induction a as [|c a IH]; intros n b Ha; cbn [Js.length] in Ha.
      - subst n. destruct b; reflexivity.
      - cbn [append Js.slice_to]. destruct (N.eqb_spec n 0); [reflexivity|].
        rewrite IH; [reflexivity|lia]. }
    symmetry. apply E. lia.
  - destruct (N.ltb_spec maxChars (Js.length (buffer ++ text))) as [Hover|Hfit].
    + reflexivity.
    + symmetry. apply TextFacts.slice_to_all. exact Hfit.
Qed.

Lemma fold_onData (chunks : list string) (buffer : string) :
  (Js.length buffer <= maxChars)%N ->
  fold_left onData chunks buffer
  = Js.slice_to maxChars (buffer ++ String.concat "" chunks).
Proof.
  revert buffer. induction chunks as [|text chunks IH]; intros buffer Hlen.
  - cbn [fold_left String.concat].
    rewrite TextFacts.append_nil_r. symmetry. apply TextFacts.slice_to_all. exact Hlen.
  - cbn [fold_left]. rewrite IH.
    + rewrite (onData_slice buffer text Hlen), TextFacts.slice_to_app.
      f_equal. rewrite TextFacts.append_assoc. f_equal.
      destruct chunks as [|t' chunks']; simpl.
      * apply TextFacts.append_nil_r.
      * reflexivity.
    + rewrite (onData_slice buffer text Hlen). apply TextFacts.slice_to_length.
Qed.

Lemma readStreamAsText_slice (stream : ReadableStream) :
  match readStreamAsText stream with
  | None => ending stream = Errored
  | Some text =>
      ending stream = Ended /\
      text = Js.slice_to maxChars (String.concat "" (chunks stream)) /\
      (Js.length text <= maxChars)%N /\
      exists rest, String.concat "" (chunks stream) = (text ++ rest)%string
  end.
Proof.
  unfold readStreamAsText. destruct (ending stream); [|reflexivity].
  split; [reflexivity|].
  assert (E : fold_left onData (chunks stream) ""
              = Js.slice_to maxChars (String.concat "" (chunks stream))).
  { rewrite fold_onData; [reflexivity|]. cbn. discriminate. }
  rewrite E. split; [reflexivity|]. split; [apply TextFacts.slice_to_length|].
  apply TextFacts.slice_to_prefix.
Qed.

(** X12.  What is read off an error stream is the first 512 Ki characters of
    its chunks put together, never more; a stream that errors gives
    nothing. *)
Theorem readStreamAsText_bounded_prefix (stream : ReadableStream) :
  match readStreamAsText stream with
  | None => ending stream = Errored
  | Some text =>
      ending stream = Ended /\
      text = Js.slice_to maxChars (String.concat "" (chunks stream)) /\
      (Js.length text <= maxChars)%N /\
      exists rest, String.concat "" (chunks stream) = (text ++ rest)%string
  end.
Proof. exact (readStreamAsText_slice stream). Qed.

Lemma fromJsonObject_trimmed (v : Json.value) (m : string) :
  fromJsonObject v = Some m -> m <> "" /\ Js.trim m = m.
Proof.
  assert (T : forall x, nonEmptyTrimmed x = Some m -> m <> "" /\ Js.trim m = m).
  { intros [[| | |s| |]|]; simpl; try discriminate.
    unfold Js.truthy. destruct (String.eqb_spec (Js.trim s) "") as [E|N]; simpl;
      [discriminate|].
    intros H. inversion H; subst m. split; [exact N|apply TextFacts.trim_idempotent]. }
  unfold fromJsonObject.
  destruct v as [| | | |items|fields]; try discriminate;
    (destruct (if isObjectValue _ then _ else _) as [m'|] eqn:E;
     [intros H; inversion H; subst m';
      destruct (isObjectValue _); [|discriminate];
      destruct (member _ "error"); [|discriminate]; apply (T _ E)
     |apply T]).
Qed.

Section Extraction.

Variable JSON_parse : string -> option Json.value.

Lemma firstSseMessage_trimmed (lines : list string) (m : string) :
  firstSseMessage JSON_parse lines = Some m -> m <> "" /\ Js.trim m = m.
Proof.
  induction lines as [|line rest IH]; simpl; [discriminate|].
  destruct (negb _ || _)%bool; [exact IH|].
  destruct (fromJsonObject _) as [m'|] eqn:E; [|exact IH].
  intros H. inversion H; subst m'. apply (fromJsonObject_trimmed _ _ E).
Qed.

Lemma fromText_trimmed (rawText m : string) :
  extractAxiosErrorMessageFromText JSON_parse rawText = Some m ->
  m <> "" /\ Js.trim m = m.
Proof.
  unfold extractAxiosErrorMessageFromText.
  destruct (negb _); [discriminate|].
  destruct (firstSseMessage _ _) as [m'|] eqn:E.
  - intros H. inversion H; subst m'. apply (firstSseMessage_trimmed _ _ E).
  - apply fromJsonObject_trimmed.
Qed.

(** X13.  A message extracted from an upstream error is never empty and has no
    white space around it, whatever the payload and the parser. *)
Theorem extracted_message_is_trimmed (responseData : ResponseData) (m : string) :
  extractAxiosErrorMessage JSON_parse responseData = Some m ->
  m <> "" /\ Js.trim m = m.
Proof.
  unfold extractAxiosErrorMessage, extractAxiosErrorMessageFromObject.
  destruct responseData as [|v|utf8|stream]; try discriminate.
  - destruct (fromJsonObject v) as [m'|] eqn:E.
    + intros H. inversion H; subst m'. apply (fromJsonObject_trimmed _ _ E).
    + destruct v; try discriminate. apply fromText_trimmed.
  - apply fromText_trimmed.
  - destruct (readStreamAsText stream) as [text|]; [|discriminate].
    destruct (Js.truthy text); [apply fromText_trimmed|discriminate].
Qed.

(** A stream that ends is read for its message like a buffer holding the
    first 512 Ki characters of its chunks; a stream that errors yields no
    message. *)
Theorem stream_extracted_like_buffer (stream : ReadableStream) :
  extractAxiosErrorMessage JSON_parse (DataStream stream)
  = match ending stream with
    | Ended =>
        extractAxiosErrorMessage JSON_parse
          (DataBuffer (Js.slice_to maxChars (String.concat "" (chunks stream))))
    | Errored => None
    end.
Proof.
  pose proof (readStreamAsText_slice stream) as H.
  unfold extractAxiosErrorMessage, extractAxiosErrorMessageFromObject.
  destruct (readStreamAsText stream) as [text|].
  - destruct H as (-> & <- & _). unfold Js.truthy.
    destruct (String.eqb_spec text "") as [->|_]; reflexivity.
  - rewrite H. reflexivity.
Qed.

End Extraction.

Lemma extracted_message_is_trimmed_witness :
  "quota exceeded" <> "" /\ Js.trim "quota exceeded" = "quota exceeded".
Proof.
  apply (extracted_message_is_trimmed Json.parse (DataBuffer Samples.sse_error_text)).
  reflexivity.
Defined.

End DispatcherFacts.

Module FailoverMoreFacts.

Import GeminiClient.

Lemma lookup_app {A : Type} (o1 o2 : list (string * A)) (k : string) :
  Js.lookup (o1 ++ o2) k
  = match Js.lookup o2 k with
    | Some v => Some v
    | None => Js.lookup o1 k
    end.
Proof.
  induction o1 as [|[k' v] o1 IH]; simpl.
  - destruct (Js.lookup o2 k); reflexivity.
  - rewrite IH. destruct (Js.lookup o2 k); [reflexivity|].
    destruct (Js.lookup o1 k); reflexivity.
Qed.

Lemma In_firstn {A : Type} (n : nat) (l : list A) (x : A) :
  In x (firstn n l) -> In x l.
Proof.
  revert n. induction l as [|y l IH]; intros [|n]; simpl; try tauto.
  intros [H|H]; [auto|right; exact (IH n H)].
Qed.

Section Dispatcher.

Variable JSON_parse : string -> option Json.value.
Variable axios_post : nat -> Request -> Outcome.
Variable env : Env.
Variable path : string.
Variable accessToken : string.
Variable requestConfig : AxiosRequestConfig.
Variable operation : string.
Variable extraHeaders : option (list (string * string)).

#[local] Abbreviation requestFor :=
  (requestFor env path accessToken requestConfig extraHeaders).
#[local] Abbreviation failoverOver :=
  (failoverOver JSON_parse axios_post env path accessToken requestConfig operation
     extraHeaders).

(** X14.  When the first [j] endpoints fail with retryable errors and the next
    one answers, the call returns that answer after exactly [j + 1] POSTs,
    one to each of these endpoints in order. *)
Theorem failover_returns_first_success
    (baseUrls : list string) (j : nat) (response : AxiosResponse) :
  (j < List.length baseUrls)%nat ->
  (forall i, (i < j)%nat ->
     exists e, axios_post i (requestFor (nth i baseUrls "")) = Failure e /\
               Spec.retryable e) ->
  axios_post j (requestFor (nth j baseUrls "")) = Success response ->
  fst (failoverOver baseUrls) = Normal response /\
  posted (snd (failoverOver baseUrls)) = map requestFor (firstn (S j) baseUrls).
Proof.
  intros Hj Hfail Hok.
  destruct (FailoverFacts.failoverOver_run JSON_parse axios_post env path accessToken
              requestConfig operation extraHeaders baseUrls)
    as (k & exit & [Hb Hp He Hl] & Hfst).
  cbn [posted List.length Nat.add app] in Hp, He, Hl.
  assert (Hk : k = S j).
  { destruct (Nat.lt_trichotomy k (S j)) as [Hlt|[Heq|Hgt]]; [|exact Heq|].
    - exfalso. destruct exit as [r|site msg|].
      + destruct Hl as (j' & -> & Hs).
        destruct (Hfail j') as (e & Hf & _); [lia|]. congruence.
      + destruct Hl as (j' & e & -> & Hf & Hor & _).
        destruct (Hfail j') as (e' & Hf' & Hr); [lia|].
        rewrite Hf in Hf'. inversion Hf'; subst e'.
        apply FailoverFacts.shouldSwitchEndpointOnError_retryable in Hr.
        destruct Hor as [E|E]; [lia|congruence].
      + destruct Hl as (-> & _). simpl in Hj. lia.
    - exfalso. destruct (He j) as (e & Hf & _); [lia|]. congruence. }
  subst k. split; [|exact Hp].
  rewrite Hfst. destruct exit as [r|site msg|].
  - destruct Hl as (j' & Ej & Hs). inversion Ej; subst j'. congruence.
  - destruct Hl as (j' & e & Ej & Hf & _). inversion Ej; subst j'. congruence.
  - destruct Hl as (_ & Ek & _). discriminate.
Qed.

(** X15.  When every endpoint fails with a retryable error, each is tried once,
    in order, and the call fails with what [handleAxiosError] throws for
    the error of the last endpoint, which is also the [lastError]. *)
Theorem failover_exhausts_endpoints (baseUrls : list string) :
  baseUrls <> [] ->
  (forall i, (i < List.length baseUrls)%nat ->
     exists e, axios_post i (requestFor (nth i baseUrls "")) = Failure e /\
               Spec.retryable e) ->
  posted (snd (failoverOver baseUrls)) = map requestFor baseUrls /\
  exists e site message,
    axios_post (List.length baseUrls - 1)
      (requestFor (nth (List.length baseUrls - 1) baseUrls "")) = Failure e /\
    lastError (snd (failoverOver baseUrls)) = Some e /\
    handleAxiosError JSON_parse (Some e) operation = Throw site message /\
    fst (failoverOver baseUrls) = Throw site message.
Proof.
  intros Hne Hfail.
  destruct (FailoverFacts.failoverOver_run JSON_parse axios_post env path accessToken
              requestConfig operation extraHeaders baseUrls)
    as (k & exit & [Hb Hp He Hl] & Hfst).
  cbn [posted List.length Nat.add app] in Hp, He, Hl.
  destruct exit as [r|site msg|].
  - exfalso. destruct Hl as (j & -> & Hs).
    destruct (Hfail j) as (e & Hf & _); [lia|]. congruence.
  - destruct Hl as (j & e & -> & Hf & Hor & Hh & Hlast).
    assert (Hk : S j = List.length baseUrls).
    { destruct Hor as [E|E]; [exact E|].
      destruct (Hfail j) as (e' & Hf' & Hr); [lia|].
      rewrite Hf in Hf'. inversion Hf'; subst e'.
      apply FailoverFacts.shouldSwitchEndpointOnError_retryable in Hr. congruence. }
    split.
    + rewrite Hp, Hk, firstn_all. reflexivity.
    + exists e, site, msg.
      replace (List.length baseUrls - 1)%nat with j by lia.
      repeat split; assumption.
  - destruct Hl as (Hnil & _). contradiction.
Qed.

(** X16.  Every POST of a call goes to a base URL followed by the path, with a
    timeout of at least one second and the configuration of the call; a
    header the caller supplies replaces the built-in header of that name,
    and the other built-in headers are sent as they are. *)
Theorem posted_requests_are_uniform (baseUrls : list string) (req : Request) :
  In req (posted (snd (failoverOver baseUrls))) ->
  (exists baseUrl, In baseUrl baseUrls /\ url req = (baseUrl ++ path)%string) /\
  1000 <= timeout req /\
  config req = requestConfig /\
  forall name,
    Js.lookup (headers req) name
    = match Js.lookup (match extraHeaders with Some h => h | None => [] end) name with
      | Some v => Some v
      | None =>
          Js.lookup
            [ ("Authorization", ("Bearer " ++ accessToken)%string);
              ("Content-Type", "application/json");
              ("User-Agent",
               match PROXY_REQUEST_USER_AGENT env with
               | Some ua => ua
               | None => defaultRequestUserAgent
               end) ] name
      end.
Proof.
  intros Hin.
  destruct (FailoverFacts.failoverOver_attempts JSON_parse axios_post env path
              accessToken requestConfig operation extraHeaders baseUrls)
    as (_ & Hp & _).
  rewrite Hp in Hin. apply in_map_iff in Hin. destruct Hin as (b & <- & Hb).
  split; [exists b; split; [exact (In_firstn _ _ _ Hb)|reflexivity]|].
  split; [cbn [timeout GeminiClient.requestFor]; unfold getInternalTimeoutMs; lia|].
  split; [reflexivity|].
  intros name. cbn [headers GeminiClient.requestFor]. apply lookup_app.
Qed.

End Dispatcher.

Lemma failover_returns_first_success_witness :
  fst (failoverOver Json.parse Samples.timeout_then_ok Samples.env0 ":generateContent"
         "token" {| responseType := None |} "generate-content" None
         defaultInternalBaseUrls)
  = Normal Samples.ok_response
  /\
  posted (snd (failoverOver Json.parse Samples.timeout_then_ok Samples.env0
                 ":generateContent" "token" {| responseType := None |}
                 "generate-content" None defaultInternalBaseUrls))
  = map (requestFor Samples.env0 ":generateContent" "token" {| responseType := None |}
           None)
        (firstn 2 defaultInternalBaseUrls).
Proof.
  apply (failover_returns_first_success Json.parse Samples.timeout_then_ok Samples.env0
           ":generateContent" "token" {| responseType := None |} "generate-content"
           None defaultInternalBaseUrls 1 Samples.ok_response).
  - simpl. lia.
  - intros i Hi. assert (i = 0%nat) by lia. subst i.
    eexists. split; [reflexivity|exact I].
  - reflexivity.
Defined.

Lemma failover_exhausts_endpoints_witness :
  posted (snd (failoverOver Json.parse MoreSamples.always_unavailable Samples.env0
                 ":generateContent" "token" {| responseType := None |}
                 "generate-content" None defaultInternalBaseUrls))
  = map (requestFor Samples.env0 ":generateContent" "token" {| responseType := None |}
           None)
        defaultInternalBaseUrls.
Proof.
  refine (proj1 (failover_exhausts_endpoints Json.parse MoreSamples.always_unavailable
                   Samples.env0 ":generateContent" "token" {| responseType := None |}
                   "generate-content" None defaultInternalBaseUrls _ _)).
  - discriminate.
  - intros i Hi. eexists. split; [reflexivity|]. simpl. lia.
Defined.

Lemma posted_requests_are_uniform_witness :
  1000 <= timeout
            (requestFor Samples.env0 ":generateContent" "token"
               {| responseType := None |} None
               "https://cloudcode-pa.googleapis.com/v1internal").
Proof.
  refine (proj1 (proj2 (posted_requests_are_uniform Json.parse Samples.timeout_then_ok
                          Samples.env0 ":generateContent" "token"
                          {| responseType := None |} "generate-content" None
                          defaultInternalBaseUrls _ _))).
  left. reflexivity.
Defined.

End FailoverMoreFacts.

(* ================================================================== *)
(** * Localized error messages: codes, hints and the two kinds of error *)
(* ================================================================== *)

Module ErrorCodesFacts.

Import ErrorMessages Props.

Lemma split_noBar (s : string) : noBar s = true -> Js.split "|" s = [s].
Proof.
  induction s as [|c s IH]; simpl; [reflexivity|].
  intros H. apply andb_true_iff in H. destruct H as [Hc Hs].
  apply negb_true_iff in Hc. rewrite Hc, (IH Hs). reflexivity.
Qed.

Lemma split_at_bar (a b : string) :
  noBar a = true -> Js.split "|" (a ++ "|" ++ b) = a :: Js.split "|" b.
Proof.
  induction a as [|c a IH]; simpl.
  - reflexivity.
  - intros H. apply andb_true_iff in H. destruct H as [Hc Ha].
    apply negb_true_iff in Hc. rewrite Hc. simpl in IH. rewrite (IH Ha). reflexivity.
Qed.

(** X17.  A message put together as [CODE|HINT] is taken apart into the same
    code and hint. *)
Theorem code_and_hint_round_trip (code hint : string) :
  noBar code = true -> noBar hint = true ->
  codeOf (code ++ "|" ++ hint) = code /\
  hintOf (code ++ "|" ++ hint) = Some hint.
Proof.
  intros Hc Hh. unfold codeOf, hintOf.
  rewrite (split_at_bar code hint Hc), (split_noBar hint Hh). auto.
Qed.

Section Localize.

Variable t : TKey -> string.

Lemma resolveKeychainMessage_prefix (hint : option string) :
  exists suffix,
    resolveKeychainMessage t hint
    = (t (Key "error.keychainUnavailable") ++ suffix)%string.
Proof.
  unfold resolveKeychainMessage.
  assert (E : forall s : string, s = (s ++ "")%string)
    by (intros s; symmetry; apply TextFacts.append_nil_r).
  destruct hint as [h|]; [|exists ""; apply E].
  destruct (negb (Js.truthy h)); [exists ""; apply E|].
  destruct (getProperty _ h) as [k|m|]; [| |exists ""; apply E].
  - destruct (negb (Js.truthy k)); [exists ""; apply E|]. eexists; reflexivity.
  - eexists; reflexivity.
Qed.

Lemma resolveDataMigrationMessage_prefix (hint : option string) :
  exists suffix,
    resolveDataMigrationMessage t hint
    = (t (Key "error.dataMigrationFailed") ++ suffix)%string.
Proof.
  unfold resolveDataMigrationMessage.
  assert (E : forall s : string, s = (s ++ "")%string)
    by (intros s; symmetry; apply TextFacts.append_nil_r).
  destruct hint as [h|]; [|exists ""; apply E].
  destruct (negb (Js.truthy h)); [exists ""; apply E|].
  destruct (getProperty _ h) as [k|m|]; [| |exists ""; apply E].
  - destruct (negb (Js.truthy k)); [exists ""; apply E|]. eexists; reflexivity.
  - eexists; reflexivity.
Qed.

(** X18.  Under one of the two codes the result always begins with the
    localized base message of the code, whatever the hint is. *)
Theorem coded_message_starts_with_base (error : Unknown) (rawMessage : string) :
  Spec.rawMessageOf error = Some rawMessage ->
  (codeOf rawMessage = KEYCHAIN_ERROR_CODE ->
   exists suffix,
     getLocalizedErrorMessage t error
     = (t (Key "error.keychainUnavailable") ++ suffix)%string) /\
  (codeOf rawMessage = DATA_MIGRATION_ERROR_CODE ->
   exists suffix,
     getLocalizedErrorMessage t error
     = (t (Key "error.dataMigrationFailed") ++ suffix)%string).
Proof.
  intros Hraw.
  assert (G : getLocalizedErrorMessage t error
              = if String.eqb (codeOf rawMessage) KEYCHAIN_ERROR_CODE
                then resolveKeychainMessage t (hintOf rawMessage)
                else if String.eqb (codeOf rawMessage) DATA_MIGRATION_ERROR_CODE
                then resolveDataMigrationMessage t (hintOf rawMessage)
                else getLocalizedErrorMessage t error).
  { destruct error as [m|[m|] s|s]; simpl in Hraw; inversion Hraw; subst;
      cbn [getLocalizedErrorMessage]; try reflexivity;
      (destruct (String.eqb (codeOf _) KEYCHAIN_ERROR_CODE); [reflexivity|];
       destruct (String.eqb (codeOf _) DATA_MIGRATION_ERROR_CODE); reflexivity). }
  split; intros Hc; rewrite G, Hc.
  - rewrite String.eqb_refl. apply resolveKeychainMessage_prefix.
  - change (String.eqb DATA_MIGRATION_ERROR_CODE KEYCHAIN_ERROR_CODE) with false.
    rewrite String.eqb_refl. apply resolveDataMigrationMessage_prefix.
Qed.

(** X19.  A plain object with a message that is not empty is localized exactly
    like an [Error] with that message. *)
Theorem object_localized_like_error (m asString : string) :
  m <> "" ->
  getLocalizedErrorMessage t (ObjectWithMessage (Some m) asString)
  = getLocalizedErrorMessage t (ErrorInstance m).
Proof.
  intros Hne. simpl. unfold Js.truthy.
  destruct (String.eqb_spec m "") as [E|_]; [contradiction|]. reflexivity.
Qed.

End Localize.

Lemma code_and_hint_round_trip_witness :
  codeOf ("ERR_DATA_MIGRATION_FAILED" ++ "|" ++ "HINT_RELOGIN")
  = "ERR_DATA_MIGRATION_FAILED"
  /\ hintOf ("ERR_DATA_MIGRATION_FAILED" ++ "|" ++ "HINT_RELOGIN") = Some "HINT_RELOGIN".
Proof.
  apply (code_and_hint_round_trip "ERR_DATA_MIGRATION_FAILED" "HINT_RELOGIN");
    reflexivity.
Defined.

Lemma coded_message_starts_with_base_witness :
  exists suffix,
    getLocalizedErrorMessage Samples.sample_t
      (ErrorInstance "ERR_KEYCHAIN_UNAVAILABLE|toString")
    = (Samples.sample_t (Key "error.keychainUnavailable") ++ suffix)%string.
Proof.
  refine (proj1 (coded_message_starts_with_base Samples.sample_t
                   (ErrorInstance "ERR_KEYCHAIN_UNAVAILABLE|toString")
                   "ERR_KEYCHAIN_UNAVAILABLE|toString" _) _); reflexivity.
Defined.

Lemma object_localized_like_error_witness :
  getLocalizedErrorMessage Samples.sample_t
    (ObjectWithMessage (Some "ERR_DATA_MIGRATION_FAILED|HINT_CLEAR_DATA") "[object Object]")
  = getLocalizedErrorMessage Samples.sample_t
      (ErrorInstance "ERR_DATA_MIGRATION_FAILED|HINT_CLEAR_DATA").
Proof.
  apply (object_localized_like_error Samples.sample_t). discriminate.
Defined.

End ErrorCodesFacts.

(* ================================================================== *)
(** * Component state: collapsing, selecting, switching models off *)
(* ================================================================== *)

Module StateFacts.

(** ** Objects *)

Lemma lookup_map_replace {A : Type} (o : list (string * A)) (k k' : string) (v : A) :
  Js.lookup (map (fun e => if String.eqb (fst e) k then (k, v) else e) o) k'
  = if String.eqb k k'
    then match Js.lookup o k with Some _ => Some v | None => None end
    else Js.lookup o k'.
Proof.
  induction o as [|[k0 v0] o IH]; simpl.
  - destruct (String.eqb k k'); reflexivity.
  - rewrite IH.
    destruct (String.eqb_spec k0 k) as [->|N0]; simpl.
    + destruct (String.eqb_spec k k') as [->|N]; simpl.
      * destruct (Js.lookup o k'); reflexivity.
      * destruct (Js.lookup o k'); reflexivity.
    + destruct (String.eqb_spec k k') as [->|N]; simpl.
      * destruct (String.eqb_spec k0 k'); [contradiction|].
        destruct (Js.lookup o k'); reflexivity.
      * reflexivity.
Qed.

Lemma hasOwn_lookup {A : Type} (o : list (string * A)) (k : string) :
  JsObject.hasOwn o k = true <-> Js.lookup o k <> None.
Proof.
  induction o as [|[k0 v0] o IH]; simpl.
  - split; [discriminate|congruence].
  - unfold JsObject.hasOwn in IH. rewrite orb_true_iff, IH.
    destruct (Js.lookup o k); simpl.
    + split; [discriminate|auto].
    + destruct (String.eqb k0 k); split; try discriminate; try tauto.
      intros [H|H]; [discriminate|contradiction].
Qed.

(** Reading a key after [{...o, [k]: v}]: the new value under [k], the old
    value under every other key. *)
Lemma lookup_set {A : Type} (o : list (string * A)) (k k' : string) (v : A) :
  Js.lookup (JsObject.set o k v) k' = if String.eqb k k' then Some v else Js.lookup o k'.
Proof.
  unfold JsObject.set. destruct (JsObject.hasOwn o k) eqn:E.
  - rewrite lookup_map_replace. apply hasOwn_lookup in E.
    destruct (Js.lookup o k); [reflexivity|contradiction].
  - rewrite FailoverMoreFacts.lookup_app. simpl.
    destruct (String.eqb k k'); reflexivity.
Qed.

(** ** Arrays used as sets of collapsed entries *)

Lemma includes_filter (l : list string) (k k' : string) :
  UseProviderGrouping.includes (filter (fun x => negb (String.eqb x k)) l) k'
  = (negb (String.eqb k' k) && UseProviderGrouping.includes l k')%bool.
Proof.
  unfold UseProviderGrouping.includes.
  induction l as [|x l IH]; simpl.
  - rewrite andb_false_r. reflexivity.
  - destruct (String.eqb_spec x k) as [E|N]; simpl.
    + rewrite IH. destruct (String.eqb_spec k' k) as [E'|N']; simpl; [reflexivity|].
      destruct (String.eqb_spec k' x) as [E2|N2]; [congruence|reflexivity].
    + rewrite IH. destruct (String.eqb_spec k' x) as [E'|N']; simpl.
      * destruct (String.eqb_spec k' k) as [E2|N2]; [congruence|reflexivity].
      * reflexivity.
Qed.

Lemma includes_app (l : list string) (k k' : string) :
  UseProviderGrouping.includes (l ++ [k]) k'
  = (UseProviderGrouping.includes l k' || String.eqb k' k)%bool.
Proof.
  unfold UseProviderGrouping.includes. rewrite existsb_app. simpl.
  rewrite orb_false_r. reflexivity.
Qed.

(** The common step of both toggles: the entry is flipped, the others stay. *)
Lemma toggled_includes (l : list string) (k k' : string) :
  UseProviderGrouping.includes
    (if UseProviderGrouping.includes l k
     then filter (fun x => negb (String.eqb x k)) l
     else l ++ [k]) k'
  = if String.eqb k' k then negb (UseProviderGrouping.includes l k)
    else UseProviderGrouping.includes l k'.
Proof.
  destruct (UseProviderGrouping.includes l k) eqn:E.
  - rewrite includes_filter. destruct (String.eqb k' k); reflexivity.
  - rewrite includes_app.
    destruct (String.eqb_spec k' k) as [->|N]; simpl.
    + rewrite E. reflexivity.
    + apply orb_false_r.
Qed.

Import UseProviderGrouping.

(** X20.  Toggling an account flips whether that account is collapsed and
    leaves every other account as it was. *)
Theorem toggleAccountCollapse_flips_one (prev : list string) (accountId other : string) :
  isAccountCollapsed (toggleAccountCollapse prev accountId) other
  = if String.eqb other accountId then negb (isAccountCollapsed prev accountId)
    else isAccountCollapsed prev other.
Proof.
  unfold isAccountCollapsed, toggleAccountCollapse. apply toggled_includes.
Qed.

Lemma entryOf_set (prev : list (string * list string)) (a a' : string)
    (keys : list string) :
  entryOf (JsObject.set prev a keys) a'
  = if String.eqb a a' then OwnArray keys else entryOf prev a'.
Proof.
  unfold entryOf. rewrite lookup_set. destruct (String.eqb a a'); reflexivity.
Qed.

(** X21.  Toggling a provider of an account throws only when the account id
    names a member of [Object.prototype]; otherwise it flips whether that
    provider of that account is collapsed and changes nothing else: not
    the other providers of the account, not the other accounts. *)
Theorem toggleProviderCollapse_flips_one
    (prev : list (string * list string)) (accountId providerKey : string) :
  match toggleProviderCollapse prev accountId providerKey with
  | TypeError => entryOf prev accountId = InheritedMember
  | Ok next =>
      exists collapsed,
        isProviderCollapsed prev accountId providerKey = Ok collapsed /\
        isProviderCollapsed next accountId providerKey = Ok (negb collapsed) /\
        (forall k, k <> providerKey ->
           isProviderCollapsed next accountId k = isProviderCollapsed prev accountId k) /\
        (forall a k, a <> accountId ->
           isProviderCollapsed next a k = isProviderCollapsed prev a k)
  end.
Proof.
  unfold toggleProviderCollapse, isProviderCollapsed.
  destruct (entryOf prev accountId) as [keys| |] eqn:E; [|reflexivity|].
  - exists (includes keys providerKey). split; [reflexivity|].
    split; [|split].
    + rewrite entryOf_set, String.eqb_refl, toggled_includes, String.eqb_refl.
      reflexivity.
    + intros k Hk. rewrite entryOf_set, String.eqb_refl, toggled_includes.
      destruct (String.eqb_spec k providerKey); [contradiction|reflexivity].
    + intros a k Ha. rewrite entryOf_set.
      destruct (String.eqb_spec accountId a); [congruence|reflexivity].
  - exists false. split; [reflexivity|].
    split; [|split].
    + rewrite entryOf_set, String.eqb_refl.
      change (includes [] providerKey) with false. cbn [app].
      unfold includes. simpl. rewrite String.eqb_refl. reflexivity.
    + intros k Hk. rewrite entryOf_set, String.eqb_refl.
      change (includes [] providerKey) with false. cbn [app].
      unfold includes. simpl.
      destruct (String.eqb_spec k providerKey); [contradiction|reflexivity].
    + intros a k Ha. rewrite entryOf_set.
      destruct (String.eqb_spec accountId a); [congruence|reflexivity].
Qed.

(** ** The selection of accounts *)

Lemma has_In (s : JsSet.t) (x : string) : JsSet.has s x = true <-> In x s.
Proof. apply GroupingFacts.existsb_eqb_In. Qed.

Lemma add_spec (s : JsSet.t) (x y : string) :
  JsSet.has (JsSet.add s x) y = (String.eqb y x || JsSet.has s y)%bool.
Proof.
  unfold JsSet.add. destruct (JsSet.has s x) eqn:E.
  - destruct (String.eqb_spec y x) as [->|N]; [rewrite E|]; reflexivity.
  - unfold JsSet.has. rewrite existsb_app. simpl. rewrite orb_false_r.
    apply orb_comm.
Qed.

Lemma delete_spec (s : JsSet.t) (x y : string) :
  JsSet.has (JsSet.delete s x) y = (negb (String.eqb y x) && JsSet.has s y)%bool.
Proof. apply includes_filter. Qed.

Lemma add_NoDup (s : JsSet.t) (x : string) : NoDup s -> NoDup (JsSet.add s x).
Proof.
  intros H. unfold JsSet.add. destruct (JsSet.has s x) eqn:E; [exact H|].
  apply NoDup_app; [exact H|constructor; [intros []|constructor]|].
  intros y Hy [<-|[]]. apply has_In in Hy. congruence.
Qed.

Lemma delete_NoDup (s : JsSet.t) (x : string) : NoDup s -> NoDup (JsSet.delete s x).
Proof. apply NoDup_filter. Qed.

(** X22.  Ticking an account puts it in the selection and unticking takes it
    out; no other account is touched. *)
Theorem toggleSelection_sets_one (prev : JsSet.t) (accountId : string) (selected : bool)
    (other : string) :
  JsSet.has (AccountSelection.toggleSelection prev accountId selected) other
  = if String.eqb other accountId then selected else JsSet.has prev other.
Proof.
  unfold AccountSelection.toggleSelection. destruct selected.
  - rewrite add_spec. destruct (String.eqb other accountId); reflexivity.
  - rewrite delete_spec. destruct (String.eqb other accountId); reflexivity.
Qed.

Lemma of_array_from (l : list string) (s : JsSet.t) :
  NoDup s ->
  NoDup (fold_left JsSet.add l s) /\
  forall x, JsSet.has (fold_left JsSet.add l s) x = (JsSet.has s x || existsb (String.eqb x) l)%bool.
Proof.
  revert s. induction l as [|y l IH]; intros s Hs; simpl.
  - split; [exact Hs|]. intros x. rewrite orb_false_r. reflexivity.
  - destruct (IH (JsSet.add s y) (add_NoDup s y Hs)) as [Hnd Hhas].
    split; [exact Hnd|]. intros x. rewrite Hhas, add_spec.
    destruct (String.eqb x y), (JsSet.has s x); reflexivity.
Qed.

Lemma of_array_NoDup_id (l : list string) (s : JsSet.t) :
  NoDup (s ++ l) -> fold_left JsSet.add l s = s ++ l.
Proof.
  revert s. induction l as [|y l IH]; intros s H; simpl.
  - rewrite app_nil_r. reflexivity.
  - assert (Hy : JsSet.has s y = false).
    { destruct (JsSet.has s y) eqn:E; [|reflexivity]. apply has_In in E.
      apply NoDup_remove_2 in H. exfalso. apply H. apply in_or_app. left. exact E. }
    unfold JsSet.add at 2. rewrite Hy.
    rewrite IH; rewrite <- app_assoc; [reflexivity|exact H].
Qed.

(** X23.  With distinct account ids and a selection that holds only accounts of
    the list: select-all clears the selection when every account is
    selected, otherwise it selects every account, and a second select-all
    then clears it. *)
Theorem toggleSelectAll_selects_or_clears
    (selectedIds : JsSet.t) (accounts : list AccountSelection.AccountRow) :
  NoDup (map AccountSelection.id accounts) ->
  NoDup selectedIds ->
  incl selectedIds (map AccountSelection.id accounts) ->
  let next := AccountSelection.toggleSelectAll selectedIds (Some accounts) in
  (incl (map AccountSelection.id accounts) selectedIds -> next = []) /\
  (~ incl (map AccountSelection.id accounts) selectedIds ->
   next = map AccountSelection.id accounts /\
   AccountSelection.toggleSelectAll next (Some accounts) = []).
Proof.
  intros Hids Hsel Hincl next. subst next.
  unfold AccountSelection.toggleSelectAll, JsSet.size.
  assert (Hlen : (List.length selectedIds <= List.length accounts)%nat).
  { rewrite <- (length_map AccountSelection.id). apply NoDup_incl_length; assumption. }
  assert (Hall : List.length selectedIds = List.length accounts
                 <-> incl (map AccountSelection.id accounts) selectedIds).
  { split.
    - intros E. apply NoDup_length_incl; [exact Hsel| |exact Hincl].
      rewrite length_map. lia.
    - intros H.
      assert ((List.length (map AccountSelection.id accounts) <= List.length selectedIds)%nat)
        by (apply NoDup_incl_length; assumption).
      rewrite length_map in *. lia. }
  assert (Hof : JsSet.of_array (map AccountSelection.id accounts)
                = map AccountSelection.id accounts).
  { unfold JsSet.of_array. rewrite of_array_NoDup_id; [reflexivity|exact Hids]. }
  split.
  - intros H. apply Hall in H. rewrite H, Nat.eqb_refl. reflexivity.
  - intros H. destruct (Nat.eqb_spec (List.length selectedIds) (List.length accounts))
      as [E|N]; [apply Hall in E; contradiction|].
    rewrite Hof. split; [reflexivity|].
    rewrite length_map, Nat.eqb_refl. reflexivity.
Qed.

Lemma toggleSelectAll_selects_or_clears_witness :
  (incl (map AccountSelection.id MoreSamples.two_accounts) ["a2"] ->
   AccountSelection.toggleSelectAll ["a2"] (Some MoreSamples.two_accounts) = []) /\
  (~ incl (map AccountSelection.id MoreSamples.two_accounts) ["a2"] ->
   AccountSelection.toggleSelectAll ["a2"] (Some MoreSamples.two_accounts)
   = map AccountSelection.id MoreSamples.two_accounts /\
   AccountSelection.toggleSelectAll
     (AccountSelection.toggleSelectAll ["a2"] (Some MoreSamples.two_accounts))
     (Some MoreSamples.two_accounts) = []).
Proof.
  apply (toggleSelectAll_selects_or_clears ["a2"] MoreSamples.two_accounts).
  - repeat constructor; simpl; intuition discriminate.
  - repeat constructor; simpl; intuition discriminate.
  - intros x [<-|[]]. simpl. auto.
Defined.

(** ** Switching models off *)

(** X24.  After a model is ticked or unticked its check box shows that, and the
    check boxes of the other models are unchanged; after a reset every
    model is ticked. *)
Theorem handleModelToggle_sets_one
    (prev : list (string * bool)) (modelName : string) (checked : bool) (other : string) :
  ModelVisibilitySettings.isChecked
    (ModelVisibilitySettings.handleModelToggle prev modelName checked) other
  = (if String.eqb other modelName then checked
     else ModelVisibilitySettings.isChecked prev other)
  /\ ModelVisibilitySettings.isChecked ModelVisibilitySettings.handleReset other = true.
Proof.
  split; [|reflexivity].
  unfold ModelVisibilitySettings.isChecked, ModelVisibilitySettings.handleModelToggle,
         ProviderGrouping.isVisible.
  rewrite lookup_set, (String.eqb_sym other modelName).
  destruct (String.eqb modelName other); [destruct checked|]; reflexivity.
Qed.

End StateFacts.

(* ================================================================== *)
(** * The account card and the visibility settings *)
(* ================================================================== *)

Module CardFacts.

Import ProviderGrouping.

Lemma truthy_append_r (a b : string) :
  Js.truthy b = true -> Js.truthy (a ++ b)%string = true.
Proof.
  unfold Js.truthy. destruct a; simpl; [auto|reflexivity].
Qed.

Section Card.

Variable Date_getTime : string -> option Z.
Variable now : Z.
Variable t : string -> string.
Variable toLocaleString : Z -> string.

#[local] Abbreviation formatTimeRemaining :=
  (CloudAccountCard.formatTimeRemaining Date_getTime now).
#[local] Abbreviation getResetTimeLabel :=
  (CloudAccountCard.getResetTimeLabel Date_getTime now t).
#[local] Abbreviation getResetTimeTitle :=
  (CloudAccountCard.getResetTimeTitle Date_getTime t toLocaleString).
#[local] Abbreviation show := CloudAccountCard.show.

Lemma formatTimeRemaining_closed_form (dateStr : string) :
  match Date_getTime dateStr with
  | None => formatTimeRemaining dateStr = None
  | Some targetDate =>
      let minutes := (targetDate - now) / 60000 in
      formatTimeRemaining dateStr
      = Some (if targetDate <? now then "0h 0m"
              else if minutes <? 1440
              then (show (minutes / 60) ++ "h " ++ show (minutes mod 60) ++ "m")%string
              else (show (minutes / 1440) ++ "d " ++ show (minutes / 60 mod 24) ++ "h")%string)
  end.
Proof.
  unfold CloudAccountCard.formatTimeRemaining.
  destruct (Date_getTime dateStr) as [targetDate|]; [|reflexivity].
  cbv zeta. destruct (Z.ltb_spec targetDate now) as [Hlt|Hge]; [reflexivity|].
  unfold CloudAccountCard.differenceInHours, CloudAccountCard.differenceInMinutes.
  set (d := targetDate - now). assert (Hd : 0 <= d) by (subst d; lia).
  rewrite !Z.quot_div_nonneg by lia.
  assert (Hh : d / 3600000 = d / 60000 / 60)
    by (rewrite Z.div_div by lia; reflexivity).
  rewrite Hh. set (m := d / 60000).
  assert (Hm : 0 <= m) by (subst m; apply Z.div_pos; lia).
  destruct (Z.geb_spec (m / 60) 24) as [H24|H24];
    destruct (Z.ltb_spec m 1440) as [H1440|H1440].
  - exfalso. assert (m / 60 < 24) by (apply Z.div_lt_upper_bound; lia). lia.
  - rewrite Z.div_div by lia. reflexivity.
  - replace (m - m / 60 * 60) with (m mod 60)
      by (rewrite Z.mod_eq by lia; lia).
    reflexivity.
  - exfalso. assert (24 <= m / 60) by (apply Z.div_le_lower_bound; lia). lia.
Qed.

(** X25.  The time left is shown from the whole minutes left: under a day as
    hours and the minutes past the hour, from a day on as days and the
    hours past the day; a reset time in the past shows [0h 0m], and only a
    text that is no date shows nothing. *)
Theorem formatTimeRemaining_whole_minutes (dateStr : string) :
  match Date_getTime dateStr with
  | None => formatTimeRemaining dateStr = None
  | Some targetDate =>
      let minutes := (targetDate - now) / 60000 in
      formatTimeRemaining dateStr
      = Some (if targetDate <? now then "0h 0m"
              else if minutes <? 1440
              then (show (minutes / 60) ++ "h " ++ show (minutes mod 60) ++ "m")%string
              else (show (minutes / 1440) ++ "d " ++ show (minutes / 60 mod 24) ++ "h")%string)
  end.
Proof. exact (formatTimeRemaining_closed_form dateStr). Qed.

Lemma formatTimeRemaining_truthy (dateStr remaining : string) :
  formatTimeRemaining dateStr = Some remaining -> Js.truthy remaining = true.
Proof.
  unfold CloudAccountCard.formatTimeRemaining.
  destruct (Date_getTime dateStr) as [targetDate|]; [|discriminate].
  cbv zeta. destruct (targetDate <? now); [intros [= <-]; reflexivity|].
  destruct (_ >=? 24); intros [= <-];
    apply truthy_append_r; reflexivity.
Qed.

(** X26.  The label and the tooltip of a reset time go together: whenever the
    tooltip is left out (no reset time, or one that is no date) the label
    says that the reset time is unknown, and whenever there is a tooltip the
    label is the prefix followed by the time left. *)
Theorem reset_label_follows_title (resetTime : option string) :
  match getResetTimeTitle resetTime with
  | None => getResetTimeLabel resetTime = t "cloud.card.resetUnknown"
  | Some _ =>
      exists r remaining,
        resetTime = Some r /\
        formatTimeRemaining r = Some remaining /\
        getResetTimeLabel resetTime
        = (t "cloud.card.resetPrefix" ++ ": " ++ remaining)%string
  end.
Proof.
  unfold CloudAccountCard.getResetTimeTitle, CloudAccountCard.getResetTimeLabel.
  destruct resetTime as [r|]; [|reflexivity].
  destruct (Js.truthy r); cbn [negb]; [|reflexivity].
  pose proof (formatTimeRemaining_closed_form r) as Hf.
  destruct (Date_getTime r) as [resetDate|] eqn:E.
  - cbv zeta in Hf.
    pose proof (formatTimeRemaining_truthy r _ Hf) as Htruthy.
    rewrite Hf, Htruthy. cbn [negb].
    exists r. eexists. split; [reflexivity|]. split; [exact Hf|reflexivity].
  - rewrite Hf. reflexivity.
Qed.

End Card.

Section Views.

Variable Date_getTime : string -> option Z.
Variable Date_toISOString : Z -> string.

(** X27.  The flat list of the card and the grouped view show the same models:
    the models of the provider groups that are not switched off are, up to
    their order, the entries of the flat list. *)
Theorem flat_and_grouped_views_agree
    (config : option UseProviderGrouping.Config)
    (account : CloudAccountList.CloudAccount) :
  Permutation
    (flat_map visibleModels
       (providers
          (UseProviderGrouping.getAccountStats Date_getTime Date_toISOString config account)))
    (map toQuota (CloudAccountCard.modelQuotas account config)).
Proof.
  unfold UseProviderGrouping.getAccountStats, CloudAccountCard.modelQuotas.
  cbv zeta.
  set (entries := match CloudAccountList.quota_models account with
                  | Some ms => ms | None => [] end).
  set (vis := UseProviderGrouping.visibilitySettings config).
  rewrite AccountGroupsFacts.providers_unfold.
  rewrite (Permutation_flat_map _ (VisibleModelsFacts.Array_sort_Permutation _ _)).
  rewrite VisibleModelsFacts.visibleModels_of_groups.
  rewrite (VisibleModelsFacts.Permutation_filter _ _ _
             (VisibleModelsFacts.groupEntries_Permutation entries)).
  clear. induction entries as [|e entries IH]; simpl; [reflexivity|].
  destruct (isVisible vis (fst e)); simpl; [constructor|]; exact IH.
Qed.

End Views.

End CardFacts.

Module VisibilitySettingsFacts.

Import ModelVisibilitySettings.

Lemma lookup_In {A : Type} (o : list (string * A)) (k : string) (v : A) :
  Js.lookup o k = Some v -> In (k, v) o.
Proof.
  induction o as [|[k0 v0] o IH]; simpl; [discriminate|].
  destruct (Js.lookup o k) as [v'|].
  - intros H. right. apply IH. exact H.
  - destruct (String.eqb_spec k0 k) as [->|N]; [|discriminate].
    intros [= ->]. left. reflexivity.
Qed.

Lemma lookup_In_NoDup {A : Type} (o : list (string * A)) (k : string) (v : A) :
  NoDup (map fst o) -> (Js.lookup o k = Some v <-> In (k, v) o).
Proof.
  intros Hnd. split; [apply lookup_In|].
  induction o as [|[k0 v0] o IH]; simpl; [intros []|].
  inversion Hnd as [|? ? Hnotin Hnd']; subst.
  intros [[= -> ->]|Hin].
  - destruct (Js.lookup o k) as [v'|] eqn:E.
    + exfalso. apply Hnotin. apply lookup_In in E.
      apply (in_map fst) in E. exact E.
    + rewrite String.eqb_refl. reflexivity.
  - rewrite (IH Hnd' Hin). reflexivity.
Qed.

Lemma hiddenModels_keys (modelVisibility : list (string * bool)) :
  hiddenModels modelVisibility
  = List.length (map fst (filter (fun e => negb (snd e)) modelVisibility)).
Proof.
  unfold hiddenModels, JsObject.values. rewrite length_map.
  induction modelVisibility as [|[k v] o IH]; simpl; [reflexivity|].
  destruct v; simpl; rewrite IH; reflexivity.
Qed.

Lemma NoDup_map_filter {A B : Type} (g : A -> B) (f : A -> bool) (l : list A) :
  NoDup (map g l) -> NoDup (map g (filter f l)).
Proof.
  induction l as [|x l IH]; simpl; intros H; [constructor|].
  inversion H as [|? ? Hnotin Hnd]; subst.
  destruct (f x); simpl; [constructor|]; auto.
  intros Hin. apply Hnotin. apply in_map_iff in Hin. destruct Hin as (y & <- & Hy).
  apply in_map. apply filter_In in Hy. apply Hy.
Qed.

Lemma length_filter_split {A : Type} (f : A -> bool) (l : list A) :
  (List.length l = List.length (filter f l) + List.length (filter (fun x => negb (f x)) l))%nat.
Proof.
  induction l as [|x l IH]; simpl; [reflexivity|].
  destruct (f x); simpl; lia.
Qed.

(** X28.  When no model is listed twice, the settings hold each model once, and
    every model that is switched off is listed, the number shown as visible
    is the number of listed models whose check box is ticked. *)
Theorem visible_count_counts_ticked
    (allModels : list string) (modelVisibility : list (string * bool)) :
  NoDup allModels ->
  NoDup (map fst modelVisibility) ->
  (forall k, In (k, false) modelVisibility -> In k allModels) ->
  visibleModels allModels modelVisibility
  = Z.of_nat (List.length (filter (isChecked modelVisibility) allModels)).
Proof.
  intros Hall Hnd Hlisted. unfold visibleModels.
  rewrite (length_filter_split (isChecked modelVisibility) allModels).
  rewrite hiddenModels_keys.
  assert (Hperm : Permutation
            (filter (fun x => negb (isChecked modelVisibility x)) allModels)
            (map fst (filter (fun e => negb (snd e)) modelVisibility))).
  { apply NoDup_Permutation.
    - apply NoDup_filter. exact Hall.
    - apply NoDup_map_filter. exact Hnd.
    - intros k. rewrite filter_In, in_map_iff.
      unfold isChecked, ProviderGrouping.isVisible.
      split.
      + intros [Hin Hk]. exists (k, false). split; [reflexivity|].
        apply filter_In. split; [|reflexivity].
        apply lookup_In_NoDup; [exact Hnd|].
        destruct (Js.lookup modelVisibility k) as [[|]|]; try discriminate. reflexivity.
      + intros ([k' v] & Hk & Hin). simpl in Hk. subst k'.
        apply filter_In in Hin. destruct Hin as [Hin Hv]. simpl in Hv.
        destruct v; [discriminate|].
        split; [apply Hlisted; exact Hin|].
        apply (lookup_In_NoDup _ _ _ Hnd) in Hin. rewrite Hin. reflexivity. }
  rewrite (Permutation_length Hperm). lia.
Qed.

Lemma visible_count_counts_ticked_witness :
  visibleModels ["claude-sonnet"; "gemini-pro"; "gpt-oss"]
                [("gemini-pro", false); ("claude-sonnet", true)]
  = Z.of_nat (List.length
      (filter (isChecked [("gemini-pro", false); ("claude-sonnet", true)])
              ["claude-sonnet"; "gemini-pro"; "gpt-oss"])).
Proof.
  apply (visible_count_counts_ticked
           ["claude-sonnet"; "gemini-pro"; "gpt-oss"]
           [("gemini-pro", false); ("claude-sonnet", true)]).
  - repeat constructor; simpl; intuition discriminate.
  - repeat constructor; simpl; intuition discriminate.
  - intros k [[= <-]|[[= ]|[]]]. simpl. auto.
Defined.

End VisibilitySettingsFacts.

(* ================================================================== *)
(** * The list of all models of the visibility settings *)
(* ================================================================== *)

Module AllModelsFacts.

Import ModelVisibilitySettings.

Lemma text_leb_trans (a b c : string) :
  String.leb a b = true -> String.leb b c = true -> String.leb a c = true.
Proof.
  unfold String.leb. revert b c.
  induction a as [|x a IH]; intros [|y b] [|z c]; simpl; try congruence.
  unfold Ascii.compare.
  destruct (N.compare_spec (N_of_ascii x) (N_of_ascii y));
    destruct (N.compare_spec (N_of_ascii y) (N_of_ascii z));
    destruct (N.compare_spec (N_of_ascii x) (N_of_ascii z));
    try congruence; try lia.
  apply IH.
Qed.

Lemma text_sort_insert_Permutation (x : string) (l : list string) :
  Permutation (sort_insert x l) (x :: l).
Proof.
  induction l as [|y l IH]; simpl; [reflexivity|].
  destruct (String.leb x y); [reflexivity|].
  rewrite IH. constructor.
Qed.

Lemma text_Array_sort_Permutation (l : list string) : Permutation (Array_sort l) l.
Proof.
  induction l as [|x l IH]; simpl; [reflexivity|].
  rewrite text_sort_insert_Permutation, IH. reflexivity.
Qed.

Lemma text_sort_insert_sorted (x : string) (l : list string) :
  StronglySorted (fun a b => String.leb a b = true) l ->
  StronglySorted (fun a b => String.leb a b = true) (sort_insert x l).
Proof.
  induction 1 as [|y l Hl IH Hy]; simpl.
  - constructor; constructor.
  - destruct (String.leb x y) eqn:E.
    + constructor; [constructor; assumption|].
      constructor; [exact E|].
      eapply Forall_impl; [|exact Hy]. intros b Hb. exact (text_leb_trans _ _ _ E Hb).
    + constructor; [exact IH|].
      apply (AccountGroupsFacts.Forall_Permutation _ (x :: l));
        [symmetry; apply text_sort_insert_Permutation|].
      constructor; [|exact Hy].
      destruct (String.leb_total x y) as [H|H]; [congruence|exact H].
Qed.

Lemma text_Array_sort_sorted (l : list string) :
  StronglySorted (fun a b => String.leb a b = true) (Array_sort l).
Proof.
  induction l as [|x l IH]; simpl; [constructor|].
  apply text_sort_insert_sorted. exact IH.
Qed.

Lemma addAccountModels_spec (modelSet : JsSet.t) (account : CloudAccountList.CloudAccount) :
  NoDup modelSet ->
  NoDup (addAccountModels modelSet account) /\
  forall m, In m (addAccountModels modelSet account) <->
            In m modelSet \/
            exists models, CloudAccountList.quota_models account = Some models /\
                           In m (map fst models).
Proof.
  intros Hnd. unfold addAccountModels.
  destruct (CloudAccountList.quota_models account) as [models|].
  - destruct (StateFacts.of_array_from (map fst models) modelSet Hnd) as [Hnd' Hhas].
    split; [exact Hnd'|]. intros m.
    rewrite <- StateFacts.has_In, Hhas, orb_true_iff, StateFacts.has_In.
    rewrite GroupingFacts.existsb_eqb_In.
    split.
    + intros [H|H]; [left; exact H|right; exists models; auto].
    + intros [H|(ms & [= <-] & H)]; auto.
  - split; [exact Hnd|]. intros m. split; [auto|].
    intros [H|(ms & Hms & _)]; [exact H|discriminate].
Qed.

Lemma modelSet_spec (accs : list CloudAccountList.CloudAccount) (modelSet : JsSet.t) :
  NoDup modelSet ->
  NoDup (fold_left addAccountModels accs modelSet) /\
  forall m, In m (fold_left addAccountModels accs modelSet) <->
            In m modelSet \/
            exists account models,
              In account accs /\
              CloudAccountList.quota_models account = Some models /\
              In m (map fst models).
Proof.
  revert modelSet. induction accs as [|a accs IH]; intros modelSet Hnd; simpl.
  - split; [exact Hnd|]. intros m. split; [auto|].
    intros [H|(? & ? & [] & _)]. exact H.
  - destruct (addAccountModels_spec modelSet a Hnd) as [Hnd1 Hin1].
    destruct (IH _ Hnd1) as [Hnd2 Hin2].
    split; [exact Hnd2|]. intros m. rewrite Hin2, Hin1.
    split.
    + intros [[H|(ms & Hms & H)]|(a' & ms & Ha' & Hms & H)].
      * left. exact H.
      * right. exists a, ms. auto.
      * right. exists a', ms. auto.
    + intros [H|(a' & ms & [<-|Ha'] & Hms & H)].
      * left. left. exact H.
      * left. right. exists ms. auto.
      * right. exists a', ms. auto.
Qed.

(** X29.  The list of all models holds every model name of every account's
    model map, each once, in ascending order. *)
Theorem allModels_each_model_once_in_order
    (accounts : list CloudAccountList.CloudAccount) :
  NoDup (allModels (Some accounts)) /\
  StronglySorted (fun a b => String.leb a b = true) (allModels (Some accounts)) /\
  forall m, In m (allModels (Some accounts)) <->
            exists account models,
              In account accounts /\
              CloudAccountList.quota_models account = Some models /\
              In m (map fst models).
Proof.
  unfold allModels.
  destruct (modelSet_spec accounts [] (NoDup_nil _)) as [Hnd Hin].
  split; [|split].
  - apply (Permutation_NoDup (l := fold_left addAccountModels accounts []));
      [symmetry; apply text_Array_sort_Permutation|exact Hnd].
  - apply text_Array_sort_sorted.
  - intros m. transitivity (In m (fold_left addAccountModels accounts [])).
    + split; apply Permutation_in; [|symmetry]; apply text_Array_sort_Permutation.
    + rewrite Hin. split; [intros [[]|H]; exact H|auto].
Qed.

End AllModelsFacts.
